(** * IndigenousAccess Maps: the overlay adapters, embedded and verified

    A shallow embedding of the map host (lib/map-core.js), the weather
    hazard adapter (same file, second module), the river gage adapter
    (lib/rivers.js), the flood zone adapter and the tribal boundaries
    adapter, followed by the properties of the specification and by
    further properties of the same modules.

    Conventions of the embedding.
    - A JavaScript number is an IEEE 754 binary64 value: [float], with the
      primitive operations of [PrimFloat].
    - A value that may be [undefined]/[null] is an [option]; in a record
      of options, [None] is a key that is not there.
    - A pure function that may throw returns an [option]; a function that
      throws over the module variables returns a [Completion], with the
      state at the throw.
    - An [async] function is cut at its [await]: the part before it issues
      the request and leaves a continuation, the part after it receives
      the settled outcome.  Each module has an event loop, [step], over
      the calls of the page, the timers and the settled requests.
    - A Leaflet layer is an object with identity: layers are named by their
      Leaflet stamp, and what they hold is kept in a store indexed by it.
      Leaflet is taken at version 1.6 or later, where [resetStyle()]
      without an argument resets every layer of a GeoJSON layer.
    - The loading indicator ([showLoading], [hideLoading]) only touches the
      document and is left out; [showError] writes to the console.
    - An object literal used as a table ([REGIONS], the counts of
      [getAlertCounts], the overlay registry) is the finite map of its own
      properties; the names that it inherits are listed in
      [Object_prototype] and are outside the tables. *)

From Stdlib Require Import Floats ZArith Ascii String.
From stdpp Require Import gmap strings list pretty.

#[local] Set Warnings "-inexact-float".

Open Scope string_scope.
Open Scope list_scope.

(** ** Exceptions

    [forEach f l s] runs the callback [f] over [l] from left to right,
    threading the state it mutates; an exception in the callback ends the
    loop and propagates. *)

Fixpoint forEach {A S : Type} (f : S → A → option S) (l : list A) (s : S)
  : option S :=
  match l with
  | [] => Some s
  | x :: l' =>
      match f s x with
      | Some s' => forEach f l' s'
      | None => None
      end
  end.

(** Where the state outlives the exception (module-level variables), a
    call completes normally or abruptly, and leaves a state either way. *)

Inductive Completion (S : Type) : Type :=
| Returns (s : S)
| Throws (s : S).

Arguments Returns {S} s.
Arguments Throws {S} s.

Definition state_of {S : Type} (c : Completion S) : S :=
  match c with Returns s | Throws s => s end.

(** ** The engine

    Built-ins of the JavaScript engine that the modules call and that are
    not written out here: they are parameters of the development. *)

Class Engine := {
  (** [parseFloat(s)] *)
  parseFloat : string → float;
  (** [new Date(s).valueOf()] in milliseconds; [None] is an invalid date
      ([NaN]). *)
  Date_parse : string → option Z;
  (** [String(x)] for a number, as a template literal and
      [JSON.stringify] print it. *)
  Number_toString : float → string;
  (** The empty string is not a date. *)
  Date_parse_empty : Date_parse EmptyString = None
}.

(** ** Strings *)

Definition quote : string := String "034"%char EmptyString.

Fixpoint join (sep : string) (l : list string) : string :=
  match l with
  | [] => EmptyString
  | [x] => x
  | x :: l' => x +:+ sep +:+ join sep l'
  end.

(** Truthiness of a string: only the empty string is falsy. *)
Definition truthy (s : string) : bool :=
  match s with EmptyString => false | _ => true end.

(** An option that is a string or an array of strings
    ([Array.isArray(x) ? x.join(',') : x]). *)
Inductive StringOrArray :=
| OneString (s : string)
| ManyStrings (l : list string).

Definition truthy_soa (x : StringOrArray) : bool :=
  match x with OneString s => truthy s | ManyStrings _ => true end.

Definition joined (x : StringOrArray) : string :=
  match x with OneString s => s | ManyStrings l => join "," l end.

(** [s.toLowerCase()] and [s.replace(/\s+/g, '-')], on ASCII text: the
    letters beyond ASCII, which [toLowerCase] folds as well, are left
    as they are. *)
Definition lower (c : ascii) : ascii :=
  let n := N_of_ascii c in
  if ((65 <=? n) && (n <=? 90))%N then ascii_of_N (n + 32) else c.

Fixpoint toLowerCase (s : string) : string :=
  match s with
  | EmptyString => EmptyString
  | String c s' => String (lower c) (toLowerCase s')
  end.

Definition is_space (c : ascii) : bool :=
  let n := N_of_ascii c in
  (((9 <=? n) && (n <=? 13)) || (n =? 32))%N.

Fixpoint dashes (in_run : bool) (s : string) : string :=
  match s with
  | EmptyString => EmptyString
  | String c s' =>
      if is_space c then
        if in_run then dashes true s' else String "-"%char (dashes true s')
      else String c (dashes false s')
  end.

(** [s.includes(sub)] *)
Fixpoint includes (s sub : string) : bool :=
  if String.prefix sub s then true
  else
    match s with
    | EmptyString => false
    | String _ s' => includes s' sub
    end.

(** ** Objects used as tables

    An object literal that the code indexes by name is the finite map
    of its own properties.  A name that every object inherits from
    [Object.prototype] is found by such an index although the table
    does not hold it: the properties that range over the names of a
    table take them among the names that are [own_name]. *)
Definition Object_prototype : list string :=
  ["constructor"; "hasOwnProperty"; "isPrototypeOf"; "propertyIsEnumerable";
   "toLocaleString"; "toString"; "valueOf"; "__proto__";
   "__defineGetter__"; "__defineSetter__"; "__lookupGetter__";
   "__lookupSetter__"].

Definition own_name (k : string) : bool :=
  bool_decide (k ∉ Object_prototype).

(** ** URLSearchParams: an ordered list of name and value pairs *)

Module URLSearchParams.

Definition t := list (string * string).

Fixpoint get (ps : t) (k : string) : option string :=
  match ps with
  | [] => None
  | (k', v) :: ps' => if decide (k' = k) then Some v else get ps' k
  end.

Definition remove (ps : t) (k : string) : t :=
  filter (λ kv, kv.1 ≠ k) ps.

(** [set]: the first pair named [k] takes the value and the other pairs
    named [k] go; without such a pair, a new one is appended. *)
Fixpoint set (ps : t) (k v : string) : t :=
  match ps with
  | [] => [(k, v)]
  | (k', v') :: ps' =>
      if decide (k' = k) then (k, v) :: remove ps' k
      else (k', v') :: set ps' k v
  end.

(** The application/x-www-form-urlencoded serializer of [toString]:
    letters, digits and [*-._] stay, a space becomes [+], any other byte
    is percent-encoded in upper-case hexadecimal. *)
Definition hexDigit (n : N) : ascii :=
  if (n <? 10)%N then ascii_of_N (48 + n) else ascii_of_N (55 + n).

Definition unreserved (c : ascii) : bool :=
  let n := N_of_ascii c in
  ((48 <=? n) && (n <=? 57) || (65 <=? n) && (n <=? 90)
   || (97 <=? n) && (n <=? 122)
   || (n =? 42) || (n =? 45) || (n =? 46) || (n =? 95))%N.

Fixpoint encode (s : string) : string :=
  match s with
  | EmptyString => EmptyString
  | String c s' =>
      let n := N_of_ascii c in
      if (n =? 32)%N then String "+"%char (encode s')
      else if unreserved c then String c (encode s')
      else String "%"%char
             (String (hexDigit (n / 16)) (String (hexDigit (n mod 16))
                (encode s')))
  end.

Definition pair_toString (kv : string * string) : string :=
  encode kv.1 +:+ "=" +:+ encode kv.2.

Definition toString (ps : t) : string := join "&" (pair_toString <$> ps).

(** The decoder of the receiving end, for one name or value. *)
Definition hexValue (c : ascii) : option N :=
  let n := N_of_ascii c in
  if ((48 <=? n) && (n <=? 57))%N then Some (n - 48)%N
  else if ((65 <=? n) && (n <=? 70))%N then Some (n - 55)%N
  else if ((97 <=? n) && (n <=? 102))%N then Some (n - 87)%N
  else None.

Fixpoint decode (s : string) : string :=
  match s with
  | EmptyString => EmptyString
  | String c s' =>
      if decide (c = "+"%char) then String " "%char (decode s')
      else if decide (c = "%"%char) then
        match s' with
        | String h (String l s'') =>
            match hexValue h, hexValue l with
            | Some x, Some y =>
                String (ascii_of_N (16 * x + y)) (decode s'')
            | _, _ => String c (decode s')
            end
        | _ => String c (decode s')
        end
      else String c (decode s')
  end.

End URLSearchParams.

(** A [fetch] call: the address up to the question mark and the query. *)
Record Request := mkRequest {
  endpoint : string;
  query : URLSearchParams.t
}.

(** ** The page

    What the modules share of the browser page: the console, the requests
    issued so far with [fetch], and the counters that name new interval
    timers and new Leaflet objects. *)

Definition LayerId := nat.
Definition TimerId := positive.

Inductive Level := LogWarn | LogError.

Record Page := mkPage {
  console : list (Level * string);
  requests : list Request;
  next_timer : TimerId;
  next_stamp : LayerId
}.

Definition log (lv : Level) (msg : string) (p : Page) : Page :=
  mkPage (console p ++ [(lv, msg)]) (requests p) (next_timer p) (next_stamp p).

(** [fetch(url)]: the request goes out; its position in the list of
    requests names it from then on. *)
Definition fetch (r : Request) (p : Page) : nat * Page :=
  (length (requests p),
   mkPage (console p) (requests p ++ [r]) (next_timer p) (next_stamp p)).

(** The handle of a new interval timer: never zero. *)
Definition new_timer (p : Page) : TimerId * Page :=
  (next_timer p,
   mkPage (console p) (requests p) (Pos.succ (next_timer p)) (next_stamp p)).

(** A new Leaflet object and its stamp. *)
Definition stamp (p : Page) : LayerId * Page :=
  (next_stamp p,
   mkPage (console p) (requests p) (next_timer p) (S (next_stamp p))).

(** Viewport bounds, [L.LatLngBounds]. *)
Record Bounds := mkBounds {
  getWest : float;
  getSouth : float;
  getEast : float;
  getNorth : float
}.

(** [JSON.stringify] of a number, and of the envelope that the ArcGIS
    queries send as [geometry]. *)
Definition JSON_number `{Engine} (x : float) : string :=
  if (is_nan x || is_infinity x)%bool then "null" else Number_toString x.

Definition key (k : string) : string := quote +:+ k +:+ quote +:+ ":".

Definition geometryJSON `{Engine} (b : Bounds) : string :=
  "{" +:+ key "xmin" +:+ JSON_number (getWest b) +:+ ","
      +:+ key "ymin" +:+ JSON_number (getSouth b) +:+ ","
      +:+ key "xmax" +:+ JSON_number (getEast b) +:+ ","
      +:+ key "ymax" +:+ JSON_number (getNorth b) +:+ ","
      +:+ key "spatialReference" +:+ "{" +:+ key "wkid" +:+ "4326}}".

(** Truthiness of a number: zero and [NaN] are falsy. *)
Definition truthy_number (x : float) : bool :=
  negb (is_zero x || is_nan x).

(** [x !== false] *)
Definition not_false (x : option bool) : bool := default true x.

(** [x || d] for a number of milliseconds. *)
Definition interval_or (d : N) (x : option N) : N :=
  match x with
  | Some n => if (n =? 0)%N then d else n
  | None => d
  end.

(** How a [fetch] settles.  The promise rejects (transport failure), or it
    resolves to a response with its [ok] flag and [status]; [json] is the
    parsed body, [None] when [response.json()] rejects. *)
Inductive Settled (D : Type) :=
| Rejected
| Response (ok : bool) (status : nat) (json : option D).

Arguments Rejected {D}.
Arguments Response {D} ok status json.

(** The body of a response that the module accepts: [response.ok] holds
    and the body parses. *)
Definition accepted {D : Type} (o : Settled D) : option D :=
  match o with
  | Response true _ (Some d) => Some d
  | _ => None
  end.

(** ** lib/map-core.js: the map host *)

Module IndigenousAccessMaps.

(** The Leaflet map: the overlay layers added to it, in the order they
    were added, and the bounds of the view. *)
Record LMap := mkLMap {
  map_layers : list LayerId;
  getBounds : Bounds
}.

(** [map.addLayer]: nothing to do for a layer that is on the map. *)
Definition map_addLayer (l : LayerId) (m : LMap) : LMap :=
  if decide (l ∈ map_layers m) then m
  else mkLMap (map_layers m ++ [l]) (getBounds m).

Definition map_removeLayer (l : LayerId) (m : LMap) : LMap :=
  mkLMap (filter (λ x, x ≠ l) (map_layers m)) (getBounds m).

(** The layers control: its overlay entries, layer and display name.
    [addOverlay] appends an entry; [removeLayer] drops the first entry
    of that layer. *)
Definition Control := list (LayerId * string).

Definition control_addOverlay (l : LayerId) (name : string) (c : Control)
  : Control := c ++ [(l, name)].

Fixpoint control_removeLayer (l : LayerId) (c : Control) : Control :=
  match c with
  | [] => []
  | e :: c' => if decide (e.1 = l) then c' else e :: control_removeLayer l c'
  end.

(** The private state of the module. *)
Record State := mkState {
  _map : option LMap;
  _overlayLayers : gmap string LayerId;
  _layerControl : option Control
}.

Definition initial : State := mkState None ∅ None.

(** [initMap], as far as overlays go: the map is created, and unless
    [options.controls] is ['none'] so is the layers control, over the
    overlays registered so far.  The control lists them in the order
    of their registration; the entries are given here in the order of
    the finite map, and nothing below depends on the order of the
    entries that [initMap] makes. *)
Definition initMap (view : Bounds) (controls : option string) (st : State)
  : State :=
  mkState (Some (mkLMap [] view)) (_overlayLayers st)
    (if decide (controls = Some "none") then _layerControl st
     else Some ((λ kv, (kv.2, kv.1)) <$> map_to_list (_overlayLayers st))).

Definition getMap (st : State) : option LMap := _map st.

(** [addOverlayLayer(name, layer, visible)]: with no map, showing the
    layer throws, after the registration.  The name [__proto__] is no
    name of the registry: assigning it replaces the prototype of the
    object and makes no entry, which is not followed here; what is said
    of a registration below is said of the other names. *)
Definition addOverlayLayer (name : string) (layer : LayerId) (visible : bool)
    (st : State) : Completion State :=
  let st1 :=
    mkState (_map st) (<[name := layer]> (_overlayLayers st))
      (control_addOverlay layer name <$> _layerControl st) in
  if visible then
    match _map st1 with
    | Some m =>
        Returns (mkState (Some (map_addLayer layer m)) (_overlayLayers st1)
                   (_layerControl st1))
    | None => Throws st1
    end
  else Returns st1.

(** [removeOverlayLayer(name)]: with no map, removing a registered layer
    throws, before anything is changed.  For a name that is not
    registered, [_overlayLayers[name]] is [undefined] and nothing
    happens, unless the name is one that the registry inherits: the
    inherited value is then taken for a layer.  The map has no such
    layer to remove and the layers control throws on it, since it is no
    Leaflet object; when the inherited value is [Object.prototype]
    itself, the map marks it with a stamp, and what that does to Leaflet
    is not followed here. *)
Definition removeOverlayLayer (name : string) (st : State)
  : Completion State :=
  match _overlayLayers st !! name with
  | Some layer =>
      match _map st with
      | Some m =>
          Returns (mkState (Some (map_removeLayer layer m))
                     (delete name (_overlayLayers st))
                     (control_removeLayer layer <$> _layerControl st))
      | None => Throws st
      end
  | None =>
      if own_name name then Returns st
      else
        match _map st, _layerControl st with
        | Some _, None => Returns st
        | _, _ => Throws st
        end
  end.

(** *** Regions and the camera *)

Record Region := mkRegion {
  center : float * float;
  zoom : N;
  region_name : string
}.

Definition REGIONS : gmap string Region :=
  list_to_map
    [("pnw", mkRegion (47.0, -120.5)%float 6 "Pacific Northwest");
     ("wa", mkRegion (47.4, -120.5)%float 7 "Washington");
     ("or", mkRegion (43.8, -120.5)%float 7 "Oregon");
     ("id", mkRegion (44.4, -114.7)%float 7 "Idaho");
     ("mt", mkRegion (46.9, -110.4)%float 7 "Montana");
     ("ak", mkRegion (64.2, -152.5)%float 4 "Alaska")].

(** Where the map looks: [center] and [zoom]. *)
Record Camera := mkCamera {
  cam_center : float * float;
  cam_zoom : N
}.

(** [DEFAULT_CONFIG], as far as the camera goes. *)
Definition DEFAULT_CONFIG : Camera := mkCamera (47.5, -120.5)%float 7.

(** The keys of the options of [initMap] that set the camera. *)
Record InitOptions := mkInitOptions {
  o_center : option (float * float);
  o_zoom : option N
}.

(** [parseUrlParams]: of the query of the page, the first value of each
    of the seven keys that are there. *)
Definition parseUrlParams (search : URLSearchParams.t) : gmap string string :=
  foldl
    (λ params k,
       match URLSearchParams.get search k with
       | Some v => <[k := v]> params
       | None => params
       end)
    ∅ ["region"; "tribe"; "layers"; "controls"; "lat"; "lon"; "zoom"].

(** The variables [_currentRegion] and [_map], the latter by its camera,
    and the warnings that [focusRegion] has logged. *)
Record Nav := mkNav {
  _currentRegion : string;
  camera : option Camera;
  warnings : list string
}.

Definition initialNav : Nav := mkNav "pnw" None [].

(** [initMap], as far as the camera goes: the configuration is the
    default overlaid with the options; a [region] parameter that names a
    region, as it is written, sets the camera and the current region. *)
Definition initCamera (options : InitOptions) (search : URLSearchParams.t)
    (nav : Nav) : Nav :=
  let config :=
    mkCamera (default (cam_center DEFAULT_CONFIG) (o_center options))
      (default (cam_zoom DEFAULT_CONFIG) (o_zoom options)) in
  match parseUrlParams search !! "region" with
  | Some r =>
      if truthy r then
        match REGIONS !! r with
        | Some region =>
            mkNav r (Some (mkCamera (center region) (zoom region)))
              (warnings nav)
        | None => mkNav (_currentRegion nav) (Some config) (warnings nav)
        end
      else mkNav (_currentRegion nav) (Some config) (warnings nav)
  | None => mkNav (_currentRegion nav) (Some config) (warnings nav)
  end.

(** [focusRegion(regionCode, options)]: an unknown code is logged and
    nothing else happens; a known one becomes the current region, and
    then the map flies or jumps there, which throws when there is no
    map. *)
Definition focusRegion (regionCode : string) (nav : Nav) : Completion Nav :=
  match REGIONS !! toLowerCase regionCode with
  | None =>
      Returns
        (mkNav (_currentRegion nav) (camera nav)
           (warnings nav ++ ["Unknown region: " +:+ regionCode]))
  | Some region =>
      let nav1 :=
        mkNav (toLowerCase regionCode) (camera nav) (warnings nav) in
      match camera nav with
      | Some _ =>
          Returns
            (mkNav (toLowerCase regionCode)
               (Some (mkCamera (center region) (zoom region)))
               (warnings nav))
      | None => Throws nav1
      end
  end.

Definition getCurrentRegion (nav : Nav) : string := _currentRegion nav.

(** What the page does to the camera: it initialises the map, or asks for
    a region. *)
Inductive NavEvent :=
| InitCamera (options : InitOptions) (search : URLSearchParams.t)
| FocusRegion (regionCode : string).

Definition navStep (nav : Nav) (e : NavEvent) : Nav :=
  match e with
  | InitCamera options search => initCamera options search nav
  | FocusRegion regionCode => state_of (focusRegion regionCode nav)
  end.

Definition navRun (nav : Nav) (es : list NavEvent) : Nav := foldl navStep nav es.

(** The region code that the event brings is none of the inherited
    names. *)
Definition own_code (e : NavEvent) : bool :=
  match e with
  | InitCamera _ search =>
      match URLSearchParams.get search "region" with
      | Some r => own_name r
      | None => true
      end
  | FocusRegion regionCode => own_name (toLowerCase regionCode)
  end.

End IndigenousAccessMaps.

(** ** lib/map-core.js, second module: the weather hazard adapter *)

Module IAHazardLayers.

Definition NWS_API : string := "https://api.weather.gov".

(** The geometry of a GeoJSON feature, by its type; the coordinates are
    not read here. *)
Inductive Geometry :=
| Point | MultiPoint | LineString | MultiLineString
| Polygon | MultiPolygon | GeometryCollection.

(** A feature of the NWS collection, with its geometry, which is [null]
    for an alert that is issued for forecast zones, and the properties
    the module reads. *)
Record Alert := mkAlert {
  id : string;
  geometry : option Geometry;
  expires : option string;
  severity : option string;
  event : option string
}.

(** The options of [addToMap], [refresh] and [fetchAlerts]; [None] is a
    key that the caller left out. *)
Record Options := mkOptions {
  area : option StringOrArray;
  o_severity : option StringOrArray;
  urgency : option string;
  o_event : option string;
  visible : option bool;
  autoRefresh : option bool;
  refreshInterval : option N
}.

(** What runs when a pending [fetch] settles. *)
Inductive Continuation :=
| AwaitAddToMap (options alertOptions : Options)
| AwaitTick
| AwaitRefresh.

(** The module variables [_layer], [_data] and [_refreshInterval],
    together with the page, the host, what each GeoJSON layer made here
    holds, the armed interval timers with the period and the options
    their callback closes over, and the pending continuations by
    request. *)
Record World := mkWorld {
  page : Page;
  host : IndigenousAccessMaps.State;
  _layer : option LayerId;
  _data : option (list Alert);
  _refreshInterval : option TimerId;
  layers : gmap LayerId (list Alert);
  timers : gmap TimerId (N * Options);
  pending : gmap nat Continuation
}.

Definition initial : World :=
  mkWorld (mkPage [] [] 1%positive 0) IndigenousAccessMaps.initial
    None None None ∅ ∅ ∅.

Definition with_page (f : Page → Page) (w : World) : World :=
  mkWorld (f (page w)) (host w) (_layer w) (_data w) (_refreshInterval w)
    (layers w) (timers w) (pending w).
Definition set_host (h : IndigenousAccessMaps.State) (w : World) : World :=
  mkWorld (page w) h (_layer w) (_data w) (_refreshInterval w)
    (layers w) (timers w) (pending w).
Definition set_layer (l : option LayerId) (w : World) : World :=
  mkWorld (page w) (host w) l (_data w) (_refreshInterval w)
    (layers w) (timers w) (pending w).
Definition set_data (d : option (list Alert)) (w : World) : World :=
  mkWorld (page w) (host w) (_layer w) d (_refreshInterval w)
    (layers w) (timers w) (pending w).
Definition set_refreshInterval (t : option TimerId) (w : World) : World :=
  mkWorld (page w) (host w) (_layer w) (_data w) t
    (layers w) (timers w) (pending w).
Definition with_layers
    (f : gmap LayerId (list Alert) → gmap LayerId (list Alert)) (w : World)
  : World :=
  mkWorld (page w) (host w) (_layer w) (_data w) (_refreshInterval w)
    (f (layers w)) (timers w) (pending w).
Definition with_timers
    (f : gmap TimerId (N * Options) → gmap TimerId (N * Options))
    (w : World) : World :=
  mkWorld (page w) (host w) (_layer w) (_data w) (_refreshInterval w)
    (layers w) (f (timers w)) (pending w).
Definition with_pending
    (f : gmap nat Continuation → gmap nat Continuation) (w : World)
  : World :=
  mkWorld (page w) (host w) (_layer w) (_data w) (_refreshInterval w)
    (layers w) (timers w) (f (pending w)).

(** The query of [fetchAlerts]. *)
Definition add_param (k : string) (v : option string)
    (ps : URLSearchParams.t) : URLSearchParams.t :=
  match v with
  | Some x => if truthy x then URLSearchParams.set ps k x else ps
  | None => ps
  end.

Definition add_param_soa (k : string) (v : option StringOrArray)
    (ps : URLSearchParams.t) : URLSearchParams.t :=
  match v with
  | Some x =>
      if truthy_soa x then URLSearchParams.set ps k (joined x) else ps
  | None => ps
  end.

Definition alertRequest (options : Options) : Request :=
  mkRequest (NWS_API +:+ "/alerts/active")
    (add_param "event" (o_event options)
       (add_param "urgency" (urgency options)
          (add_param_soa "severity" (o_severity options)
             (add_param_soa "area" (area options) [])))).

(** [fetchAlerts] up to its [await]: the request goes out and [k] waits
    for it. *)
Definition fetchAlerts (options : Options) (k : Continuation) (w : World)
  : World :=
  let '(i, p) := fetch (alertRequest options) (page w) in
  with_pending (insert i k) (with_page (λ _, p) w).

(** [fetchAlerts] from its [await] on: the body is kept in [_data] and
    returned, or the failure is logged and thrown again. *)
Definition fetchAlerts_settled (o : Settled (list Alert)) (w : World)
  : option (list Alert) * World :=
  match accepted o with
  | Some d => (Some d, set_data (Some d) w)
  | None => (None, with_page (log LogError "NWS API error:") w)
  end.

Section Layer.

Context `{Engine}.

(** The [filter] option of the layer: is the alert still in force at
    [now], the value of [new Date()]. *)
Definition filter (now : Z) (feature : Alert) : bool :=
  match expires feature with
  | Some e =>
      if truthy e then
        match Date_parse e with
        | Some t => bool_decide (now < t)%Z
        | None => false
        end
      else true
  | None => true
  end.

(** What the GeoJSON layer of Leaflet takes from a collection: it
    passes over a feature whose [geometry] is [null], and of the others
    it takes those that the [filter] option accepts. *)
Definition drawn (now : Z) (data : list Alert) : list Alert :=
  List.filter
    (λ feature, bool_decide (is_Some (geometry feature)) && filter now feature)
    data.

(** The GeoJSON layer of Leaflet, as far as the module uses it:
    [addData] adds what the layer takes from the collection, and
    [clearLayers] empties the layer. *)
Definition addData (now : Z) (l : LayerId) (data : list Alert)
    (w : World) : World :=
  with_layers (λ m, <[l := default [] (m !! l) ++ drawn now data]> m) w.

Definition clearLayers (l : LayerId) (w : World) : World :=
  with_layers (insert l []) w.

(** [createLayer(data)]: a new layer, filled with [data]. *)
Definition createLayer (now : Z) (data : list Alert) (w : World)
  : LayerId * World :=
  let '(l, p) := stamp (page w) in
  (l, addData now l data (clearLayers l (with_page (λ _, p) w))).

Definition stopAutoRefresh (w : World) : World :=
  match _refreshInterval w with
  | Some t => set_refreshInterval None (with_timers (delete t) w)
  | None => w
  end.

Definition startAutoRefresh (interval : N) (options : Options)
    (w : World) : World :=
  let w1 := stopAutoRefresh w in
  let '(t, p) := new_timer (page w1) in
  set_refreshInterval (Some t)
    (with_timers (insert t (interval, options))
       (with_page (λ _, p) w1)).

(** The callback of the interval timer, up to its [await]. *)
Definition tick (options : Options) (w : World) : World :=
  fetchAlerts options AwaitTick w.

(** The callback of the interval timer, from its [await] on. *)
Definition tick_settled (now : Z) (o : Settled (list Alert)) (w : World)
  : World :=
  match fetchAlerts_settled o w with
  | (Some data, w1) =>
      match _layer w1 with
      | Some l => addData now l data (clearLayers l w1)
      | None => w1
      end
  | (None, w1) => with_page (log LogWarn "Alert refresh failed:") w1
  end.

Definition defaultArea : StringOrArray :=
  ManyStrings ["WA"; "OR"; "ID"; "MT"].

(** [{ area: options.area || [...], ...options }] *)
Definition withDefaultArea (options : Options) : Options :=
  mkOptions
    (match area options with
     | Some a => Some a
     | None => Some defaultArea
     end)
    (o_severity options) (urgency options) (o_event options)
    (visible options) (autoRefresh options) (refreshInterval options).

(** [addToMap] up to its [await]. *)
Definition addToMap (options : Options) (w : World) : World :=
  match IndigenousAccessMaps.getMap (host w) with
  | None => w
  | Some _ =>
      let alertOptions := withDefaultArea options in
      fetchAlerts alertOptions (AwaitAddToMap options alertOptions) w
  end.

Definition showError (message : string) (w : World) : World :=
  with_page (log LogError ("IndigenousAccessMaps: " +:+ message)) w.

(** [addToMap] from its [await] on. *)
Definition addToMap_settled (options alertOptions : Options) (now : Z)
    (o : Settled (list Alert)) (w : World) : World :=
  match fetchAlerts_settled o w with
  | (Some data, w1) =>
      let '(l, w2) := createLayer now data w1 in
      let w3 := set_layer (Some l) w2 in
      match IndigenousAccessMaps.addOverlayLayer "Weather Alerts" l
              (not_false (visible options)) (host w3) with
      | Returns h =>
          let w4 := set_host h w3 in
          if not_false (autoRefresh options) then
            startAutoRefresh
              (interval_or 300000 (refreshInterval options))
              alertOptions w4
          else w4
      | Throws h =>
          showError "Failed to load weather alerts" (set_host h w3)
      end
  | (None, w1) => showError "Failed to load weather alerts" w1
  end.

(** [refresh] up to its [await], and from it on: with the layer gone
    in between, [clearLayers] throws and the failure is logged. *)
Definition refresh (options : Options) (w : World) : World :=
  match _layer w with
  | None => w
  | Some _ => fetchAlerts (withDefaultArea options) AwaitRefresh w
  end.

Definition refresh_settled (now : Z) (o : Settled (list Alert))
    (w : World) : World :=
  match fetchAlerts_settled o w with
  | (Some data, w1) =>
      match _layer w1 with
      | Some l => addData now l data (clearLayers l w1)
      | None => with_page (log LogError "Alert refresh failed:") w1
      end
  | (None, w1) => with_page (log LogError "Alert refresh failed:") w1
  end.

Definition removeFromMap (w : World) : Completion World :=
  let w1 := stopAutoRefresh w in
  match _layer w1 with
  | Some _ =>
      match IndigenousAccessMaps.removeOverlayLayer "Weather Alerts"
              (host w1) with
      | Returns h => Returns (set_data None (set_layer None (set_host h w1)))
      | Throws h => Throws (set_host h w1)
      end
  | None => Returns (set_data None w1)
  end.

(** *** The event loop

    What can happen to the module: the page calls its interface, an
    armed interval timer fires, or a pending [fetch] settles at time
    [now]. *)
Inductive Event :=
| InitMap (view : Bounds) (controls : option string)
| AddToMap (options : Options)
| RemoveFromMap
| Refresh (options : Options)
| StartAutoRefresh (interval : N) (options : Options)
| StopAutoRefresh
| Fire (t : TimerId)
| Settle (i : nat) (o : Settled (list Alert)) (now : Z).

Definition settle (i : nat) (o : Settled (list Alert)) (now : Z)
    (w : World) : World :=
  match pending w !! i with
  | Some k =>
      let w1 := with_pending (delete i) w in
      match k with
      | AwaitAddToMap options alertOptions =>
          addToMap_settled options alertOptions now o w1
      | AwaitTick => tick_settled now o w1
      | AwaitRefresh => refresh_settled now o w1
      end
  | None => w
  end.

Definition step (w : World) (e : Event) : World :=
  match e with
  | InitMap view controls =>
      set_host (IndigenousAccessMaps.initMap view controls (host w)) w
  | AddToMap options => addToMap options w
  | RemoveFromMap => state_of (removeFromMap w)
  | Refresh options => refresh options w
  | StartAutoRefresh interval options =>
      startAutoRefresh interval options w
  | StopAutoRefresh => stopAutoRefresh w
  | Fire t =>
      match timers w !! t with
      | Some (_, options) => tick options w
      | None => w
      end
  | Settle i o now => settle i o now w
  end.

Definition run (w : World) (es : list Event) : World := foldl step w es.

(** What the displayed layer holds. *)
Definition displayed (w : World) : option (list Alert) :=
  l ← _layer w; layers w !! l.

End Layer.

(** *** Queries over the cached collection *)

(** [f.properties.severity || 'Unknown'] *)
Definition severityOf (f : Alert) : string :=
  match severity f with
  | Some s => if truthy s then s else "Unknown"
  | None => "Unknown"
  end.

(** The object that [getAlertCounts] starts from.  A count is a natural
    number. *)
Definition noCounts : gmap string N :=
  <["Extreme" := 0%N]> (<["Severe" := 0%N]> (<["Moderate" := 0%N]>
    (<["Minor" := 0%N]> (<["Unknown" := 0%N]> (<["total" := 0%N]> ∅))))).

(** The body of the loop of [getAlertCounts]:
    [counts[severity] = (counts[severity] || 0) + 1; counts.total++]. *)
Definition countAlert (counts : gmap string N) (f : Alert) : gmap string N :=
  let counts1 :=
    <[severityOf f := (default 0 (counts !! severityOf f) + 1)%N]> counts in
  <["total" := (default 0 (counts1 !! "total") + 1)%N]> counts1.

Definition getAlertCounts (w : World) : gmap string N :=
  match _data w with
  | Some fs => foldl countAlert noCounts fs
  | None => noCounts
  end.

(** [counts.Extreme > 0 || counts.Severe > 0] *)
Definition hasHighSeverityAlerts (w : World) : bool :=
  (0 <? default 0 (getAlertCounts w !! "Extreme"))%N
  || (0 <? default 0 (getAlertCounts w !! "Severe"))%N.

(** [getAlertsBySeverity(severity)] *)
Definition getAlertsBySeverity (sev : string) (w : World) : list Alert :=
  match _data w with
  | Some fs => List.filter (λ f, bool_decide (severity f = Some sev)) fs
  | None => []
  end.

(** [getAlertsByEvent(eventType)]: the callback reads
    [f.properties.event.toLowerCase()], which throws on a feature
    without [event]. *)
Definition eventMatches (eventType : string) (f : Alert) : option bool :=
  match event f with
  | Some e => Some (includes (toLowerCase e) (toLowerCase eventType))
  | None => None
  end.

Fixpoint filterM {A : Type} (p : A → option bool) (l : list A)
  : option (list A) :=
  match l with
  | [] => Some []
  | x :: l' =>
      match p x with
      | Some b =>
          match filterM p l' with
          | Some r => Some (if b then x :: r else r)
          | None => None
          end
      | None => None
      end
  end.

Definition getAlertsByEvent (eventType : string) (w : World)
  : option (list Alert) :=
  match _data w with
  | Some fs => filterM (eventMatches eventType) fs
  | None => Some []
  end.

End IAHazardLayers.

(** ** lib/rivers.js: the USGS payload and its conversion *)

Module IARivers.

(** [PARAMETER_CODES] *)
Definition PARAMETER_CODES_discharge : string := "00060".
Definition PARAMETER_CODES_gageHeight : string := "00065".

(** One entry of [series.values[i].value]. *)
Record Reading := mkReading {
  value : string;
  dateTime : string
}.

(** One element of [data.value.timeSeries], with the fields the module
    reads.  [siteCode] lists [sourceInfo.siteCode[i].value],
    [variableCode] lists [variable.variableCode[i].value] and [values]
    lists [values[i].value]. *)
Record Series := mkSeries {
  siteCode : list string;
  siteName : string;
  latitude : float;
  longitude : float;
  variableCode : list string;
  values : list (list Reading)
}.

(** [data.value] and [data]: either field may be missing. *)
Record UsgsValue := mkUsgsValue { timeSeries : option (list Series) }.
Record UsgsData := mkUsgsData { data_value : option UsgsValue }.

Record GageProperties := mkGageProperties {
  p_siteCode : string;
  p_siteName : string;
  p_dateTime : option string;
  streamflow : option float;
  gageHeight : option float
}.

(** A GeoJSON point feature; [coordinates] is [[lon, lat]]. *)
Record GageFeature := mkGageFeature {
  coordinates : float * float;
  properties : GageProperties
}.

Record FeatureCollection := mkFeatureCollection {
  features : list GageFeature
}.

Definition set_streamflow (x : float) (f : GageFeature) : GageFeature :=
  let p := properties f in
  mkGageFeature (coordinates f)
    (mkGageProperties (p_siteCode p) (p_siteName p) (p_dateTime p)
       (Some x) (gageHeight p)).

Definition set_gageHeight (x : float) (f : GageFeature) : GageFeature :=
  let p := properties f in
  mkGageFeature (coordinates f)
    (mkGageProperties (p_siteCode p) (p_siteName p) (p_dateTime p)
       (streamflow p) (Some x)).

(** The [Map] of the conversion, in insertion order. *)
Definition SiteMap := list (string * GageFeature).

Fixpoint has (m : SiteMap) (k : string) : bool :=
  match m with
  | [] => false
  | (k', _) :: m' => if decide (k' = k) then true else has m' k
  end.

Fixpoint get (m : SiteMap) (k : string) : option GageFeature :=
  match m with
  | [] => None
  | (k', v) :: m' => if decide (k' = k) then Some v else get m' k
  end.

(** [siteMap.set(k, v)] for a key that is not in the map yet: the only
    use the conversion makes of it. *)
Definition set (m : SiteMap) (k : string) (v : GageFeature) : SiteMap :=
  m ++ [(k, v)].

(** The feature stored under [k] is an object: assigning one of its
    properties changes the entry in place. *)
Fixpoint mutate (m : SiteMap) (k : string) (g : GageFeature → GageFeature)
  : SiteMap :=
  match m with
  | [] => []
  | (k', v) :: m' =>
      if decide (k' = k) then (k', g v) :: m' else (k', v) :: mutate m' k g
  end.

(** [values.length > 0 ? values[values.length - 1] : null] *)
Definition latestValue (vals : list Reading) : option Reading := last vals.

Section Convert.

Context `{Engine}.

(** The body of the [forEach] callback.  Every field is read before
    the map is touched, so a missing [siteCode[0]], [variableCode[0]]
    or [values[0]] throws with the map unchanged. *)
Definition convertSeries (siteMap : SiteMap) (series : Series)
  : option SiteMap :=
  match head (siteCode series), head (variableCode series),
        head (values series) with
  | Some code, Some paramCode, Some vals =>
      let latest := latestValue vals in
      let siteMap1 :=
        if has siteMap code then siteMap
        else set siteMap code
               (mkGageFeature (longitude series, latitude series)
                  (mkGageProperties code (siteName series)
                     (dateTime <$> latest) None None)) in
      Some
        match latest with
        | Some r =>
            if decide (paramCode = PARAMETER_CODES_discharge) then
              mutate siteMap1 code (set_streamflow (parseFloat (value r)))
            else if decide (paramCode = PARAMETER_CODES_gageHeight) then
              mutate siteMap1 code (set_gageHeight (parseFloat (value r)))
            else siteMap1
        | None => siteMap1
        end
  | _, _, _ => None
  end.

Definition convertToGeoJSON (data : UsgsData) : option FeatureCollection :=
  match data_value data with
  | None => Some (mkFeatureCollection [])
  | Some v =>
      match timeSeries v with
      | None => Some (mkFeatureCollection [])
      | Some ts =>
          siteMap ← forEach convertSeries ts [];
          Some (mkFeatureCollection (siteMap.*2))
      end
  end.

End Convert.

Definition USGS_API : string := "https://waterservices.usgs.gov/nwis".
Definition NHD_SERVICE : string :=
  "https://hydro.nationalmap.gov/arcgis/rest/services/nhd/MapServer".

(** A flowline of the NHD answer. *)
Record StreamFeature := mkStreamFeature { GNIS_NAME : option string }.

Record GageOptions := mkGageOptions {
  parameters : option string;
  states : option StringOrArray;
  bounds : option Bounds;
  siteType : option string;
  visible : option bool;
  autoRefresh : option bool;
  refreshInterval : option N
}.

Record StreamOptions := mkStreamOptions {
  minStreamOrder : option float;
  s_visible : option bool
}.

Inductive Continuation :=
| AwaitAddGages (options gageOptions : GageOptions)
| AwaitTick
| AwaitAddStreams (options : StreamOptions).

(** The module variables, together with the page, the host, what the
    layers made here hold, the armed interval timers and the pending
    continuations by request. *)
Record World := mkWorld {
  page : Page;
  host : IndigenousAccessMaps.State;
  _gageLayer : option LayerId;
  _streamLayer : option LayerId;
  _gageData : option UsgsData;
  _refreshInterval : option TimerId;
  gageLayers : gmap LayerId (list GageFeature);
  streamLayers : gmap LayerId (list StreamFeature);
  timers : gmap TimerId (N * GageOptions);
  pending : gmap nat Continuation
}.

Definition initial : World :=
  mkWorld (mkPage [] [] 1%positive 0) IndigenousAccessMaps.initial
    None None None None ∅ ∅ ∅ ∅.

Definition with_page (f : Page → Page) (w : World) : World :=
  mkWorld (f (page w)) (host w) (_gageLayer w) (_streamLayer w)
    (_gageData w) (_refreshInterval w) (gageLayers w) (streamLayers w)
    (timers w) (pending w).
Definition set_host (h : IndigenousAccessMaps.State) (w : World) : World :=
  mkWorld (page w) h (_gageLayer w) (_streamLayer w)
    (_gageData w) (_refreshInterval w) (gageLayers w) (streamLayers w)
    (timers w) (pending w).
Definition set_gageLayer (l : option LayerId) (w : World) : World :=
  mkWorld (page w) (host w) l (_streamLayer w)
    (_gageData w) (_refreshInterval w) (gageLayers w) (streamLayers w)
    (timers w) (pending w).
Definition set_streamLayer (l : option LayerId) (w : World) : World :=
  mkWorld (page w) (host w) (_gageLayer w) l
    (_gageData w) (_refreshInterval w) (gageLayers w) (streamLayers w)
    (timers w) (pending w).
Definition set_gageData (d : option UsgsData) (w : World) : World :=
  mkWorld (page w) (host w) (_gageLayer w) (_streamLayer w)
    d (_refreshInterval w) (gageLayers w) (streamLayers w)
    (timers w) (pending w).
Definition set_refreshInterval (t : option TimerId) (w : World) : World :=
  mkWorld (page w) (host w) (_gageLayer w) (_streamLayer w)
    (_gageData w) t (gageLayers w) (streamLayers w)
    (timers w) (pending w).
Definition with_gageLayers
    (f : gmap LayerId (list GageFeature) → gmap LayerId (list GageFeature))
    (w : World) : World :=
  mkWorld (page w) (host w) (_gageLayer w) (_streamLayer w)
    (_gageData w) (_refreshInterval w) (f (gageLayers w)) (streamLayers w)
    (timers w) (pending w).
Definition with_streamLayers
    (f : gmap LayerId (list StreamFeature)
         → gmap LayerId (list StreamFeature))
    (w : World) : World :=
  mkWorld (page w) (host w) (_gageLayer w) (_streamLayer w)
    (_gageData w) (_refreshInterval w) (gageLayers w) (f (streamLayers w))
    (timers w) (pending w).
Definition with_timers
    (f : gmap TimerId (N * GageOptions) → gmap TimerId (N * GageOptions))
    (w : World) : World :=
  mkWorld (page w) (host w) (_gageLayer w) (_streamLayer w)
    (_gageData w) (_refreshInterval w) (gageLayers w) (streamLayers w)
    (f (timers w)) (pending w).
Definition with_pending
    (f : gmap nat Continuation → gmap nat Continuation) (w : World)
  : World :=
  mkWorld (page w) (host w) (_gageLayer w) (_streamLayer w)
    (_gageData w) (_refreshInterval w) (gageLayers w) (streamLayers w)
    (timers w) (f (pending w)).

Section Adapter.

Context `{Engine}.

Definition or_string (d : string) (x : option string) : string :=
  match x with
  | Some s => if truthy s then s else d
  | None => d
  end.

(** The query of [fetchGageData]. *)
Definition gageRequest (options : GageOptions) : Request :=
  let ps0 : URLSearchParams.t :=
    [("format", "json");
     ("parameterCd",
      or_string (PARAMETER_CODES_discharge +:+ ","
                   +:+ PARAMETER_CODES_gageHeight)
        (parameters options));
     ("siteStatus", "active")] in
  let ps1 :=
    match states options with
    | Some x =>
        if truthy_soa x then URLSearchParams.set ps0 "stateCd" (joined x)
        else ps0
    | None => ps0
    end in
  let ps2 :=
    match bounds options with
    | Some b =>
        URLSearchParams.set ps1 "bBox"
          (Number_toString (getWest b) +:+ ","
             +:+ Number_toString (getSouth b) +:+ ","
             +:+ Number_toString (getEast b) +:+ ","
             +:+ Number_toString (getNorth b))
    | None => ps1
    end in
  mkRequest (USGS_API +:+ "/iv/")
    (URLSearchParams.set ps2 "siteType" (or_string "ST" (siteType options))).

(** [fetchGageData] up to its [await], and from it on. *)
Definition fetchGageData (options : GageOptions) (k : Continuation)
    (w : World) : World :=
  let '(i, p) := fetch (gageRequest options) (page w) in
  with_pending (insert i k) (with_page (λ _, p) w).

Definition fetchGageData_settled (o : Settled UsgsData) (w : World)
  : option UsgsData * World :=
  match accepted o with
  | Some d => (Some d, set_gageData (Some d) w)
  | None => (None, with_page (log LogError "USGS API error:") w)
  end.

(** The query of [queryStreamNetwork]. *)
Definition streamRequest (b : Bounds) (options : StreamOptions)
  : Request :=
  let ps0 : URLSearchParams.t :=
    [("geometry", geometryJSON b);
     ("geometryType", "esriGeometryEnvelope");
     ("spatialRel", "esriSpatialRelIntersects");
     ("outFields", "GNIS_NAME,LENGTHKM,FCODE,FTYPE");
     ("returnGeometry", "true");
     ("f", "geojson");
     ("outSR", "4326")] in
  mkRequest (NHD_SERVICE +:+ "/6/query")
    match minStreamOrder options with
    | Some n =>
        if truthy_number n then
          URLSearchParams.set ps0 "where"
            ("StreamOrde >= " +:+ Number_toString n)
        else ps0
    | None => ps0
    end.

(** [queryStreamNetwork] from its [await] on.  The body is returned
    as a promise: when it does not parse, the rejection passes by the
    [catch] of the function and only the caller sees it. *)
Definition queryStreamNetwork_settled (o : Settled (list StreamFeature))
    (w : World) : option (list StreamFeature) * World :=
  match o with
  | Response true _ body => (body, w)
  | _ => (None, with_page (log LogError "NHD query error:") w)
  end.

(** The gage layer has no [filter] option: [addData] adds every
    feature. *)
Definition addData (l : LayerId) (geojson : FeatureCollection)
    (w : World) : World :=
  with_gageLayers
    (λ m, <[l := default [] (m !! l) ++ features geojson]> m) w.

Definition clearLayers (l : LayerId) (w : World) : World :=
  with_gageLayers (insert l []) w.

Definition createGageLayer (geojson : FeatureCollection) (w : World)
  : LayerId * World :=
  let '(l, p) := stamp (page w) in
  (l, addData l geojson (clearLayers l (with_page (λ _, p) w))).

Definition stopAutoRefresh (w : World) : World :=
  match _refreshInterval w with
  | Some t => set_refreshInterval None (with_timers (delete t) w)
  | None => w
  end.

Definition startAutoRefresh (interval : N) (options : GageOptions)
    (w : World) : World :=
  let w1 := stopAutoRefresh w in
  let '(t, p) := new_timer (page w1) in
  set_refreshInterval (Some t)
    (with_timers (insert t (interval, options))
       (with_page (λ _, p) w1)).

(** The callback of the interval timer, up to its [await] and from it
    on.  A payload that [convertToGeoJSON] cannot walk throws inside
    the [try] like a failed fetch. *)
Definition tick (options : GageOptions) (w : World) : World :=
  fetchGageData options AwaitTick w.

Definition tick_settled (o : Settled UsgsData) (w : World) : World :=
  match fetchGageData_settled o w with
  | (Some data, w1) =>
      match convertToGeoJSON data with
      | Some geojson =>
          match _gageLayer w1 with
          | Some l => addData l geojson (clearLayers l w1)
          | None => w1
          end
      | None => with_page (log LogWarn "Gage refresh failed:") w1
      end
  | (None, w1) => with_page (log LogWarn "Gage refresh failed:") w1
  end.

Definition defaultStates : StringOrArray :=
  ManyStrings ["WA"; "OR"; "ID"; "MT"].

(** [{ states: options.states || [...], ...options }] *)
Definition withDefaultStates (options : GageOptions) : GageOptions :=
  mkGageOptions (parameters options)
    (match states options with
     | Some x => Some x
     | None => Some defaultStates
     end)
    (bounds options) (siteType options) (visible options)
    (autoRefresh options) (refreshInterval options).

Definition showError (message : string) (w : World) : World :=
  with_page (log LogError ("IndigenousAccessMaps: " +:+ message)) w.

(** [addGagesToMap] up to its [await], and from it on. *)
Definition addGagesToMap (options : GageOptions) (w : World) : World :=
  match IndigenousAccessMaps.getMap (host w) with
  | None => w
  | Some _ =>
      let gageOptions := withDefaultStates options in
      fetchGageData gageOptions (AwaitAddGages options gageOptions) w
  end.

Definition addGagesToMap_settled (options gageOptions : GageOptions)
    (o : Settled UsgsData) (w : World) : World :=
  match fetchGageData_settled o w with
  | (Some data, w1) =>
      match convertToGeoJSON data with
      | Some geojson =>
          let '(l, w2) := createGageLayer geojson w1 in
          let w3 := set_gageLayer (Some l) w2 in
          match IndigenousAccessMaps.addOverlayLayer "River Gages" l
                  (not_false (visible options)) (host w3) with
          | Returns h =>
              let w4 := set_host h w3 in
              if not_false (autoRefresh options) then
                startAutoRefresh
                  (interval_or 900000 (refreshInterval options))
                  gageOptions w4
              else w4
          | Throws h =>
              showError "Failed to load river gages" (set_host h w3)
          end
      | None => showError "Failed to load river gages" w1
      end
  | (None, w1) => showError "Failed to load river gages" w1
  end.

(** [addStreamNetworkToMap] up to its [await], and from it on. *)
Definition addStreamNetworkToMap (options : StreamOptions) (w : World)
  : World :=
  match IndigenousAccessMaps.getMap (host w) with
  | None => w
  | Some map =>
      let '(i, p) :=
        fetch (streamRequest (IndigenousAccessMaps.getBounds map) options)
          (page w) in
      with_pending (insert i (AwaitAddStreams options))
        (with_page (λ _, p) w)
  end.

Definition addStreamNetworkToMap_settled (options : StreamOptions)
    (o : Settled (list StreamFeature)) (w : World) : World :=
  match queryStreamNetwork_settled o w with
  | (Some data, w1) =>
      let '(l, p) := stamp (page w1) in
      let w2 :=
        set_streamLayer (Some l)
          (with_streamLayers (insert l data) (with_page (λ _, p) w1)) in
      match IndigenousAccessMaps.addOverlayLayer "Streams" l
              (not_false (s_visible options)) (host w2) with
      | Returns h => set_host h w2
      | Throws h =>
          with_page (log LogWarn "Stream network not loaded:")
            (set_host h w2)
      end
  | (None, w1) => with_page (log LogWarn "Stream network not loaded:") w1
  end.

(** [removeFromMap]: an exception of the host leaves the rest of the
    function undone. *)
Definition removeFromMap (w : World) : Completion World :=
  let w1 := stopAutoRefresh w in
  let c1 :=
    match _gageLayer w1 with
    | Some _ =>
        match IndigenousAccessMaps.removeOverlayLayer "River Gages"
                (host w1) with
        | Returns h => Returns (set_gageLayer None (set_host h w1))
        | Throws h => Throws (set_host h w1)
        end
    | None => Returns w1
    end in
  match c1 with
  | Returns w2 =>
      match _streamLayer w2 with
      | Some _ =>
          match IndigenousAccessMaps.removeOverlayLayer "Streams"
                  (host w2) with
          | Returns h =>
              Returns
                (set_gageData None (set_streamLayer None (set_host h w2)))
          | Throws h => Throws (set_host h w2)
          end
      | None => Returns (set_gageData None w2)
      end
  | Throws w2 => Throws w2
  end.

(** *** The event loop

    The page calls the module or the host, an armed interval timer
    fires, or a pending [fetch] settles.  A response answers the
    request it was sent for: a settlement of the other kind is not an
    event of the request. *)
Inductive Event :=
| InitMap (view : Bounds) (controls : option string)
| HostAddOverlay (name : string) (visible : bool)
| HostRemoveOverlay (name : string)
| AddGagesToMap (options : GageOptions)
| AddStreamNetworkToMap (options : StreamOptions)
| RemoveFromMap
| StartAutoRefresh (interval : N) (options : GageOptions)
| StopAutoRefresh
| Fire (t : TimerId)
| SettleGages (i : nat) (o : Settled UsgsData)
| SettleStreams (i : nat) (o : Settled (list StreamFeature)).

Definition settleGages (i : nat) (o : Settled UsgsData) (w : World)
  : World :=
  match pending w !! i with
  | Some (AwaitAddGages options gageOptions) =>
      addGagesToMap_settled options gageOptions o
        (with_pending (delete i) w)
  | Some AwaitTick => tick_settled o (with_pending (delete i) w)
  | _ => w
  end.

Definition settleStreams (i : nat) (o : Settled (list StreamFeature))
    (w : World) : World :=
  match pending w !! i with
  | Some (AwaitAddStreams options) =>
      addStreamNetworkToMap_settled options o (with_pending (delete i) w)
  | _ => w
  end.

(** The page hands the host a layer of its own making. *)
Definition hostAddOverlay (name : string) (visible : bool) (w : World)
  : World :=
  let '(l, p) := stamp (page w) in
  set_host
    (state_of
       (IndigenousAccessMaps.addOverlayLayer name l visible (host w)))
    (with_page (λ _, p) w).

Definition step (w : World) (e : Event) : World :=
  match e with
  | InitMap view controls =>
      set_host (IndigenousAccessMaps.initMap view controls (host w)) w
  | HostAddOverlay name visible => hostAddOverlay name visible w
  | HostRemoveOverlay name =>
      set_host
        (state_of (IndigenousAccessMaps.removeOverlayLayer name (host w)))
        w
  | AddGagesToMap options => addGagesToMap options w
  | AddStreamNetworkToMap options => addStreamNetworkToMap options w
  | RemoveFromMap => state_of (removeFromMap w)
  | StartAutoRefresh interval options =>
      startAutoRefresh interval options w
  | StopAutoRefresh => stopAutoRefresh w
  | Fire t =>
      match timers w !! t with
      | Some (_, options) => tick options w
      | None => w
      end
  | SettleGages i o => settleGages i o w
  | SettleStreams i o => settleStreams i o w
  end.

Definition run (w : World) (es : list Event) : World := foldl step w es.

(** What the displayed gage layer holds. *)
Definition displayed (w : World) : option (list GageFeature) :=
  l ← _gageLayer w; gageLayers w !! l.


End Adapter.

(** *** The gage markers and the lookup by site code *)

(** [determineFloodStatus(properties)] *)
Definition determineFloodStatus (p : GageProperties) : string :=
  match gageHeight p, streamflow p with
  | None, None => "unknown"
  | _, _ => "normal"
  end.

(** [STAGE_COLORS] *)
Definition STAGE_COLORS : gmap string string :=
  list_to_map
    [("major", "#CC00CC"); ("moderate", "#FF0000"); ("minor", "#FF9900");
     ("action", "#FFFF00"); ("normal", "#00CC00"); ("low", "#00CCFF");
     ("unknown", "#808080")].

(** The colour that [createGageIcon] gives the marker. *)
Definition gageColor (p : GageProperties) : option string :=
  STAGE_COLORS !! determineFloodStatus p.

(** [getGageBySiteCode(siteCode)]: the layers of the gage layer are
    walked in the order they were added and the last match is kept. *)
Definition getGageBySiteCode (code : string) (w : World)
  : option GageFeature :=
  match _gageLayer w with
  | None => None
  | Some l =>
      foldl
        (λ found f,
           if decide (p_siteCode (properties f) = code) then Some f
           else found)
        None (default [] (gageLayers w !! l))
  end.

End IARivers.

(** ** The flood zone adapter *)

Module IAFloodZones.

Definition NFHL_SERVICE : string :=
  "https://hazards.fema.gov/gis/nfhl/rest/services/public/NFHL/MapServer".

(** [LAYERS.floodZones] *)
Definition LAYERS_floodZones : N := 28.

Record FloodFeature := mkFloodFeature {
  FLD_ZONE : option string;
  SFHA_TF : option string
}.

Record Options := mkOptions {
  zoneFilter : option (list string);
  layerId : option N;
  visible : option bool;
  dynamicLoad : option bool
}.

(** A pending query belongs to a call of [loadForCurrentView]; the call
    made by [addToMap] goes on with the rest of [addToMap]. *)
Inductive Continuation :=
| AwaitLoad
| AwaitLoadThenAdd (options : Options).

(** The module variables [_layer] and [_currentBounds], together with
    the page, the host, what the layers made here hold, the [moveend]
    handlers that [addToMap] put on the map, each with the options it
    closes over, and the pending continuations by request. *)
Record World := mkWorld {
  page : Page;
  host : IndigenousAccessMaps.State;
  _layer : option LayerId;
  _currentBounds : option Bounds;
  layers : gmap LayerId (list FloodFeature);
  moveend : list Options;
  pending : gmap nat Continuation
}.

Definition initial : World :=
  mkWorld (mkPage [] [] 1%positive 0) IndigenousAccessMaps.initial
    None None ∅ [] ∅.

Definition with_page (f : Page → Page) (w : World) : World :=
  mkWorld (f (page w)) (host w) (_layer w) (_currentBounds w) (layers w)
    (moveend w) (pending w).
Definition set_host (h : IndigenousAccessMaps.State) (w : World) : World :=
  mkWorld (page w) h (_layer w) (_currentBounds w) (layers w)
    (moveend w) (pending w).
Definition set_layer (l : option LayerId) (w : World) : World :=
  mkWorld (page w) (host w) l (_currentBounds w) (layers w)
    (moveend w) (pending w).
Definition set_currentBounds (b : option Bounds) (w : World) : World :=
  mkWorld (page w) (host w) (_layer w) b (layers w)
    (moveend w) (pending w).
Definition with_layers
    (f : gmap LayerId (list FloodFeature) → gmap LayerId (list FloodFeature))
    (w : World) : World :=
  mkWorld (page w) (host w) (_layer w) (_currentBounds w) (f (layers w))
    (moveend w) (pending w).
Definition with_moveend (f : list Options → list Options) (w : World)
  : World :=
  mkWorld (page w) (host w) (_layer w) (_currentBounds w) (layers w)
    (f (moveend w)) (pending w).
Definition with_pending
    (f : gmap nat Continuation → gmap nat Continuation) (w : World)
  : World :=
  mkWorld (page w) (host w) (_layer w) (_currentBounds w) (layers w)
    (moveend w) (f (pending w)).

(** [boundsEqual]: every edge moved by less than the threshold, in
    binary64 arithmetic. *)
Definition threshold : float := 0.01%float.

(** [Math.abs(x - y) < threshold] *)
Definition near (x y : float) : bool :=
  PrimFloat.ltb (PrimFloat.abs (PrimFloat.sub x y)) threshold.

Definition boundsEqual (a b : Bounds) : bool :=
  near (getWest a) (getWest b)
  && near (getSouth a) (getSouth b)
  && near (getEast a) (getEast b)
  && near (getNorth a) (getNorth b).

Section Adapter.

Context `{Engine}.

(** [FLD_ZONE IN (${zoneFilter.map(z => `'${z}'`).join(',')})] *)
Definition whereClause (zones : list string) : string :=
  "FLD_ZONE IN (" +:+ join "," ((λ z, "'" +:+ z +:+ "'") <$> zones)
    +:+ ")".

(** [options.layerId || LAYERS.floodZones] *)
Definition layerId_or (x : option N) : N :=
  match x with
  | Some n => if (n =? 0)%N then LAYERS_floodZones else n
  | None => LAYERS_floodZones
  end.

(** The parameters that [queryFloodZones] starts from. *)
Definition floodParams (b : Bounds) : URLSearchParams.t :=
  [("geometry", geometryJSON b);
   ("geometryType", "esriGeometryEnvelope");
   ("spatialRel", "esriSpatialRelIntersects");
   ("outFields",
    "FLD_ZONE,ZONE_SUBTY,SFHA_TF,STATIC_BFE,DEPTH,VELOCITY,AR_REVERT,AR_SUBTRV,DUAL_ZONE");
   ("returnGeometry", "true");
   ("f", "geojson");
   ("outSR", "4326")].

(** The request of [queryFloodZones]. *)
Definition floodRequest (b : Bounds) (options : Options) : Request :=
  mkRequest
    (NFHL_SERVICE +:+ "/" +:+ pretty (layerId_or (layerId options))
       +:+ "/query")
    match zoneFilter options with
    | Some zones =>
        URLSearchParams.set (floodParams b) "where" (whereClause zones)
    | None => floodParams b
    end.

(** The query string of the address that [queryFloodZones] fetches. *)
Definition queryString (b : Bounds) (options : Options) : string :=
  URLSearchParams.toString (query (floodRequest b options)).

(** [queryFloodZones] from its [await] on.  As for the stream query,
    a body that does not parse passes by the [catch] of the
    function. *)
Definition queryFloodZones_settled (o : Settled (list FloodFeature))
    (w : World) : option (list FloodFeature) * World :=
  match o with
  | Response true _ body => (body, w)
  | _ => (None, with_page (log LogError "Flood zone query error:") w)
  end.

(** The test that opens [loadForCurrentView]: bounds were recorded
    and the view has not left them. *)
Definition unchanged (w : World) (bounds : Bounds) : bool :=
  match _currentBounds w with
  | Some last => boundsEqual last bounds
  | None => false
  end.

(** [loadForCurrentView] up to its [await]: nothing happens without a
    map, or when the view is where the last query left it. *)
Definition loadForCurrentView (options : Options) (k : Continuation)
    (w : World) : World :=
  match IndigenousAccessMaps.getMap (host w) with
  | None => w
  | Some map =>
      let bounds := IndigenousAccessMaps.getBounds map in
      if unchanged w bounds then w
      else
        let w1 := set_currentBounds (Some bounds) w in
        let '(i, p) := fetch (floodRequest bounds options) (page w1) in
        with_pending (insert i k) (with_page (λ _, p) w1)
  end.

Definition showError (message : string) (w : World) : World :=
  with_page (log LogError ("IndigenousAccessMaps: " +:+ message)) w.

(** [loadForCurrentView] from its [await] on: the layer is refilled,
    or made when there is none. *)
Definition loadForCurrentView_settled (o : Settled (list FloodFeature))
    (w : World) : World :=
  match queryFloodZones_settled o w with
  | (Some data, w1) =>
      match _layer w1 with
      | Some l => with_layers (insert l data) w1
      | None =>
          let '(l, p) := stamp (page w1) in
          set_layer (Some l)
            (with_layers (insert l data) (with_page (λ _, p) w1))
      end
  | (None, w1) => showError "Failed to load flood zones" w1
  end.

(** [addToMap] after its load: the overlay is registered when there
    is a layer, and the [moveend] handler is put on the map.  An
    exception of the host ends the function there. *)
Definition addToMap_loaded (options : Options) (w : World) : World :=
  let c :=
    match _layer w with
    | Some l =>
        match IndigenousAccessMaps.addOverlayLayer "FEMA Flood Zones" l
                (not_false (visible options)) (host w) with
        | Returns h => Returns (set_host h w)
        | Throws h => Throws (set_host h w)
        end
    | None => Returns w
    end in
  match c with
  | Returns w1 =>
      if not_false (dynamicLoad options) then
        with_moveend (λ hs, hs ++ [options]) w1
      else w1
  | Throws w1 => w1
  end.

(** [addToMap]: when the load has nothing to wait for, the rest runs
    at once. *)
Definition addToMap (options : Options) (w : World) : World :=
  match IndigenousAccessMaps.getMap (host w) with
  | None => w
  | Some map =>
      if unchanged w (IndigenousAccessMaps.getBounds map) then
        addToMap_loaded options w
      else loadForCurrentView options (AwaitLoadThenAdd options) w
  end.

(** [removeFromMap].  [map.off('moveend', loadForCurrentView)] names
    a function that was never put on the map, so the handlers of
    [addToMap] stay. *)
Definition removeFromMap (w : World) : Completion World :=
  match _layer w with
  | Some _ =>
      match IndigenousAccessMaps.removeOverlayLayer "FEMA Flood Zones"
              (host w) with
      | Returns h =>
          Returns (set_currentBounds None (set_layer None (set_host h w)))
      | Throws h => Throws (set_host h w)
      end
  | None => Returns (set_currentBounds None w)
  end.

(** *** The event loop *)
Inductive Event :=
| InitMap (view : Bounds) (controls : option string)
| MoveEnd (view : Bounds)
| LoadForCurrentView (options : Options)
| AddToMap (options : Options)
| RemoveFromMap
| Settle (i : nat) (o : Settled (list FloodFeature)).

Definition settle (i : nat) (o : Settled (list FloodFeature)) (w : World)
  : World :=
  match pending w !! i with
  | Some AwaitLoad =>
      loadForCurrentView_settled o (with_pending (delete i) w)
  | Some (AwaitLoadThenAdd options) =>
      addToMap_loaded options
        (loadForCurrentView_settled o (with_pending (delete i) w))
  | None => w
  end.

(** The view settles at [view] and the map runs its handlers. *)
Definition moveTo (view : Bounds) (st : IndigenousAccessMaps.State)
  : IndigenousAccessMaps.State :=
  match IndigenousAccessMaps._map st with
  | Some m =>
      IndigenousAccessMaps.mkState
        (Some (IndigenousAccessMaps.mkLMap
                 (IndigenousAccessMaps.map_layers m) view))
        (IndigenousAccessMaps._overlayLayers st)
        (IndigenousAccessMaps._layerControl st)
  | None => st
  end.

Definition step (w : World) (e : Event) : World :=
  match e with
  | InitMap view controls =>
      set_host (IndigenousAccessMaps.initMap view controls (host w)) w
  | MoveEnd view =>
      let w1 := set_host (moveTo view (host w)) w in
      foldl (λ w' options, loadForCurrentView options AwaitLoad w') w1
        (moveend w1)
  | LoadForCurrentView options => loadForCurrentView options AwaitLoad w
  | AddToMap options => addToMap options w
  | RemoveFromMap => state_of (removeFromMap w)
  | Settle i o => settle i o w
  end.

Definition run (w : World) (es : list Event) : World := foldl step w es.

End Adapter.

End IAFloodZones.

(** ** The tribal boundaries adapter *)

Module IATribalBoundaries.

(** [DATA_SOURCES.local], the source that [loadData] reads unless told
    otherwise; the live sources are not part of this development. *)
Definition DATA_SOURCES_local : string :=
  "./data/tribal-boundaries/pnw-tribal-boundaries-simplified.geojson".

(** The three presets of [STYLES].  They set the same five path
    options, so the style of a territory is the preset applied last. *)
Inductive Style := Default | Highlighted | Selected.

#[export] Instance Style_eq_dec : EqDecision Style.
Proof. solve_decision. Defined.

(** [getFeatureStyle(feature, state)] *)
Definition getFeatureStyle (state : string) : Style :=
  if decide (state = "highlighted") then Highlighted
  else if decide (state = "selected") then Selected
  else Default.

(** The properties of a territory that the module reads. *)
Record Properties := mkProperties {
  code : option string;
  NAME : option string;
  name : option string
}.

(** A feature is an object: [ref] is its identity, which is what
    [_selectedFeature !== feature] compares. *)
Record Feature := mkFeature {
  ref : nat;
  properties : Properties
}.

(** A territory drawn by the layer: its feature and its style. *)
Record Territory := mkTerritory {
  feature : Feature;
  style : Style
}.

Definition setStyle (st : Style) (t : Territory) : Territory :=
  mkTerritory (feature t) st.

Record Options := mkOptions { visible : option bool }.

Inductive Continuation :=
| AwaitLoadData
| AwaitLoadDataThenAdd (options : Options).

(** The module variables [_layer], [_data] and [_selectedFeature],
    together with the page, the host, the territories of each layer
    made here and the pending continuations by request.  No click
    handler of the page is registered ([_onFeatureClick] is [null]). *)
Record World := mkWorld {
  page : Page;
  host : IndigenousAccessMaps.State;
  _layer : option LayerId;
  _data : option (list Feature);
  _selectedFeature : option nat;
  layers : gmap LayerId (list Territory);
  pending : gmap nat Continuation
}.

Definition initial : World :=
  mkWorld (mkPage [] [] 1%positive 0) IndigenousAccessMaps.initial
    None None None ∅ ∅.

Definition with_page (f : Page → Page) (w : World) : World :=
  mkWorld (f (page w)) (host w) (_layer w) (_data w) (_selectedFeature w)
    (layers w) (pending w).
Definition set_host (h : IndigenousAccessMaps.State) (w : World) : World :=
  mkWorld (page w) h (_layer w) (_data w) (_selectedFeature w)
    (layers w) (pending w).
Definition set_layer (l : option LayerId) (w : World) : World :=
  mkWorld (page w) (host w) l (_data w) (_selectedFeature w)
    (layers w) (pending w).
Definition set_data (d : option (list Feature)) (w : World) : World :=
  mkWorld (page w) (host w) (_layer w) d (_selectedFeature w)
    (layers w) (pending w).
Definition set_selectedFeature (f : option nat) (w : World) : World :=
  mkWorld (page w) (host w) (_layer w) (_data w) f
    (layers w) (pending w).
Definition with_layers
    (f : gmap LayerId (list Territory) → gmap LayerId (list Territory))
    (w : World) : World :=
  mkWorld (page w) (host w) (_layer w) (_data w) (_selectedFeature w)
    (f (layers w)) (pending w).
Definition with_pending
    (f : gmap nat Continuation → gmap nat Continuation) (w : World)
  : World :=
  mkWorld (page w) (host w) (_layer w) (_data w) (_selectedFeature w)
    (layers w) (f (pending w)).

(** [loadData] from the local file, up to its [await] and from it on.
    The parsed body is a list of property sets; parsing makes the
    feature objects, each with an identity of its own. *)
Definition loadData (k : Continuation) (w : World) : World :=
  let '(i, p) := fetch (mkRequest DATA_SOURCES_local []) (page w) in
  with_pending (insert i k) (with_page (λ _, p) w).

Definition parsed (base : nat) (body : list Properties) : list Feature :=
  imap (λ i ps, mkFeature (base + i) ps) body.

Definition loadData_settled (o : Settled (list Properties)) (w : World)
  : bool * World :=
  match accepted o with
  | Some body =>
      let p := page w in
      (true,
       set_data (Some (parsed (next_stamp p) body))
         (with_page
            (λ _, mkPage (console p) (requests p) (next_timer p)
                    (next_stamp p + length body)) w))
  | None =>
      (false,
       with_page
         (log LogError
            "IndigenousAccessMaps: Failed to load Tribal boundaries") w)
  end.

(** [createLayer]: a new layer over [_data], every territory in the
    default style; it becomes [_layer]. *)
Definition createLayer (w : World) : World :=
  match _data w with
  | None =>
      with_page
        (log LogError
           "No Tribal boundary data loaded. Call loadData() first.") w
  | Some data =>
      let '(l, p) := stamp (page w) in
      set_layer (Some l)
        (with_layers
           (insert l ((λ f, mkTerritory f (getFeatureStyle "default"))
                        <$> data))
           (with_page (λ _, p) w))
  end.

(** [layer.setStyle(s)] on territory [j] of layer [l]. *)
Definition setStyleAt (l : LayerId) (j : nat) (s : Style) (w : World)
  : World :=
  with_layers (alter (alter (setStyle s) j) l) w.

(** [_layer.resetStyle()] without an argument: every territory of the
    layer goes back to the default style. *)
Definition resetStyle (l : LayerId) (w : World) : World :=
  with_layers (alter (fmap (setStyle (getFeatureStyle "default"))) l) w.

(** The territory [j] of layer [l], when there is one. *)
Definition territory (l : LayerId) (j : nat) (w : World)
  : option Territory :=
  ts ← layers w !! l; ts !! j.

(** The handlers that [createLayer] puts on territory [j] of the layer
    [l] it makes. *)
Definition mouseover (l : LayerId) (j : nat) (w : World) : World :=
  match territory l j w with
  | Some t =>
      if decide (_selectedFeature w ≠ Some (ref (feature t))) then
        setStyleAt l j Highlighted w
      else w
  | None => w
  end.

Definition mouseout (l : LayerId) (j : nat) (w : World) : World :=
  match territory l j w with
  | Some t =>
      if decide (_selectedFeature w ≠ Some (ref (feature t))) then
        setStyleAt l j (getFeatureStyle "default") w
      else w
  | None => w
  end.

(** The click handler resets the current [_layer] when another feature
    was selected; with [_layer] gone that call throws. *)
Definition click (l : LayerId) (j : nat) (w : World) : Completion World :=
  match territory l j w with
  | Some t =>
      let select w' :=
        setStyleAt l j Selected
          (set_selectedFeature (Some (ref (feature t))) w') in
      match _selectedFeature w with
      | Some r =>
          if decide (r ≠ ref (feature t)) then
            match _layer w with
            | Some cur => Returns (select (resetStyle cur w))
            | None => Throws w
            end
          else Returns (select w)
      | None => Returns (select w)
      end
  | None => Returns w
  end.

(** [props.code || props.NAME?.toLowerCase().replace(/\s+/g, '-')] *)
Definition codeOf (props : Properties) : option string :=
  match code props with
  | Some c =>
      if truthy c then Some c
      else (λ n, dashes false (toLowerCase n)) <$> NAME props
  | None => (λ n, dashes false (toLowerCase n)) <$> NAME props
  end.

Definition matches (tribeCode : string) (t : Territory) : bool :=
  bool_decide (codeOf (properties (feature t)) = Some (toLowerCase tribeCode)).

(** The body of the [eachLayer] callback of [focusTribe] for a
    territory that matches: it is selected and styled; nothing is
    reset. *)
Definition focusOn (tribeCode : string) (acc : option nat * list Territory)
    (t : Territory) : option nat * list Territory :=
  if matches tribeCode t then
    (Some (ref (feature t)), acc.2 ++ [setStyle Selected t])
  else (acc.1, acc.2 ++ [t]).

(** [focusTribe(tribeCode)]: the answer and the state it leaves.  With
    no map, the first match throws at [map.fitBounds]. *)
Definition focusTribe (tribeCode : string) (w : World)
  : Completion (bool * World) :=
  match _layer w, _data w with
  | Some l, Some _ =>
      let ts := default [] (layers w !! l) in
      if existsb (matches tribeCode) ts then
        match IndigenousAccessMaps.getMap (host w) with
        | Some _ =>
            let '(sel, ts') := foldl (focusOn tribeCode) (None, []) ts in
            Returns
              (true,
               with_layers (insert l ts')
                 (set_selectedFeature
                    (match sel with Some r => Some r
                     | None => _selectedFeature w end) w))
        | None => Throws (false, w)
        end
      else Returns (false, w)
  | _, _ =>
      Returns (false, with_page (log LogWarn "Tribal boundaries not loaded") w)
  end.

Definition clearSelection (w : World) : World :=
  match _selectedFeature w, _layer w with
  | Some _, Some l => set_selectedFeature None (resetStyle l w)
  | _, _ => w
  end.

(** [addToMap] once the data is there. *)
Definition addToMap_loaded (options : Options) (w : World)
  : Completion World :=
  let w1 := match _layer w with Some _ => w | None => createLayer w end in
  match _layer w1 with
  | Some l =>
      match IndigenousAccessMaps.addOverlayLayer "Tribal Boundaries" l
              (not_false (visible options)) (host w1) with
      | Returns h => Returns (set_host h w1)
      | Throws h => Throws (set_host h w1)
      end
  | None => Throws w1
  end.

(** [addToMap]: the data is loaded first when it is missing. *)
Definition addToMap (options : Options) (w : World) : Completion World :=
  match IndigenousAccessMaps.getMap (host w) with
  | None => Returns (with_page (log LogError "Map not initialized") w)
  | Some _ =>
      match _data w with
      | Some _ => addToMap_loaded options w
      | None => Returns (loadData (AwaitLoadDataThenAdd options) w)
      end
  end.

Definition removeFromMap (w : World) : Completion World :=
  match _layer w with
  | Some _ =>
      match IndigenousAccessMaps.removeOverlayLayer "Tribal Boundaries"
              (host w) with
      | Returns h => Returns (set_layer None (set_host h w))
      | Throws h => Throws (set_host h w)
      end
  | None => Returns w
  end.

(** *** The event loop *)
Inductive Event :=
| InitMap (view : Bounds) (controls : option string)
| LoadData
| CreateLayer
| AddToMap (options : Options)
| RemoveFromMap
| MouseOver (l : LayerId) (j : nat)
| MouseOut (l : LayerId) (j : nat)
| Click (l : LayerId) (j : nat)
| FocusTribe (tribeCode : string)
| ClearSelection
| Settle (i : nat) (o : Settled (list Properties)).

Definition settle (i : nat) (o : Settled (list Properties)) (w : World)
  : World :=
  match pending w !! i with
  | Some k =>
      let '(ok, w1) := loadData_settled o (with_pending (delete i) w) in
      match k with
      | AwaitLoadData => w1
      | AwaitLoadDataThenAdd options =>
          if ok then state_of (addToMap_loaded options w1) else w1
      end
  | None => w
  end.

Definition step (w : World) (e : Event) : World :=
  match e with
  | InitMap view controls =>
      set_host (IndigenousAccessMaps.initMap view controls (host w)) w
  | LoadData => loadData AwaitLoadData w
  | CreateLayer => createLayer w
  | AddToMap options => state_of (addToMap options w)
  | RemoveFromMap => state_of (removeFromMap w)
  | MouseOver l j => mouseover l j w
  | MouseOut l j => mouseout l j w
  | Click l j => state_of (click l j w)
  | FocusTribe tribeCode => (state_of (focusTribe tribeCode w)).2
  | ClearSelection => clearSelection w
  | Settle i o => settle i o w
  end.

Definition run (w : World) (es : list Event) : World := foldl step w es.

(** The territories of the current layer that are in the selected
    style. *)
Definition selected (w : World) : list Territory :=
  match _layer w with
  | Some l =>
      List.filter (λ t, bool_decide (style t = Selected))
        (default [] (layers w !! l))
  | None => []
  end.

(** *** Search *)

(** [getAllTribes()] *)
Definition getAllTribes (w : World) : list Feature := default [] (_data w).

(** [feature.properties.name || feature.properties.NAME || ''] *)
Definition nameOf (props : Properties) : string :=
  match name props with
  | Some n =>
      if truthy n then n
      else match NAME props with
           | Some m => if truthy m then m else EmptyString
           | None => EmptyString
           end
  | None =>
      match NAME props with
      | Some m => if truthy m then m else EmptyString
      | None => EmptyString
      end
  end.

(** [searchTribes(query)] *)
Definition searchTribes (query : string) (w : World) : list Feature :=
  match _data w with
  | Some fs =>
      List.filter
        (λ f, includes (toLowerCase (nameOf (properties f)))
                (toLowerCase query))
        fs
  | None => []
  end.

End IATribalBoundaries.

(** * Vocabulary of the properties *)

Module Spec.

Import IARivers.

Section Readings.

Context `{Engine}.

Definition siteOf (s : Series) : option string := head (siteCode s).
Definition paramOf (s : Series) : option string := head (variableCode s).

(** The series has the three arrays that the conversion indexes. *)
Definition walkable (s : Series) : bool :=
  match siteOf s, paramOf s, head (values s) with
  | Some _, Some _, Some _ => true
  | _, _, _ => false
  end.

(** The latest reading of the series, as a number. *)
Definition latestOf (s : Series) : option float :=
  (λ r, parseFloat (value r)) <$> (head (values s) ≫= latestValue).

(** What the series offers for parameter [p] at site [c]. *)
Definition offered (c p : string) (s : Series) : option float :=
  if decide (siteOf s = Some c ∧ paramOf s = Some p) then latestOf s
  else None.

(** The reading of parameter [p] at site [c] that the response
    makes available: the latest value of the last series of that
    site and parameter that has values. *)
Definition reading (c p : string) (ts : list Series) : option float :=
  last (omap (offered c p) ts).

(** The features of the collection that carry site code [c]. *)
Definition carrying (c : string) (fc : FeatureCollection)
  : list GageFeature :=
  List.filter (λ g, bool_decide (p_siteCode (properties g) = c))
    (features fc).

Definition response (ts : list Series) : UsgsData :=
  mkUsgsData (Some (mkUsgsValue (Some ts))).

(** Every feature of the map is stored under its own site code. *)
Definition keyed (m : SiteMap) : Prop :=
  Forall (λ kf, p_siteCode (properties kf.2) = kf.1) m.

(** The map after the series [pre] have been walked: one feature per
    site code met, each with the readings that [pre] makes
    available. *)
Definition merged (m : SiteMap) (pre : list Series) : Prop :=
  NoDup (m.*1) ∧ keyed m
  ∧ (∀ k, get m k = None ↔ ∀ s, s ∈ pre → siteOf s ≠ Some k)
  ∧ (∀ k f, get m k = Some f →
       streamflow (properties f)
         = reading k PARAMETER_CODES_discharge pre
       ∧ gageHeight (properties f)
         = reading k PARAMETER_CODES_gageHeight pre).

(** The site codes of the series, each at its first appearance. *)
Fixpoint firsts (codes : list string) : list string :=
  match codes with
  | [] => []
  | c :: codes' => c :: List.filter (λ x, bool_decide (x ≠ c)) (firsts codes')
  end.

(** The first series of site [c]. *)
Definition firstOf (c : string) (ts : list Series) : option Series :=
  List.find (λ s, bool_decide (siteOf s = Some c)) ts.

(** The feature carries the name, the place and the time of the series. *)
Definition describes (s : Series) (f : GageFeature) : Prop :=
  p_siteName (properties f) = siteName s
  ∧ coordinates f = (longitude s, latitude s)
  ∧ p_dateTime (properties f)
    = dateTime <$> (head (values s) ≫= latestValue).

(** The map after the series [pre]: its keys in order of first
    appearance, each feature described by the first series of its
    site. *)
Definition ordered (m : SiteMap) (pre : list Series) : Prop :=
  m.*1 = firsts (omap siteOf pre)
  ∧ ∀ k f, get m k = Some f → ∃ s, firstOf k pre = Some s ∧ describes s f.

End Readings.

End Spec.

(** The claims about the refresh loops and about registration, as
    propositions over the event loop of the weather adapter. *)

Module Claims.

Import IAHazardLayers.

Section Hazards.

Context `{Engine}.

(** A response that the module accepts, with body [d]. *)
Definition ok (d : list Alert) : Settled (list Alert) :=
  Response true 200 (Some d).


(** The rendering of a fetched collection, as the specification has
    it: of the alerts of the collection, the layer that [createLayer]
    builds at time [now] leaves out those that expired before [now]
    and holds every alert with no [expires] property. *)
Definition renders_unexpired : Prop :=
  ∀ (now : Z) (data : list Alert) (w : World) (a : Alert),
    a ∈ data →
    ∃ rendered,
      layers (createLayer now data w).2 !! (createLayer now data w).1
      = Some rendered
      ∧ (∀ e t, expires a = Some e → Date_parse e = Some t → (t < now)%Z →
           a ∉ rendered)
      ∧ (expires a = None → a ∈ rendered).

(** What the host has registered: the names with their layers, and
    the entries of the layers control. *)
Definition registration (w : World)
  : gmap string LayerId * option IndigenousAccessMaps.Control :=
  (IndigenousAccessMaps._overlayLayers (host w),
   IndigenousAccessMaps._layerControl (host w)).

(** [addToMap] on an adapter that is on the map, seen through to the
    answer of its request, leaves the registration as it was. *)
Definition registers_once : Prop :=
  ∀ (w : World) (options : Options) (o : Settled (list Alert)) (now : Z),
    is_Some (_layer w) →
    IndigenousAccessMaps._overlayLayers (host w) !! "Weather Alerts"
    = _layer w →
    registration
      (settle (length (requests (page w))) o now (addToMap options w))
    = registration w.

End Hazards.


(** A response that the gage adapter accepts, with body [d]. *)
Definition ok_gages (d : IARivers.UsgsData) : Settled IARivers.UsgsData :=
  Response true 200 (Some d).

Section Gages.

Context `{Engine}.

(** The merge by site, as the specification has it: whenever some
    series of a response has the site code [c], the conversion gives a
    collection with exactly one feature of that code, which carries the
    readings that the response makes available. *)
Definition merges_by_site : Prop :=
  ∀ (ts : list IARivers.Series) (c : string),
    (∃ s, s ∈ ts ∧ Spec.siteOf s = Some c) →
    ∃ fc f,
      IARivers.convertToGeoJSON (Spec.response ts) = Some fc
      ∧ Spec.carrying c fc = [f]
      ∧ IARivers.streamflow (IARivers.properties f)
        = Spec.reading c IARivers.PARAMETER_CODES_discharge ts
      ∧ IARivers.gageHeight (IARivers.properties f)
        = Spec.reading c IARivers.PARAMETER_CODES_gageHeight ts.


End Gages.

End Claims.

(** What the selection of a territory keeps true of the current layer
    of the boundaries adapter. *)

Module Selection.

Import IATribalBoundaries.

(** The territories of the current layer. *)
Definition shown (w : World) : list Territory :=
  match _layer w with
  | Some l => default [] (layers w !! l)
  | None => []
  end.

(** No territory is in the selected style. *)
Definition unmarked (ts : list Territory) : Prop :=
  Forall (λ t, style t ≠ Selected) ts.

(** With no feature selected, no territory of the current layer is in
    the selected style. *)
Definition quiet (w : World) : Prop :=
  _selectedFeature w = None → unmarked (shown w).

(** Every territory in the selected style draws the feature [r]. *)
Definition marks (r : option nat) (ts : list Territory) : Prop :=
  ∀ t, t ∈ ts → style t = Selected → r = Some (ref (feature t)).

(** No two territories draw the same feature object. *)
Definition distinct (ts : list Territory) : Prop :=
  NoDup ((λ t, ref (feature t)) <$> ts).

Definition single (w : World) : Prop :=
  marks (_selectedFeature w) (shown w)
  ∧ distinct (shown w)
  ∧ NoDup (ref <$> default [] (_data w)).

Definition no_focus (e : Event) : bool :=
  match e with
  | FocusTribe _ => false
  | _ => true
  end.

End Selection.

(** An engine for the examples: it knows the literals that they use. *)

Module Fixture.

Definition parseFloat (s : string) : float :=
  if decide (s = "1520") then 1520%float
  else if decide (s = "1480") then 1480%float
  else if decide (s = "4.2") then 4.2%float
  else nan.

Definition Date_parse (s : string) : option Z :=
  if decide (s = "2024-05-01T12:00:00Z") then Some 1714564800000%Z
  else if decide (s = "2024-05-03T12:00:00Z") then Some 1714737600000%Z
  else None.

Definition Number_toString (x : float) : string :=
  if PrimFloat.eqb x (-125)%float then "-125"
  else if PrimFloat.eqb x (-116)%float then "-116"
  else if PrimFloat.eqb x 45%float then "45"
  else if PrimFloat.eqb x 49%float then "49"
  else "NaN".

#[export] Instance engine : Engine :=
  Build_Engine parseFloat Date_parse Number_toString eq_refl.

(** Noon of 2 May 2024, in milliseconds. *)
Definition noon : Z := 1714651200000.

(** The view over the Pacific Northwest. *)
Definition view : Bounds :=
  mkBounds (-125)%float 45%float (-116)%float 49%float.

(** Two alerts of the NWS feed. *)
Definition flood_warning : IAHazardLayers.Alert :=
  IAHazardLayers.mkAlert "urn:oid:1" (Some IAHazardLayers.Polygon)
    (Some "2024-05-03T12:00:00Z")
    (Some "Severe") (Some "Flood Warning").
Definition heat_advisory : IAHazardLayers.Alert :=
  IAHazardLayers.mkAlert "urn:oid:2" (Some IAHazardLayers.Polygon) None
    (Some "Minor")
    (Some "Heat Advisory").
Definition expired_watch : IAHazardLayers.Alert :=
  IAHazardLayers.mkAlert "urn:oid:3" (Some IAHazardLayers.MultiPolygon)
    (Some "2024-05-01T12:00:00Z")
    (Some "Moderate") (Some "Flood Watch").

(** An alert issued for forecast zones: the feed gives it no
    geometry. *)
Definition zone_alert : IAHazardLayers.Alert :=
  IAHazardLayers.mkAlert "urn:oid:4" None None (Some "Severe")
    (Some "Winter Storm Warning").

Definition no_options : IAHazardLayers.Options :=
  IAHazardLayers.mkOptions None None None None None None None.

(** The weather adapter on the map, with its refresh timer armed. *)
Definition on_map : IAHazardLayers.World :=
  IAHazardLayers.run IAHazardLayers.initial
    [IAHazardLayers.InitMap view None;
     IAHazardLayers.AddToMap no_options;
     IAHazardLayers.Settle 0 (Claims.ok [flood_warning]) noon].

(** Two ticks go out, as requests 1 and 2. *)
Definition two_ticks : IAHazardLayers.World :=
  IAHazardLayers.run on_map
    [IAHazardLayers.Fire 1%positive; IAHazardLayers.Fire 1%positive].

(** The flood zone adapter after its first query over [view], and the
    same with the map moved to [v]. *)
Definition flood_options : IAFloodZones.Options :=
  IAFloodZones.mkOptions (Some ["AE"; "X"]) None None None.

Definition flood_loaded : IAFloodZones.World :=
  IAFloodZones.run IAFloodZones.initial
    [IAFloodZones.InitMap view None;
     IAFloodZones.LoadForCurrentView flood_options].

Definition flood_moved (v : Bounds) : IAFloodZones.World :=
  IAFloodZones.set_host
    (IAFloodZones.moveTo v (IAFloodZones.host flood_loaded)) flood_loaded.

(** [view] with every edge moved by 0.005 degrees, and with its west
    edge moved by 0.02 degrees. *)
Definition view_nudged : Bounds :=
  mkBounds (-125.005)%float 45.005%float (-116.005)%float 49.005%float.
Definition view_panned : Bounds :=
  mkBounds (-125.02)%float 45%float (-116)%float 49%float.

(** Two territories, drawn by the tribal boundaries layer: the features
    are objects 0 and 1 and the layer is object 2. *)
Definition yakama : IATribalBoundaries.Properties :=
  IATribalBoundaries.mkProperties None (Some "Yakama Nation") None.
Definition lummi : IATribalBoundaries.Properties :=
  IATribalBoundaries.mkProperties (Some "lummi") (Some "Lummi Nation") None.

Definition territories : IATribalBoundaries.World :=
  IATribalBoundaries.run IATribalBoundaries.initial
    [IATribalBoundaries.InitMap view None;
     IATribalBoundaries.LoadData;
     IATribalBoundaries.Settle 0 (Response true 200 (Some [yakama; lummi]));
     IATribalBoundaries.CreateLayer].

(** A gage site with two parameter series, and a second site. *)
Definition series (site param : string) (vals : list IARivers.Reading)
  : IARivers.Series :=
  IARivers.mkSeries [site] "SKAGIT RIVER NEAR MOUNT VERNON, WA"
    48.445%float (-122.334)%float [param] [vals].

Definition skagit : list IARivers.Series :=
  [series "12200500" "00060"
     [IARivers.mkReading "1480" "2024-05-02T11:45:00Z";
      IARivers.mkReading "1520" "2024-05-02T12:00:00Z"];
   series "12200500" "00065"
     [IARivers.mkReading "4.2" "2024-05-02T12:00:00Z"]].

Definition no_gage_options : IARivers.GageOptions :=
  IARivers.mkGageOptions None None None None None None None.

(** The same site an hour later, with the flow only. *)
Definition skagit_later : list IARivers.Series :=
  [series "12200500" "00060"
     [IARivers.mkReading "1480" "2024-05-02T13:00:00Z"]].

(** The gage adapter on the map with its refresh timer armed, and with
    two ticks out as requests 1 and 2. *)
Definition gages_trace : list IARivers.Event :=
  [IARivers.InitMap view None;
   IARivers.AddGagesToMap no_gage_options;
   IARivers.SettleGages 0 (Claims.ok_gages (Spec.response skagit))].

Definition gages_on_map : IARivers.World :=
  IARivers.run IARivers.initial gages_trace.

Definition gages_two_ticks : IARivers.World :=
  IARivers.run gages_on_map
    [IARivers.Fire 1%positive; IARivers.Fire 1%positive].

(** The weather adapter with three alerts in its cache. *)
Definition three_alerts : IAHazardLayers.World :=
  IAHazardLayers.run IAHazardLayers.initial
    [IAHazardLayers.InitMap view None;
     IAHazardLayers.AddToMap no_options;
     IAHazardLayers.Settle 0
       (Claims.ok [flood_warning; heat_advisory; expired_watch]) noon].

(** The page with its map and nothing on it, for each adapter. *)
Definition bare_map : IAHazardLayers.World :=
  IAHazardLayers.run IAHazardLayers.initial
    [IAHazardLayers.InitMap view None].
Definition bare_flood_map : IAFloodZones.World :=
  IAFloodZones.run IAFloodZones.initial [IAFloodZones.InitMap view None].

(** The flood zone adapter on the map, with an empty answer to its
    first query, and the same with the map panned. *)
Definition flood_on_map : IAFloodZones.World :=
  IAFloodZones.run IAFloodZones.initial
    [IAFloodZones.InitMap view None;
     IAFloodZones.AddToMap flood_options;
     IAFloodZones.Settle 0 (Response true 200 (Some []))].

Definition flood_panned : IAFloodZones.World :=
  IAFloodZones.set_host
    (IAFloodZones.moveTo view_panned (IAFloodZones.host flood_on_map))
    flood_on_map.

(** A second gage site, with the water temperature only, and a series
    with no values array. *)
Definition sauk : IARivers.Series :=
  IARivers.mkSeries ["12189500"] "SAUK RIVER NEAR SAUK, WA"
    48.425%float (-121.567)%float ["00010"]
    [[IARivers.mkReading "9.5" "2024-05-02T12:00:00Z"]].

Definition two_sites : list IARivers.Series := skagit ++ [sauk].

Definition no_values : IARivers.Series :=
  IARivers.mkSeries ["12200500"] "SKAGIT RIVER NEAR MOUNT VERNON, WA"
    48.445%float (-122.334)%float ["00060"] [].

(** The boundaries put on the map, two clicks and a hover. *)
Definition clicks : list IATribalBoundaries.Event :=
  [IATribalBoundaries.InitMap view None;
   IATribalBoundaries.AddToMap (IATribalBoundaries.mkOptions None);
   IATribalBoundaries.Settle 0 (Response true 200 (Some [yakama; lummi]));
   IATribalBoundaries.Click 2 0;
   IATribalBoundaries.Click 2 1;
   IATribalBoundaries.MouseOver 2 0].

(** The boundaries on the map, and the stream network beside the
    gages. *)
Definition boundaries_on_map : IATribalBoundaries.World :=
  IATribalBoundaries.run IATribalBoundaries.initial
    [IATribalBoundaries.InitMap view None;
     IATribalBoundaries.AddToMap (IATribalBoundaries.mkOptions None);
     IATribalBoundaries.Settle 0 (Response true 200 (Some [yakama; lummi]))].

Definition no_stream_options : IARivers.StreamOptions :=
  IARivers.mkStreamOptions None None.

Definition streams_on_map : IARivers.World :=
  IARivers.run gages_on_map
    [IARivers.AddStreamNetworkToMap no_stream_options;
     IARivers.SettleStreams 1 (Response true 200 (Some []))].

(** The page opened with [?region=WA], and then asked for two regions. *)
Definition tour : list IndigenousAccessMaps.NavEvent :=
  [IndigenousAccessMaps.InitCamera
     (IndigenousAccessMaps.mkInitOptions None None) [("region", "WA")];
   IndigenousAccessMaps.FocusRegion "WA";
   IndigenousAccessMaps.FocusRegion "atlantis"].

End Fixture.

(** * The definitions on small inputs *)

Section Examples.

Import Fixture.

Example geometry_of_view :
  geometryJSON view
  = "{" +:+ key "xmin" +:+ "-125," +:+ key "ymin" +:+ "45,"
        +:+ key "xmax" +:+ "-116," +:+ key "ymax" +:+ "49,"
        +:+ key "spatialReference" +:+ "{" +:+ key "wkid" +:+ "4326}}".
Proof. reflexivity. Qed.

Example encode_where :
  URLSearchParams.encode "FLD_ZONE IN ('AE','X')"
  = "FLD_ZONE+IN+%28%27AE%27%2C%27X%27%29".
Proof. reflexivity. Qed.

Example set_replaces :
  URLSearchParams.set [("f", "json"); ("where", "1=1"); ("f", "pjson")]
    "f" "geojson"
  = [("f", "geojson"); ("where", "1=1")].
Proof. reflexivity. Qed.

Example gage_request_default :
  query (IARivers.gageRequest (IARivers.withDefaultStates no_gage_options))
  = [("format", "json"); ("parameterCd", "00060,00065");
     ("siteStatus", "active"); ("stateCd", "WA,OR,ID,MT");
     ("siteType", "ST")].
Proof. reflexivity. Qed.

Example alert_request_default :
  query (IAHazardLayers.alertRequest
           (IAHazardLayers.withDefaultArea no_options))
  = [("area", "WA,OR,ID,MT")].
Proof. reflexivity. Qed.

Example slug_of_name :
  IATribalBoundaries.codeOf yakama = Some "yakama-nation".
Proof. reflexivity. Qed.

Example nudged_is_near : IAFloodZones.boundsEqual view view_nudged = true.
Proof. reflexivity. Qed.

Example panned_is_far : IAFloodZones.boundsEqual view view_panned = false.
Proof. reflexivity. Qed.

(** One hundredth of a degree, as the doubles have it: 47.01 and 47 are
    less than the threshold apart, 0.01 and 0 are not. *)
Example near_at_the_threshold :
  IAFloodZones.near 47.01 47 = true ∧ IAFloodZones.near 0.01 0 = false.
Proof. split; reflexivity. Qed.

Example filter_at_noon :
  List.filter (IAHazardLayers.filter noon)
    [flood_warning; heat_advisory; expired_watch]
  = [flood_warning; heat_advisory].
Proof. reflexivity. Qed.

Example skagit_is_one_feature :
  (λ fc, (λ f, (IARivers.p_siteCode (IARivers.properties f),
                IARivers.streamflow (IARivers.properties f),
                IARivers.gageHeight (IARivers.properties f)))
           <$> IARivers.features fc)
    <$> IARivers.convertToGeoJSON (Spec.response skagit)
  = Some [("12200500", Some 1520%float, Some 4.2%float)].
Proof. reflexivity. Qed.

(** A series without [values[0]] makes the conversion throw. *)
Example unwalkable_series_throws :
  IARivers.convertToGeoJSON
    (Spec.response
       [IARivers.mkSeries ["12200500"] "SKAGIT" 48.445%float
          (-122.334)%float ["00060"] []])
  = None.
Proof. reflexivity. Qed.

End Examples.

(** * The river gage conversion *)

Section ConvertProofs.

Import IARivers Spec.
Context `{Engine}.

Lemma has_get m k : has m k = bool_decide (is_Some (get m k)).
Proof.
  induction m as [|[k' v] m IH]; simpl; [done|].
  destruct (decide (k' = k)); [done|exact IH].
Qed.

Lemma get_set m k v k' :
  get (set m k v) k' =
  match get m k' with
  | Some f => Some f
  | None => if decide (k = k') then Some v else None
  end.
Proof.
  unfold set. induction m as [|[k0 v0] m IH]; simpl; [done|].
  destruct (decide (k0 = k')); [done|exact IH].
Qed.

Lemma get_mutate m k g k' :
  get (mutate m k g) k' = if decide (k = k') then g <$> get m k else get m k'.
Proof.
  induction m as [|[k0 v0] m IH]; simpl.
  - by destruct (decide (k = k')).
  - destruct (decide (k0 = k)) as [->|Hne]; simpl.
    + destruct (decide (k = k')); [done|done].
    + destruct (decide (k0 = k')) as [->|Hne'].
      * destruct (decide (k = k')); [congruence|done].
      * exact IH.
Qed.

Lemma keys_mutate m k g : (mutate m k g).*1 = m.*1.
Proof.
  induction m as [|[k0 v0] m IH]; simpl; [done|].
  destruct (decide (k0 = k)); simpl; [done|by f_equal].
Qed.

Lemma get_None_keys m k : get m k = None ↔ k ∉ m.*1.
Proof.
  induction m as [|[k0 v0] m IH]; simpl.
  - split; [intros _; apply not_elem_of_nil|done].
  - rewrite not_elem_of_cons. destruct (decide (k0 = k)) as [->|Hne].
    + split; [done|intros [? _]; done].
    + rewrite IH. split; [intros ?; split; [congruence|done]|intros [_ ?]; done].
Qed.

Lemma keyed_mutate m k g :
  (∀ f, p_siteCode (properties (g f)) = p_siteCode (properties f)) →
  keyed m → keyed (mutate m k g).
Proof.
  intros Hg. unfold keyed. induction m as [|[k0 v0] m IH]; simpl; [done|].
  intros Hm. inversion Hm as [|? ? Hhd Htl]; subst. simpl in Hhd.
  destruct (decide (k0 = k)).
  - constructor; [simpl; by rewrite Hg|done].
  - constructor; [done|by apply IH].
Qed.

Lemma carrying_keyed m c f :
  NoDup (m.*1) → keyed m → get m c = Some f →
  carrying c (mkFeatureCollection (m.*2)) = [f].
Proof.
  unfold carrying, keyed. simpl.
  induction m as [|[k0 v0] m IH]; simpl; [done|].
  intros Hnd Hk Hget.
  apply NoDup_cons in Hnd as [Hnotin Hnd].
  inversion Hk as [|? ? Hhd Htl]; subst. simpl in Hhd.
  destruct (decide (k0 = c)) as [->|Hne].
  - injection Hget as ->.
    rewrite bool_decide_eq_true_2 by done. f_equal.
    clear IH Hnd Hk Hhd.
    induction m as [|[k1 v1] m IHm]; simpl; [done|].
    inversion Htl as [|? ? Hhd1 Htl1]; subst. simpl in Hhd1.
    simpl in Hnotin. apply not_elem_of_cons in Hnotin as [Hne Hnotin].
    rewrite bool_decide_eq_false_2 by congruence. by apply IHm.
  - rewrite bool_decide_eq_false_2 by congruence. by apply IH.
Qed.

Lemma carrying_absent m c :
  keyed m → get m c = None →
  carrying c (mkFeatureCollection (m.*2)) = [].
Proof.
  unfold carrying, keyed. simpl.
  induction m as [|[k0 v0] m IH]; simpl; [done|].
  intros Hk Hget. inversion Hk as [|? ? Hhd Htl]; subst. simpl in Hhd.
  destruct (decide (k0 = c)); [done|].
  rewrite bool_decide_eq_false_2 by congruence. by apply IH.
Qed.

Lemma reading_snoc c p pre s :
  reading c p (pre ++ [s]) =
  match offered c p s with
  | Some x => Some x
  | None => reading c p pre
  end.
Proof.
  unfold reading. rewrite omap_app. simpl.
  destruct (offered c p s); simpl.
  - by rewrite last_snoc.
  - by rewrite app_nil_r.
Qed.

Lemma reading_absent k p pre :
  (∀ s, s ∈ pre → siteOf s ≠ Some k) → reading k p pre = None.
Proof.
  intros Hpre. unfold reading.
  replace (omap (offered k p) pre) with (@nil float); [done|].
  induction pre as [|s pre IH]; simpl; [done|].
  unfold offered at 1.
  destruct (decide (siteOf s = Some k ∧ paramOf s = Some p)) as [[Hs _]|_].
  - exfalso. eapply Hpre; [left|done].
  - apply IH. intros s' Hs'. apply Hpre. by right.
Qed.

Lemma merged_nil : merged [] [].
Proof.
  repeat split; simpl; try done.
  - constructor.
  - constructor.
  - intros _ s Hs. by apply elem_of_nil in Hs.
Qed.

Lemma get_keyed m k f : keyed m → get m k = Some f → p_siteCode (properties f) = k.
Proof.
  unfold keyed. induction m as [|[k0 v0] m IH]; simpl; [done|].
  intros Hk Hget. inversion Hk as [|? ? Hhd Htl]; subst. simpl in Hhd.
  destruct (decide (k0 = k)) as [->|]; [by injection Hget as ->|by apply IH].
Qed.

Lemma convertSeries_merged m pre s :
  merged m pre → walkable s = true →
  ∃ m', convertSeries m s = Some m' ∧ merged m' (pre ++ [s]).
Proof.
  intros (Hnd & Hk & Hdom & Hrd) Hw.
  unfold walkable in Hw. unfold convertSeries.
  fold (siteOf s) (paramOf s).
  destruct (siteOf s) as [c0|] eqn:Hc; [|done].
  destruct (paramOf s) as [p0|] eqn:Hp; [|done].
  destruct (head (values s)) as [vals|] eqn:Hv; [|done].
  set (v := mkGageFeature _ _).
  set (m1 := if has m c0 then m else set m c0 v).
  assert (Hm1 : NoDup (m1.*1) ∧ keyed m1
    ∧ (∀ k, get m1 k = None ↔ ∀ s', s' ∈ pre ++ [s] → siteOf s' ≠ Some k)
    ∧ (∀ k f, get m1 k = Some f →
         streamflow (properties f) = reading k PARAMETER_CODES_discharge pre
         ∧ gageHeight (properties f) = reading k PARAMETER_CODES_gageHeight pre)).
  { subst m1. rewrite has_get.
    destruct (get m c0) as [f0|] eqn:Hg0.
    - rewrite bool_decide_eq_true_2 by eauto.
      repeat split; try done.
      + intros Hn s' Hs'. apply elem_of_app in Hs' as [Hs'|Hs'].
        * by apply Hdom.
        * apply list_elem_of_singleton in Hs' as ->. rewrite Hc.
          intros [= ->]. congruence.
      + intros Hall. apply Hdom. intros s' Hs'. apply Hall.
        apply elem_of_app. by left.
      + by apply Hrd.
      + by apply Hrd.
    - rewrite bool_decide_eq_false_2 by (intros [? ?]; done).
      assert (Hfresh : ∀ s', s' ∈ pre → siteOf s' ≠ Some c0) by by apply Hdom.
      repeat split.
      + unfold set. rewrite fmap_app. simpl.
        apply NoDup_app. split; [done|]. split.
        * intros x Hx Hx'. apply list_elem_of_singleton in Hx' as ->.
          by apply get_None_keys in Hg0.
        * apply NoDup_singleton.
      + unfold keyed, set. apply Forall_app. split; [done|].
        by constructor.
      + rewrite get_set. intros Hn s' Hs'.
        destruct (get m k) eqn:Hgk; [done|].
        destruct (decide (c0 = k)); [done|].
        apply elem_of_app in Hs' as [Hs'|Hs'].
        * by apply Hdom.
        * apply list_elem_of_singleton in Hs' as ->. rewrite Hc. congruence.
      + rewrite get_set. intros Hall.
        destruct (get m k) eqn:Hgk.
        * exfalso. assert (Some g = None); [|done]. rewrite <- Hgk.
          apply Hdom. intros s' Hs'. apply Hall. apply elem_of_app. by left.
        * destruct (decide (c0 = k)) as [->|]; [|done].
          exfalso. eapply Hall; [|exact Hc]. apply elem_of_app. right.
          by apply list_elem_of_singleton.
      + rewrite get_set in H0. destruct (get m k) eqn:Hgk.
        * injection H0 as <-. by apply Hrd.
        * destruct (decide (c0 = k)) as [->|]; [|done].
          injection H0 as <-. simpl. symmetry. by apply reading_absent.
      + rewrite get_set in H0. destruct (get m k) eqn:Hgk.
        * injection H0 as <-. by apply Hrd.
        * destruct (decide (c0 = k)) as [->|]; [|done].
          injection H0 as <-. simpl. symmetry. by apply reading_absent. }
  clearbody m1. clear v. destruct Hm1 as (Hnd1 & Hk1 & Hdom1 & Hrd1).
  eexists. split; [reflexivity|].
  assert (Hoff : ∀ k p, offered k p s =
    if decide (c0 = k ∧ p0 = p) then
      (λ r, parseFloat (value r)) <$> latestValue vals else None).
  { intros k p. unfold offered, latestOf. rewrite Hc, Hp, Hv. simpl.
    destruct (decide (Some c0 = Some k ∧ Some p0 = Some p)) as [[[= ->] [= ->]]|Hn].
    - by rewrite decide_True.
    - rewrite decide_False; [done|]. intros [-> ->]. by apply Hn. }
  assert (Hkeep : merged m1 (pre ++ [s]) ∨ is_Some (latestValue vals)).
  { destruct (latestValue vals) eqn:Hl; [right; eauto|left].
    repeat split; try done.
    - by apply Hdom1.
    - by apply Hdom1.
    - rewrite reading_snoc, Hoff. simpl. destruct (decide _); by apply Hrd1.
    - rewrite reading_snoc, Hoff. simpl. destruct (decide _); by apply Hrd1. }
  destruct (latestValue vals) as [r|] eqn:Hl.
  2: { destruct Hkeep as [?|[? ?]]; done. }
  clear Hkeep.
  destruct (decide (p0 = PARAMETER_CODES_discharge)) as [->|Hnd0].
  - repeat split.
    + by rewrite keys_mutate.
    + by apply keyed_mutate.
    + rewrite get_mutate. intros Hn. apply Hdom1.
      destruct (decide (c0 = k)) as [->|]; [|done].
      by destruct (get m1 k).
    + rewrite get_mutate. intros Hall.
      destruct (decide (c0 = k)) as [->|]; [|by apply Hdom1].
      apply Hdom1 in Hall. by rewrite Hall.
    + rewrite get_mutate in H0. rewrite reading_snoc, Hoff. simpl.
      destruct (decide (c0 = k)) as [->|Hne].
      * rewrite decide_True by done.
        destruct (get m1 k); [|done]. by injection H0 as <-.
      * rewrite decide_False by (intros [? _]; done). by apply Hrd1.
    + rewrite get_mutate in H0. rewrite reading_snoc, Hoff. simpl.
      rewrite decide_False by (intros [_ ?]; done).
      destruct (decide (c0 = k)) as [->|Hne]; [|by apply Hrd1].
      destruct (get m1 k) eqn:Hg; [|done]. injection H0 as <-. simpl.
      by apply Hrd1.
  - destruct (decide (p0 = PARAMETER_CODES_gageHeight)) as [->|Hng0].
    + repeat split.
      * by rewrite keys_mutate.
      * by apply keyed_mutate.
      * rewrite get_mutate. intros Hn. apply Hdom1.
        destruct (decide (c0 = k)) as [->|]; [|done].
        by destruct (get m1 k).
      * rewrite get_mutate. intros Hall.
        destruct (decide (c0 = k)) as [->|]; [|by apply Hdom1].
        apply Hdom1 in Hall. by rewrite Hall.
      * rewrite get_mutate in H0. rewrite reading_snoc, Hoff. simpl.
        rewrite decide_False by (intros [_ ?]; done).
        destruct (decide (c0 = k)) as [->|Hne]; [|by apply Hrd1].
        destruct (get m1 k) eqn:Hg; [|done]. injection H0 as <-. simpl.
        by apply Hrd1.
      * rewrite get_mutate in H0. rewrite reading_snoc, Hoff. simpl.
        destruct (decide (c0 = k)) as [->|Hne].
        -- rewrite decide_True by done.
           destruct (get m1 k); [|done]. by injection H0 as <-.
        -- rewrite decide_False by (intros [? _]; done). by apply Hrd1.
    + repeat split; try done.
      * by apply Hdom1.
      * by apply Hdom1.
      * rewrite reading_snoc, Hoff. simpl.
        rewrite decide_False by (intros [_ ?]; done). by apply Hrd1.
      * rewrite reading_snoc, Hoff. simpl.
        rewrite decide_False by (intros [_ ?]; done). by apply Hrd1.
Qed.

Lemma forEach_merged ts : ∀ m pre,
  merged m pre → forallb walkable ts = true →
  ∃ m', forEach convertSeries ts m = Some m' ∧ merged m' (pre ++ ts).
Proof.
  induction ts as [|s ts IH]; intros m pre Hm Hw; simpl.
  - exists m. by rewrite app_nil_r.
  - simpl in Hw. apply andb_prop in Hw as [Hs Hts].
    destruct (convertSeries_merged m pre s Hm Hs) as (m1 & -> & Hm1).
    destruct (IH m1 (pre ++ [s]) Hm1 Hts) as (m' & Hrun & Hm').
    exists m'. split; [done|]. by rewrite <- app_assoc in Hm'.
Qed.

Lemma reading_available c p ts s r :
  s ∈ ts → siteOf s = Some c → paramOf s = Some p →
  head (values s) ≫= latestValue = Some r →
  is_Some (reading c p ts).
Proof.
  intros Hin Hc Hp Hr. unfold reading.
  assert (Hoff : offered c p s = Some (parseFloat (value r))).
  { unfold offered, latestOf. rewrite decide_True by done. by rewrite Hr. }
  assert (Hmem : parseFloat (value r) ∈ omap (offered c p) ts).
  { apply list_elem_of_omap. eauto. }
  destruct (omap (offered c p) ts) as [|x l] using rev_ind.
  - by apply elem_of_nil in Hmem.
  - rewrite last_snoc. eauto.
Qed.

(** C2, as amended.  A response whose series can all be walked, each
    having the fields the conversion reads with a first entry in its
    [siteCode], [variableCode] and [values] arrays, and that has at
    least one series for site code [c], converts to a collection with
    exactly one feature carrying [c], whatever else the response
    holds.  Its
    streamflow is the reading the response makes available for
    parameter 00060 at that site and its gage height the one for 00065,
    so each is populated as soon as a series of the site offers it; and
    when every series is of site [c], that feature is the whole
    collection. *)
Theorem convertToGeoJSON_one_feature_per_site (ts : list Series) (c : string) :
  forallb walkable ts = true →
  (∃ s, s ∈ ts ∧ siteOf s = Some c) →
  ∃ fc f,
    convertToGeoJSON (response ts) = Some fc
    ∧ carrying c fc = [f]
    ∧ streamflow (properties f) = reading c PARAMETER_CODES_discharge ts
    ∧ gageHeight (properties f) = reading c PARAMETER_CODES_gageHeight ts
    ∧ (∀ s r, s ∈ ts → siteOf s = Some c →
         head (values s) ≫= latestValue = Some r →
         (paramOf s = Some PARAMETER_CODES_discharge →
          is_Some (streamflow (properties f)))
         ∧ (paramOf s = Some PARAMETER_CODES_gageHeight →
            is_Some (gageHeight (properties f))))
    ∧ ((∀ s, s ∈ ts → siteOf s = Some c) → features fc = [f]).
Proof.
  intros Hw (s0 & Hs0 & Hc0).
  destruct (forEach_merged ts [] [] merged_nil Hw)
    as (m & Hrun & Hnd & Hk & Hdom & Hrd).
  simpl in *.
  destruct (get m c) as [f|] eqn:Hget.
  2: { exfalso. eapply Hdom; eauto. }
  exists (mkFeatureCollection (m.*2)), f.
  destruct (Hrd c f Hget) as [Hsf Hgh].
  split; [|split; [|split; [|split; [|split]]]].
  - unfold convertToGeoJSON, response. simpl. by rewrite Hrun.
  - by apply carrying_keyed.
  - done.
  - done.
  - intros s r Hs Hc Hr. split; intros Hp.
    + rewrite Hsf. by eapply reading_available.
    + rewrite Hgh. by eapply reading_available.
  - intros Hall. simpl.
    assert (Hone : ∀ k, k ∈ m.*1 → k = c).
    { intros k Hkin. destruct (get m k) eqn:Hgk.
      - destruct (decide (k = c)) as [|Hne]; [done|].
        exfalso.
        assert (Hsome : ¬ (∀ s, s ∈ ts → siteOf s ≠ Some k)).
        { intros Hn. apply Hdom in Hn. congruence. }
        apply Hsome. intros s Hs. rewrite (Hall s Hs). congruence.
      - by apply get_None_keys in Hgk. }
    clear -Hnd Hone Hget.
    destruct m as [|[k1 v1] m]; [done|]. simpl in *.
    apply NoDup_cons in Hnd as [Hnotin Hnd].
    assert (k1 = c) as -> by (apply Hone; left).
    rewrite decide_True in Hget by done. injection Hget as ->.
    destruct m as [|[k2 v2] m]; [done|]. simpl in *.
    exfalso. apply Hnotin.
    assert (k2 = c) as -> by (apply Hone; right; left). left.
Qed.

(** C10.  When [data.value] is absent, or [data.value.timeSeries] is,
    the conversion returns the empty feature collection and does not
    throw. *)
Theorem convertToGeoJSON_absent_fields (data : UsgsData) :
  data_value data = None ∨ (∃ v, data_value data = Some v ∧ timeSeries v = None) →
  convertToGeoJSON data = Some (mkFeatureCollection []).
Proof.
  unfold convertToGeoJSON. intros [->|(v & -> & ->)]; done.
Qed.
End ConvertProofs.

(** * The map host *)

Section HostProofs.

Lemma addOverlayLayer_registers (name : string) (l : LayerId)
    (visible : bool) (st : IndigenousAccessMaps.State)
    (m : IndigenousAccessMaps.LMap) :
  IndigenousAccessMaps._map st = Some m →
  ∃ st',
    IndigenousAccessMaps.addOverlayLayer name l visible st = Returns st'
    ∧ IndigenousAccessMaps._overlayLayers st'
      = <[name := l]> (IndigenousAccessMaps._overlayLayers st)
    ∧ IndigenousAccessMaps._layerControl st'
      = IndigenousAccessMaps.control_addOverlay l name
          <$> IndigenousAccessMaps._layerControl st
    ∧ is_Some (IndigenousAccessMaps._map st').
Proof.
  intros Hm. unfold IndigenousAccessMaps.addOverlayLayer. simpl.
  rewrite Hm. destruct visible; eexists; (split; [reflexivity|]); simpl;
    rewrite ?Hm; eauto.
Qed.

Lemma addOverlayLayer_map name l visible st :
  IndigenousAccessMaps._map st = None →
  IndigenousAccessMaps._map
    (state_of (IndigenousAccessMaps.addOverlayLayer name l visible st)) = None.
Proof.
  intros Hn. unfold IndigenousAccessMaps.addOverlayLayer. simpl.
  rewrite Hn. by destruct visible.
Qed.

Lemma removeOverlayLayer_map name st :
  IndigenousAccessMaps._map st = None →
  state_of (IndigenousAccessMaps.removeOverlayLayer name st) = st.
Proof.
  intros Hn. unfold IndigenousAccessMaps.removeOverlayLayer.
  rewrite Hn. destruct (_ !! name); [done|]. by destruct (own_name name).
Qed.




End HostProofs.

(** * The weather hazard adapter *)

Section HazardProofs.

Import IAHazardLayers Claims.
Context `{Engine}.

Lemma filter_expired (now : Z) (a : Alert) (e : string) (t : Z) :
  expires a = Some e → Date_parse e = Some t → (t < now)%Z →
  filter now a = false.
Proof.
  intros He Hp Hlt. unfold filter. rewrite He.
  destruct (truthy e) eqn:Htr.
  - rewrite Hp. apply bool_decide_eq_false. lia.
  - destruct e; [|done]. rewrite Date_parse_empty in Hp. done.
Qed.

Lemma filter_no_expiry (now : Z) (a : Alert) :
  expires a = None → filter now a = true.
Proof. intros He. unfold filter. by rewrite He. Qed.

Lemma createLayer_holds (now : Z) (data : list Alert) (w : World) :
  layers (createLayer now data w).2 !! (createLayer now data w).1
  = Some (drawn now data).
Proof.
  unfold createLayer, addData, clearLayers. simpl.
  rewrite lookup_insert_eq. by rewrite lookup_insert_eq.
Qed.

Lemma drawn_In (now : Z) (data : list Alert) (a : Alert) :
  a ∈ drawn now data
  ↔ a ∈ data ∧ is_Some (geometry a) ∧ filter now a = true.
Proof.
  unfold drawn. rewrite !list_elem_of_In, filter_In, andb_true_iff.
  rewrite bool_decide_eq_true. tauto.
Qed.

(** C3, as amended.  In the layer that [createLayer] builds at time
    [now] from a fetched collection, an alert of the collection whose
    [expires] is a timestamp strictly before [now] is not rendered; an
    alert with no [expires] property is rendered when it has a
    geometry; an alert whose geometry is [null] is not rendered,
    whatever its [expires]. *)
Theorem expired_alerts_are_left_out (now : Z) (data : list Alert)
    (w : World) (a : Alert) :
  a ∈ data →
  ∃ rendered,
    layers (createLayer now data w).2 !! (createLayer now data w).1
    = Some rendered
    ∧ (∀ e t, expires a = Some e → Date_parse e = Some t → (t < now)%Z →
         a ∉ rendered)
    ∧ (expires a = None → is_Some (geometry a) → a ∈ rendered)
    ∧ (geometry a = None → a ∉ rendered).
Proof.
  intros Hin. eexists. split; [apply createLayer_holds|].
  split; [|split].
  - intros e t He Hp Hlt Hmem. apply drawn_In in Hmem as (_ & _ & Hf).
    by rewrite (filter_expired now a e t) in Hf.
  - intros He Hg. apply drawn_In. split; [done|]. split; [done|].
    by apply filter_no_expiry.
  - intros Hg Hmem. apply drawn_In in Hmem as (_ & [g Hsome] & _).
    congruence.
Qed.

Lemma tick_settled_failed (now : Z) (o : Settled (list Alert)) (w : World) :
  accepted o = None →
  tick_settled now o w
  = with_page (log LogWarn "Alert refresh failed:")
      (with_page (log LogError "NWS API error:") w).
Proof.
  intros Ho. unfold tick_settled, fetchAlerts_settled. by rewrite Ho.
Qed.




Lemma hazard_failed_tick (w : World) (i : nat) (o : Settled (list Alert))
    (now : Z) :
  pending w !! i = Some AwaitTick → accepted o = None →
  let w' := step w (Settle i o now) in
  layers w' = layers w ∧ _layer w' = _layer w ∧ host w' = host w
  ∧ _data w' = _data w ∧ timers w' = timers w
  ∧ console (page w')
    = console (page w)
        ++ [(LogError, "NWS API error:"); (LogWarn, "Alert refresh failed:")].
Proof.
  intros Hp Ho. simpl. unfold settle. rewrite Hp.
  rewrite tick_settled_failed by done. simpl.
  by rewrite <- app_assoc.
Qed.


Lemma startAutoRefresh_host (interval : N) (options : Options) (w : World) :
  host (startAutoRefresh interval options w) = host w
  ∧ _layer (startAutoRefresh interval options w) = _layer w.
Proof.
  unfold startAutoRefresh, stopAutoRefresh.
  by destruct (_refreshInterval w).
Qed.

(** A call of [addToMap] whose request is answered makes a new layer
    and registers it, also when the adapter was on the map already. *)
Lemma hazard_addToMap_registers (w : World) (options : Options)
    (d : list Alert) (now : Z) (m : IndigenousAccessMaps.LMap) :
  IndigenousAccessMaps._map (host w) = Some m →
  let l' := next_stamp (page w) in
  let w' :=
    settle (length (requests (page w))) (ok d) now (addToMap options w) in
  _layer w' = Some l'
  ∧ IndigenousAccessMaps._overlayLayers (host w')
    = <["Weather Alerts" := l']>
        (IndigenousAccessMaps._overlayLayers (host w))
  ∧ IndigenousAccessMaps._overlayLayers (host w') !! "Weather Alerts"
    = Some l'
  ∧ IndigenousAccessMaps._layerControl (host w')
    = IndigenousAccessMaps.control_addOverlay l' "Weather Alerts"
        <$> IndigenousAccessMaps._layerControl (host w).
Proof.
  intros Hm l' w'. subst w'.
  unfold addToMap, IndigenousAccessMaps.getMap. rewrite Hm.
  unfold fetchAlerts, settle. simpl. rewrite lookup_insert_eq.
  unfold addToMap_settled, fetchAlerts_settled. simpl.
  destruct (addOverlayLayer_registers "Weather Alerts" l'
              (not_false (visible options)) (host w) m Hm)
    as (st' & Hadd & Hov & Hctl & _).
  fold l'. rewrite Hadd.
  assert (Hlk : <["Weather Alerts" := l']>
                  (IndigenousAccessMaps._overlayLayers (host w))
                !! "Weather Alerts" = Some l') by apply lookup_insert_eq.
  destruct (not_false (autoRefresh options)).
  - match goal with |- context [startAutoRefresh ?i ?o ?x] =>
      destruct (startAutoRefresh_host i o x) as [-> ->] end.
    simpl. by rewrite Hov, Hctl.
  - simpl. by rewrite Hov, Hctl.
Qed.

End HazardProofs.

Section HazardExamples.

Import IAHazardLayers Claims Fixture.

Lemma on_map_displayed : displayed on_map = Some [flood_warning].
Proof. vm_compute. reflexivity. Qed.


(** C3, counterexample.  A collection of two alerts, the second issued
    for forecast zones and so without a geometry: it has no [expires]
    property and the layer does not hold it. *)
Lemma zone_alert_is_not_rendered : ¬ @renders_unexpired Fixture.engine.
Proof.
  intros Hrenders.
  destruct (Hrenders noon [flood_warning; zone_alert] initial zone_alert)
    as (rendered & Hl & _ & Hin).
  - right. left.
  - vm_compute in Hl. injection Hl as <-. specialize (Hin eq_refl).
    apply elem_of_cons in Hin as [Heq|Hin]; [discriminate|].
    by apply elem_of_nil in Hin.
Qed.

(** C7, counterexample.  The adapter is on the map as layer 0; a second
    [addToMap] binds 'Weather Alerts' to layer 1 and leaves the layers
    control with two entries of that name. *)
Lemma addToMap_twice_registers_twice : ¬ @registers_once Fixture.engine.
Proof.
  intros Honce.
  specialize (Honce on_map no_options (ok [flood_warning]) noon).
  assert (Hreg : registration
    (settle (length (requests (page on_map))) (ok [flood_warning]) noon
       (addToMap no_options on_map))
    = ({["Weather Alerts" := 1]},
       Some [(0, "Weather Alerts"); (1, "Weather Alerts")])).
  { vm_compute. reflexivity. }
  rewrite Hreg in Honce.
  assert (Hwas : registration on_map
    = ({["Weather Alerts" := 0]}, Some [(0, "Weather Alerts")])).
  { vm_compute. reflexivity. }
  rewrite Hwas in Honce.
  assert (Hneq : (Some [(0, "Weather Alerts"); (1, "Weather Alerts")]
                  : option IndigenousAccessMaps.Control)
                 ≠ Some [(0, "Weather Alerts")]) by (intros [=]).
  apply Hneq.
  assert (Hsnd := f_equal snd (Honce ltac:(vm_compute; eauto) ltac:(vm_compute; reflexivity))).
  exact Hsnd.
Qed.

End HazardExamples.

(** * The river gage adapter *)

Section RiverProofs.

Import IARivers Claims.
Context `{Engine}.

Lemma gage_tick_settled_failed (o : Settled UsgsData) (w : World) :
  accepted o = None →
  tick_settled o w
  = with_page (log LogWarn "Gage refresh failed:")
      (with_page (log LogError "USGS API error:") w).
Proof.
  intros Ho. unfold tick_settled, fetchGageData_settled. by rewrite Ho.
Qed.

Lemma gage_failed_tick (w : World) (i : nat) (o : Settled UsgsData) :
  pending w !! i = Some AwaitTick → accepted o = None →
  let w' := step w (SettleGages i o) in
  gageLayers w' = gageLayers w ∧ _gageLayer w' = _gageLayer w
  ∧ host w' = host w ∧ _gageData w' = _gageData w ∧ timers w' = timers w
  ∧ console (page w')
    = console (page w)
        ++ [(LogError, "USGS API error:"); (LogWarn, "Gage refresh failed:")].
Proof.
  intros Hp Ho. simpl. unfold settleGages. rewrite Hp.
  rewrite gage_tick_settled_failed by done. simpl.
  by rewrite <- app_assoc.
Qed.

Lemma gage_tick_settled_ok (d : UsgsData) (g : FeatureCollection)
    (w : World) (l : LayerId) :
  _gageLayer w = Some l → convertToGeoJSON d = Some g →
  displayed (tick_settled (ok_gages d) w) = Some (features g).
Proof.
  intros Hl Hg. unfold tick_settled, fetchGageData_settled, displayed. simpl.
  rewrite Hg. simpl. rewrite Hl. simpl. rewrite Hl. simpl.
  rewrite lookup_insert_eq. by rewrite lookup_insert_eq.
Qed.

Lemma gage_tick_settled_frame (o : Settled UsgsData) (w : World) :
  _gageLayer (tick_settled o w) = _gageLayer w
  ∧ pending (tick_settled o w) = pending w
  ∧ _streamLayer (tick_settled o w) = _streamLayer w
  ∧ host (tick_settled o w) = host w.
Proof.
  unfold tick_settled, fetchGageData_settled.
  destruct (accepted o); simpl; [|done].
  destruct (convertToGeoJSON u); simpl; [|done].
  by destruct (_gageLayer w) eqn:E.
Qed.


Lemma stopAutoRefresh_frame (w : World) :
  host (stopAutoRefresh w) = host w
  ∧ _gageLayer (stopAutoRefresh w) = _gageLayer w
  ∧ _streamLayer (stopAutoRefresh w) = _streamLayer w
  ∧ pending (stopAutoRefresh w) = pending w
  ∧ _refreshInterval (stopAutoRefresh w) = None.
Proof. unfold stopAutoRefresh. by destruct (_refreshInterval w) eqn:E. Qed.

Lemma startAutoRefresh_frame interval options (w : World) :
  host (startAutoRefresh interval options w) = host w
  ∧ _gageLayer (startAutoRefresh interval options w) = _gageLayer w
  ∧ _streamLayer (startAutoRefresh interval options w) = _streamLayer w
  ∧ pending (startAutoRefresh interval options w) = pending w.
Proof.
  unfold startAutoRefresh.
  destruct (stopAutoRefresh_frame w) as (? & ? & ? & ? & _).
  simpl. done.
Qed.


(** When [removeFromMap] returns, the module variables are cleared. *)
Lemma removeFromMap_clears (w w1 : World) :
  removeFromMap w = Returns w1 →
  _gageLayer w1 = None ∧ _streamLayer w1 = None ∧ _gageData w1 = None
  ∧ _refreshInterval w1 = None ∧ pending w1 = pending w.
Proof.
  unfold removeFromMap.
  destruct (stopAutoRefresh_frame w) as (Hh & Hg & Hs & Hp & Hr).
  revert Hh Hg Hs Hp Hr. generalize (stopAutoRefresh w). intros w0 Hh Hg Hs Hp Hr.
  destruct (_gageLayer w0) eqn:Eg.
  - destruct (IndigenousAccessMaps.removeOverlayLayer "River Gages" (host w0));
      [|done].
    simpl. destruct (_streamLayer w0) eqn:Es.
    + destruct (IndigenousAccessMaps.removeOverlayLayer "Streams" s);
        [|done].
      intros [= <-]. simpl. done.
    + intros [= <-]. simpl. done.
  - destruct (_streamLayer w0) eqn:Es.
    + destruct (IndigenousAccessMaps.removeOverlayLayer "Streams" (host w0));
        [|done].
      intros [= <-]. simpl. done.
    + intros [= <-]. simpl. done.
Qed.











End RiverProofs.

Section RiverExamples.

Import IARivers Claims Fixture.

(** C2, counterexample.  Three series of site 12200500, the third with
    an empty [values] array: the conversion throws at [values[0]] and
    gives no collection at all. *)
Lemma series_without_values_is_not_merged : ¬ @merges_by_site engine.
Proof.
  intros Hclaim.
  destruct (Hclaim (skagit ++ [no_values]) "12200500")
    as (fc & f & Hfc & _).
  - exists no_values. split; [|reflexivity].
    apply elem_of_app. right. left.
  - vm_compute in Hfc. discriminate.
Qed.


End RiverExamples.

(** * The flood zone adapter *)

Section FloodProofs.

Import IAFloodZones.
Context `{Engine}.

Lemma append_assoc (a b c : string) : (a +:+ b) +:+ c = a +:+ (b +:+ c).
Proof.
  induction a as [|ch a IH]; [done|].
  change (String ch ((a +:+ b) +:+ c) = String ch (a +:+ (b +:+ c))).
  by f_equal.
Qed.

Lemma join_snoc (sep x : string) (l : list string) :
  l ≠ [] → join sep (l ++ [x]) = join sep l +:+ sep +:+ x.
Proof.
  induction l as [|y l IH]; [done|]. intros _.
  destruct l as [|z l].
  - done.
  - change (join sep ((y :: z :: l) ++ [x]))
      with (y +:+ sep +:+ join sep ((z :: l) ++ [x])).
    rewrite IH by done.
    change (join sep (y :: z :: l)) with (y +:+ sep +:+ join sep (z :: l)).
    by rewrite !append_assoc.
Qed.

(** Order on binary64 values, from its specification: when [y <= x]
    holds, [x < y] does not. *)
Lemma SFcompare_antisym (a b : SpecFloat.spec_float) :
  SpecFloat.SFcompare b a = CompOpp <$> SpecFloat.SFcompare a b.
Proof.
  destruct a as [sa|sa| |sa ma ea], b as [sb|sb| |sb mb eb]; simpl;
    try done; try (by destruct sa); try (by destruct sb);
    try (by destruct sa, sb).
  destruct sa, sb; simpl; try done.
  - rewrite (Z.compare_antisym ea eb).
    destruct (ea ?= eb)%Z; simpl; try done.
    rewrite Pos.compare_cont_antisym. simpl. by rewrite CompOpp_involutive.
  - rewrite (Z.compare_antisym ea eb).
    destruct (ea ?= eb)%Z; simpl; try done.
    by rewrite Pos.compare_cont_antisym.
Qed.

Lemma leb_not_ltb (x y : float) :
  (y <=? x)%float = true → (x <? y)%float = false.
Proof.
  rewrite leb_spec, ltb_spec. unfold SpecFloat.SFleb, SpecFloat.SFltb.
  rewrite (SFcompare_antisym (Prim2SF x) (Prim2SF y)).
  by destruct (SpecFloat.SFcompare (Prim2SF x) (Prim2SF y)) as [[]|].
Qed.

Lemma loadForCurrentView_skips (options : Options) (k : Continuation)
    (w : World) (map : IndigenousAccessMaps.LMap) :
  IndigenousAccessMaps.getMap (host w) = Some map →
  unchanged w (IndigenousAccessMaps.getBounds map) = true →
  loadForCurrentView options k w = w.
Proof. intros Hm Hu. unfold loadForCurrentView. by rewrite Hm, Hu. Qed.

Lemma loadForCurrentView_queries (options : Options) (k : Continuation)
    (w : World) (map : IndigenousAccessMaps.LMap) :
  IndigenousAccessMaps.getMap (host w) = Some map →
  unchanged w (IndigenousAccessMaps.getBounds map) = false →
  let w' := loadForCurrentView options k w in
  requests (page w')
  = requests (page w)
      ++ [floodRequest (IndigenousAccessMaps.getBounds map) options]
  ∧ _currentBounds w' = Some (IndigenousAccessMaps.getBounds map)
  ∧ pending w' = <[length (requests (page w)) := k]> (pending w).
Proof. intros Hm Hu. unfold loadForCurrentView. by rewrite Hm, Hu. Qed.

(** C4.  [loadForCurrentView] with a map in place.  When bounds are
    recorded and the view differs from them by less than 0.01 on all
    four edges (the difference as the code computes it, in binary64),
    no request is issued.  When an edge differs by 0.01 or more, exactly
    one request is issued, for the view, and the view is recorded.  When
    no bounds are recorded, the request is always issued.  The threshold
    is the binary64 value nearest to 0.01. *)
Theorem loadForCurrentView_debounce (options : Options) (k : Continuation)
    (w : World) (map : IndigenousAccessMaps.LMap) :
  IndigenousAccessMaps.getMap (host w) = Some map →
  let view := IndigenousAccessMaps.getBounds map in
  let w' := loadForCurrentView options k w in
  (∀ last, _currentBounds w = Some last →
     (abs (getWest last - getWest view) <? 0.01)%float = true →
     (abs (getSouth last - getSouth view) <? 0.01)%float = true →
     (abs (getEast last - getEast view) <? 0.01)%float = true →
     (abs (getNorth last - getNorth view) <? 0.01)%float = true →
     requests (page w') = requests (page w))
  ∧ (∀ last, _currentBounds w = Some last →
     (0.01 <=? abs (getWest last - getWest view))%float = true
     ∨ (0.01 <=? abs (getSouth last - getSouth view))%float = true
     ∨ (0.01 <=? abs (getEast last - getEast view))%float = true
     ∨ (0.01 <=? abs (getNorth last - getNorth view))%float = true →
     requests (page w') = requests (page w) ++ [floodRequest view options]
     ∧ _currentBounds w' = Some view)
  ∧ (_currentBounds w = None →
     requests (page w') = requests (page w) ++ [floodRequest view options]
     ∧ _currentBounds w' = Some view).
Proof.
  intros Hm view w'. split; [|split].
  - intros last Hlast HW HS HE HN. subst w'.
    rewrite (loadForCurrentView_skips options k w map); [done|done|].
    unfold unchanged, boundsEqual, near, threshold. rewrite Hlast.
    fold view. by rewrite HW, HS, HE, HN.
  - intros last Hlast Hfar.
    destruct (loadForCurrentView_queries options k w map Hm) as (Hr & Hb & _).
    + unfold unchanged, boundsEqual, near, threshold. rewrite Hlast.
      fold view.
      destruct Hfar as [Hfar | [Hfar | [Hfar | Hfar]]];
        apply leb_not_ltb in Hfar; rewrite Hfar;
        rewrite ?andb_false_r; done.
    + done.
  - intros Hnone.
    destruct (loadForCurrentView_queries options k w map Hm) as (Hr & Hb & _).
    + unfold unchanged. by rewrite Hnone.
    + done.
Qed.

Lemma whereClause_AE_X : whereClause ["AE"; "X"] = "FLD_ZONE IN ('AE','X')".
Proof. reflexivity. Qed.

Lemma set_fresh (ps : URLSearchParams.t) (k v : string) :
  URLSearchParams.get ps k = None →
  URLSearchParams.set ps k v = ps ++ [(k, v)].
Proof.
  induction ps as [|[k' v'] ps IH]; simpl; [done|].
  destruct (decide (k' = k)); [done|]. intros Hg. by rewrite IH.
Qed.

Lemma get_snoc (ps : URLSearchParams.t) (k v : string) :
  URLSearchParams.get ps k = None →
  URLSearchParams.get (ps ++ [(k, v)]) k = Some v.
Proof.
  induction ps as [|[k' v'] ps IH]; simpl.
  - intros _. by rewrite decide_True.
  - destruct (decide (k' = k)); [done|exact IH].
Qed.

Lemma toString_snoc (ps : URLSearchParams.t) (k v : string) :
  ps ≠ [] →
  URLSearchParams.toString (ps ++ [(k, v)])
  = URLSearchParams.toString ps +:+ "&" +:+ URLSearchParams.encode k
      +:+ "=" +:+ URLSearchParams.encode v.
Proof.
  intros Hne. unfold URLSearchParams.toString. rewrite fmap_app.
  change (URLSearchParams.pair_toString <$> [(k, v)])
    with [URLSearchParams.pair_toString (k, v)].
  rewrite join_snoc; [done|]. by destruct ps.
Qed.

(** C9.  With [zoneFilter] set to ['AE','X'], the [where] parameter of
    the query is the string FLD_ZONE IN ('AE','X').  In the query string
    of the address it comes last, in form-urlencoded spelling, and
    decodes to that string. *)
Theorem zoneFilter_where (b : Bounds) (options : Options) :
  zoneFilter options = Some ["AE"; "X"] →
  URLSearchParams.get (query (floodRequest b options)) "where"
  = Some "FLD_ZONE IN ('AE','X')"
  ∧ (∃ front,
       queryString b options
       = front +:+ "&where=" +:+ "FLD_ZONE+IN+%28%27AE%27%2C%27X%27%29")
  ∧ URLSearchParams.decode "FLD_ZONE+IN+%28%27AE%27%2C%27X%27%29"
    = "FLD_ZONE IN ('AE','X')".
Proof.
  intros Hz. unfold queryString, floodRequest. rewrite Hz. cbn [query].
  rewrite whereClause_AE_X.
  rewrite set_fresh by reflexivity.
  split; [by apply get_snoc|]. split; [|reflexivity].
  exists (URLSearchParams.toString (floodParams b)).
  rewrite toString_snoc by done.
  reflexivity.
Qed.

End FloodProofs.

(** * The tribal boundaries adapter *)

Section TribalProofs.

Import IATribalBoundaries.

Lemma hover_keeps_selection (l : LayerId) (j : nat) (w : World)
    (t : Territory) :
  territory l j w = Some t →
  _selectedFeature w = Some (ref (feature t)) →
  mouseover l j w = w ∧ mouseout l j w = w.
Proof.
  intros Ht Hs. unfold mouseover, mouseout. rewrite Ht, Hs.
  destruct (decide (Some (ref (feature t)) ≠ Some (ref (feature t))));
    done.
Qed.

Lemma only_selected (ts : list Territory) (j : nat) (t : Territory) :
  ts !! j = Some t →
  List.filter (λ t, bool_decide (style t = Selected))
    (alter (setStyle Selected) j (setStyle (getFeatureStyle "default") <$> ts))
  = [setStyle Selected t].
Proof.
  revert j. induction ts as [|t0 ts IH]; intros j Hj; [done|].
  destruct j as [|j]; simpl in *.
  - injection Hj as ->. f_equal.
    clear IH. induction ts as [|t1 ts IH]; [done|]. simpl. exact IH.
  - by apply IH.
Qed.

(** A click on a territory while another feature is the selection
    leaves that territory alone in the selected style. *)
Lemma click_selects_one (l : LayerId) (j : nat) (w : World)
    (t : Territory) (r : nat) :
  _layer w = Some l →
  territory l j w = Some t →
  _selectedFeature w = Some r → r ≠ ref (feature t) →
  ∃ w', click l j w = Returns w'
        ∧ selected w' = [setStyle Selected t]
        ∧ _selectedFeature w' = Some (ref (feature t)).
Proof.
  intros Hl Ht Hs Hr. unfold click. rewrite Ht, Hs, Hl.
  rewrite decide_True by done. eexists. split; [reflexivity|].
  split; [|done].
  unfold selected, setStyleAt, resetStyle. simpl. rewrite Hl.
  unfold territory in Ht.
  destruct (layers w !! l) as [ts|] eqn:Hts; [|done]. simpl in Ht.
  rewrite !lookup_alter_eq, Hts. simpl.
  by apply only_selected.
Qed.

(** C8, at the failing input.  The first territory is clicked, then
    [focusTribe] is called for the second: the second is the selection,
    both territories are in the selected style, and hovering over the
    first one changes its style. *)
Lemma focusTribe_keeps_the_previous_selection :
  let w := run Fixture.territories [Click 2 0; FocusTribe "Lummi"] in
  _selectedFeature w = Some 1
  ∧ style <$> selected w = [Selected; Selected]
  ∧ (ref ∘ feature) <$> selected w = [0; 1]
  ∧ style <$> territory 2 0 (step w (MouseOver 2 0)) = Some Highlighted.
Proof. vm_compute. done. Qed.

End TribalProofs.

(** * Registering an overlay again *)

Section RegistrationProofs.

Context `{Engine}.

Lemma gage_addGagesToMap_registers (w : IARivers.World)
    (options : IARivers.GageOptions) (d : IARivers.UsgsData)
    (g : IARivers.FeatureCollection) (m : IndigenousAccessMaps.LMap) :
  IndigenousAccessMaps._map (IARivers.host w) = Some m →
  IARivers.convertToGeoJSON d = Some g →
  let l' := next_stamp (IARivers.page w) in
  let w' :=
    IARivers.settleGages (length (requests (IARivers.page w)))
      (Claims.ok_gages d) (IARivers.addGagesToMap options w) in
  IARivers._gageLayer w' = Some l'
  ∧ IndigenousAccessMaps._overlayLayers (IARivers.host w')
    = <["River Gages" := l']>
        (IndigenousAccessMaps._overlayLayers (IARivers.host w))
  ∧ IndigenousAccessMaps._layerControl (IARivers.host w')
    = IndigenousAccessMaps.control_addOverlay l' "River Gages"
        <$> IndigenousAccessMaps._layerControl (IARivers.host w).
Proof.
  intros Hm Hg l' w'. subst w'.
  unfold IARivers.addGagesToMap, IndigenousAccessMaps.getMap. rewrite Hm.
  unfold IARivers.fetchGageData, IARivers.settleGages. simpl.
  rewrite lookup_insert_eq.
  unfold IARivers.addGagesToMap_settled, IARivers.fetchGageData_settled.
  simpl. rewrite Hg. simpl.
  destruct (addOverlayLayer_registers "River Gages" l'
              (not_false (IARivers.visible options)) (IARivers.host w) m Hm)
    as (st' & Hadd & Hov & Hctl & _).
  fold l'. rewrite Hadd.
  destruct (not_false (IARivers.autoRefresh options)).
  - match goal with |- context [IARivers.startAutoRefresh ?i ?o ?x] =>
      destruct (startAutoRefresh_frame i o x) as (-> & -> & _) end.
    simpl. by rewrite Hov, Hctl.
  - simpl. by rewrite Hov, Hctl.
Qed.

Lemma stream_addStreamNetworkToMap_registers (w : IARivers.World)
    (options : IARivers.StreamOptions) (data : list IARivers.StreamFeature)
    (m : IndigenousAccessMaps.LMap) :
  IndigenousAccessMaps._map (IARivers.host w) = Some m →
  let l' := next_stamp (IARivers.page w) in
  let w' :=
    IARivers.settleStreams (length (requests (IARivers.page w)))
      (Response true 200 (Some data))
      (IARivers.addStreamNetworkToMap options w) in
  IARivers._streamLayer w' = Some l'
  ∧ IndigenousAccessMaps._overlayLayers (IARivers.host w')
    = <["Streams" := l']>
        (IndigenousAccessMaps._overlayLayers (IARivers.host w))
  ∧ IndigenousAccessMaps._layerControl (IARivers.host w')
    = IndigenousAccessMaps.control_addOverlay l' "Streams"
        <$> IndigenousAccessMaps._layerControl (IARivers.host w).
Proof.
  intros Hm l' w'. subst w'.
  unfold IARivers.addStreamNetworkToMap, IndigenousAccessMaps.getMap.
  rewrite Hm. unfold IARivers.settleStreams. simpl.
  rewrite lookup_insert_eq.
  unfold IARivers.addStreamNetworkToMap_settled,
    IARivers.queryStreamNetwork_settled. simpl.
  destruct (addOverlayLayer_registers "Streams" l'
              (not_false (IARivers.s_visible options)) (IARivers.host w) m Hm)
    as (st' & Hadd & Hov & Hctl & _).
  fold l'. rewrite Hadd. simpl. by rewrite Hov, Hctl.
Qed.

Lemma flood_addToMap_loaded_registers (w : IAFloodZones.World)
    (options : IAFloodZones.Options) (l : LayerId)
    (m : IndigenousAccessMaps.LMap) :
  IndigenousAccessMaps._map (IAFloodZones.host w) = Some m →
  IAFloodZones._layer w = Some l →
  let w' := IAFloodZones.addToMap_loaded options w in
  IAFloodZones._layer w' = Some l
  ∧ IndigenousAccessMaps._overlayLayers (IAFloodZones.host w')
    = <["FEMA Flood Zones" := l]>
        (IndigenousAccessMaps._overlayLayers (IAFloodZones.host w))
  ∧ IndigenousAccessMaps._layerControl (IAFloodZones.host w')
    = IndigenousAccessMaps.control_addOverlay l "FEMA Flood Zones"
        <$> IndigenousAccessMaps._layerControl (IAFloodZones.host w).
Proof.
  intros Hm Hl w'. subst w'. unfold IAFloodZones.addToMap_loaded.
  rewrite Hl.
  destruct (addOverlayLayer_registers "FEMA Flood Zones" l
              (not_false (IAFloodZones.visible options))
              (IAFloodZones.host w) m Hm)
    as (st' & -> & Hov & Hctl & _).
  destruct (not_false (IAFloodZones.dynamicLoad options)); simpl;
    by rewrite Hov, Hctl.
Qed.

Lemma flood_settled_keeps (o : Settled (list IAFloodZones.FloodFeature))
    (w : IAFloodZones.World) (l : LayerId) :
  IAFloodZones._layer w = Some l →
  IAFloodZones._layer (IAFloodZones.loadForCurrentView_settled o w) = Some l
  ∧ IAFloodZones.host (IAFloodZones.loadForCurrentView_settled o w)
    = IAFloodZones.host w.
Proof.
  intros Hl. unfold IAFloodZones.loadForCurrentView_settled,
    IAFloodZones.queryFloodZones_settled.
  destruct o as [|[] status [data|]]; simpl; rewrite ?Hl; done.
Qed.

Lemma flood_addToMap_registers (w : IAFloodZones.World)
    (options : IAFloodZones.Options)
    (o : Settled (list IAFloodZones.FloodFeature)) (l : LayerId)
    (m : IndigenousAccessMaps.LMap) :
  IndigenousAccessMaps._map (IAFloodZones.host w) = Some m →
  IAFloodZones._layer w = Some l →
  IAFloodZones.pending w !! length (requests (IAFloodZones.page w)) = None →
  let w' :=
    IAFloodZones.settle (length (requests (IAFloodZones.page w))) o
      (IAFloodZones.addToMap options w) in
  IAFloodZones._layer w' = Some l
  ∧ IndigenousAccessMaps._overlayLayers (IAFloodZones.host w')
    = <["FEMA Flood Zones" := l]>
        (IndigenousAccessMaps._overlayLayers (IAFloodZones.host w))
  ∧ IndigenousAccessMaps._layerControl (IAFloodZones.host w')
    = IndigenousAccessMaps.control_addOverlay l "FEMA Flood Zones"
        <$> IndigenousAccessMaps._layerControl (IAFloodZones.host w).
Proof.
  intros Hm Hl Hp w'. subst w'.
  unfold IAFloodZones.addToMap, IndigenousAccessMaps.getMap. rewrite Hm.
  destruct (IAFloodZones.unchanged w (IndigenousAccessMaps.getBounds m))
    eqn:Hu.
  - destruct (flood_addToMap_loaded_registers w options l m Hm Hl)
      as (Hl' & Hov & Hctl).
    unfold IAFloodZones.settle.
    assert (Hp' : IAFloodZones.pending (IAFloodZones.addToMap_loaded options w)
                  = IAFloodZones.pending w).
    { unfold IAFloodZones.addToMap_loaded. rewrite Hl.
      destruct (IndigenousAccessMaps.addOverlayLayer _ _ _ _);
        [destruct (not_false (IAFloodZones.dynamicLoad options))|]; done. }
    rewrite Hp', Hp. done.
  - unfold IAFloodZones.loadForCurrentView, IndigenousAccessMaps.getMap.
    rewrite Hm, Hu. unfold IAFloodZones.settle. simpl.
    rewrite lookup_insert_eq.
    match goal with
    | |- context [IAFloodZones.loadForCurrentView_settled o ?x] =>
        destruct (flood_settled_keeps o x l Hl) as [Hl1 Hh1];
        pose proof (flood_addToMap_loaded_registers
                      (IAFloodZones.loadForCurrentView_settled o x)
                      options l m) as Hreg
    end.
    rewrite Hh1 in Hreg. simpl in Hreg. by apply Hreg.
Qed.

Lemma tribal_addToMap_registers (w : IATribalBoundaries.World)
    (options : IATribalBoundaries.Options)
    (data : list IATribalBoundaries.Feature) (l : LayerId)
    (m : IndigenousAccessMaps.LMap) :
  IndigenousAccessMaps._map (IATribalBoundaries.host w) = Some m →
  IATribalBoundaries._data w = Some data →
  IATribalBoundaries._layer w = Some l →
  ∃ w',
    IATribalBoundaries.addToMap options w = Returns w'
    ∧ IATribalBoundaries._layer w' = Some l
    ∧ IndigenousAccessMaps._overlayLayers (IATribalBoundaries.host w')
      = <["Tribal Boundaries" := l]>
          (IndigenousAccessMaps._overlayLayers (IATribalBoundaries.host w))
    ∧ IndigenousAccessMaps._layerControl (IATribalBoundaries.host w')
      = IndigenousAccessMaps.control_addOverlay l "Tribal Boundaries"
          <$> IndigenousAccessMaps._layerControl (IATribalBoundaries.host w).
Proof.
  intros Hm Hd Hl.
  unfold IATribalBoundaries.addToMap, IndigenousAccessMaps.getMap.
  rewrite Hm, Hd. unfold IATribalBoundaries.addToMap_loaded. rewrite Hl.
  cbv zeta. cbv beta iota. rewrite Hl.
  destruct (addOverlayLayer_registers "Tribal Boundaries" l
              (not_false (IATribalBoundaries.visible options))
              (IATribalBoundaries.host w) m Hm)
    as (st' & -> & Hov & Hctl & _).
  eexists. split; [reflexivity|]. simpl. by rewrite Hov, Hctl.
Qed.

(** C7, as amended.  No adapter and no function of the host looks
    whether an overlay is registered already.  With a map in place,
    [addOverlayLayer] binds the display name, which is not
    [__proto__], to the layer it is handed, so that the name-to-layer
    mapping keeps one entry under the name, the same mapping when the
    name was bound to that layer before, and it appends an entry to the
    layers control every time.  Every adapter registers so on every
    call that gets that far, also when its layer is on the map
    already: the weather, gage and stream adapters make a new layer
    and bind their name to it, the flood zone and tribal boundaries
    adapters hand over the layer they hold; in each case the layers
    control has one more entry under the same name. *)
Theorem addToMap_again_registers_again :
  (∀ (st : IndigenousAccessMaps.State) (name : string) (l : LayerId)
     (vis : bool) (m : IndigenousAccessMaps.LMap),
     IndigenousAccessMaps._map st = Some m →
     name ≠ "__proto__" →
     ∃ st',
       IndigenousAccessMaps.addOverlayLayer name l vis st = Returns st'
       ∧ IndigenousAccessMaps._overlayLayers st'
         = <[name := l]> (IndigenousAccessMaps._overlayLayers st)
       ∧ (IndigenousAccessMaps._overlayLayers st !! name = Some l →
          IndigenousAccessMaps._overlayLayers st'
          = IndigenousAccessMaps._overlayLayers st)
       ∧ IndigenousAccessMaps._layerControl st'
         = IndigenousAccessMaps.control_addOverlay l name
             <$> IndigenousAccessMaps._layerControl st)
  ∧ (∀ (w : IAHazardLayers.World) (options : IAHazardLayers.Options)
       (d : list IAHazardLayers.Alert) (now : Z)
       (m : IndigenousAccessMaps.LMap),
       IndigenousAccessMaps._map (IAHazardLayers.host w) = Some m →
       let l' := next_stamp (IAHazardLayers.page w) in
       let w' :=
         IAHazardLayers.settle (length (requests (IAHazardLayers.page w)))
           (Claims.ok d) now (IAHazardLayers.addToMap options w) in
       IAHazardLayers._layer w' = Some l'
       ∧ IndigenousAccessMaps._overlayLayers (IAHazardLayers.host w')
         = <["Weather Alerts" := l']>
             (IndigenousAccessMaps._overlayLayers (IAHazardLayers.host w))
       ∧ IndigenousAccessMaps._overlayLayers (IAHazardLayers.host w')
         !! "Weather Alerts" = Some l'
       ∧ IndigenousAccessMaps._layerControl (IAHazardLayers.host w')
         = IndigenousAccessMaps.control_addOverlay l' "Weather Alerts"
             <$> IndigenousAccessMaps._layerControl (IAHazardLayers.host w))
  ∧ (∀ (w : IARivers.World) (options : IARivers.GageOptions)
       (d : IARivers.UsgsData) (g : IARivers.FeatureCollection)
       (m : IndigenousAccessMaps.LMap),
       IndigenousAccessMaps._map (IARivers.host w) = Some m →
       IARivers.convertToGeoJSON d = Some g →
       let l' := next_stamp (IARivers.page w) in
       let w' :=
         IARivers.settleGages (length (requests (IARivers.page w)))
           (Claims.ok_gages d) (IARivers.addGagesToMap options w) in
       IARivers._gageLayer w' = Some l'
       ∧ IndigenousAccessMaps._overlayLayers (IARivers.host w')
         = <["River Gages" := l']>
             (IndigenousAccessMaps._overlayLayers (IARivers.host w))
       ∧ IndigenousAccessMaps._layerControl (IARivers.host w')
         = IndigenousAccessMaps.control_addOverlay l' "River Gages"
             <$> IndigenousAccessMaps._layerControl (IARivers.host w))
  ∧ (∀ (w : IARivers.World) (options : IARivers.StreamOptions)
       (data : list IARivers.StreamFeature)
       (m : IndigenousAccessMaps.LMap),
       IndigenousAccessMaps._map (IARivers.host w) = Some m →
       let l' := next_stamp (IARivers.page w) in
       let w' :=
         IARivers.settleStreams (length (requests (IARivers.page w)))
           (Response true 200 (Some data))
           (IARivers.addStreamNetworkToMap options w) in
       IARivers._streamLayer w' = Some l'
       ∧ IndigenousAccessMaps._overlayLayers (IARivers.host w')
         = <["Streams" := l']>
             (IndigenousAccessMaps._overlayLayers (IARivers.host w))
       ∧ IndigenousAccessMaps._layerControl (IARivers.host w')
         = IndigenousAccessMaps.control_addOverlay l' "Streams"
             <$> IndigenousAccessMaps._layerControl (IARivers.host w))
  ∧ (∀ (w : IAFloodZones.World) (options : IAFloodZones.Options)
       (o : Settled (list IAFloodZones.FloodFeature)) (l : LayerId)
       (m : IndigenousAccessMaps.LMap),
       IndigenousAccessMaps._map (IAFloodZones.host w) = Some m →
       IAFloodZones._layer w = Some l →
       IAFloodZones.pending w !! length (requests (IAFloodZones.page w))
       = None →
       let w' :=
         IAFloodZones.settle (length (requests (IAFloodZones.page w))) o
           (IAFloodZones.addToMap options w) in
       IAFloodZones._layer w' = Some l
       ∧ IndigenousAccessMaps._overlayLayers (IAFloodZones.host w')
         = <["FEMA Flood Zones" := l]>
             (IndigenousAccessMaps._overlayLayers (IAFloodZones.host w))
       ∧ IndigenousAccessMaps._layerControl (IAFloodZones.host w')
         = IndigenousAccessMaps.control_addOverlay l "FEMA Flood Zones"
             <$> IndigenousAccessMaps._layerControl (IAFloodZones.host w))
  ∧ (∀ (w : IATribalBoundaries.World)
       (options : IATribalBoundaries.Options)
       (data : list IATribalBoundaries.Feature) (l : LayerId)
       (m : IndigenousAccessMaps.LMap),
       IndigenousAccessMaps._map (IATribalBoundaries.host w) = Some m →
       IATribalBoundaries._data w = Some data →
       IATribalBoundaries._layer w = Some l →
       ∃ w',
         IATribalBoundaries.addToMap options w = Returns w'
         ∧ IATribalBoundaries._layer w' = Some l
         ∧ IndigenousAccessMaps._overlayLayers (IATribalBoundaries.host w')
           = <["Tribal Boundaries" := l]>
               (IndigenousAccessMaps._overlayLayers
                  (IATribalBoundaries.host w))
         ∧ IndigenousAccessMaps._layerControl (IATribalBoundaries.host w')
           = IndigenousAccessMaps.control_addOverlay l "Tribal Boundaries"
               <$> IndigenousAccessMaps._layerControl
                     (IATribalBoundaries.host w)).
Proof.
  split; [|split; [|split; [|split; [|split]]]].
  - intros st name l vis m Hm _.
    destruct (addOverlayLayer_registers name l vis st m Hm)
      as (st' & Hadd & Hov & Hctl & _).
    exists st'. split; [done|]. split; [done|]. split; [|done].
    intros Hl. rewrite Hov. by apply insert_id.
  - intros w options d now m. by apply hazard_addToMap_registers.
  - intros w options d g m. by apply gage_addGagesToMap_registers.
  - intros w options data m. by apply stream_addStreamNetworkToMap_registers.
  - intros w options o l m. by apply flood_addToMap_registers.
  - intros w options data l m. by apply tribal_addToMap_registers.
Qed.

End RegistrationProofs.

(** * The refresh loops *)

Section RefreshProofs.

Context `{Engine}.


Lemma hazard_tick_fires (w : IAHazardLayers.World) (t : TimerId)
    (interval : N) (options : IAHazardLayers.Options) :
  IAHazardLayers.timers w !! t = Some (interval, options) →
  let w1 := IAHazardLayers.step w (IAHazardLayers.Fire t) in
  requests (IAHazardLayers.page w1)
  = requests (IAHazardLayers.page w) ++ [IAHazardLayers.alertRequest options]
  ∧ console (IAHazardLayers.page w1) = console (IAHazardLayers.page w)
  ∧ IAHazardLayers.layers w1 = IAHazardLayers.layers w
  ∧ IAHazardLayers._layer w1 = IAHazardLayers._layer w
  ∧ IAHazardLayers.host w1 = IAHazardLayers.host w
  ∧ IAHazardLayers.pending w1 !! length (requests (IAHazardLayers.page w))
    = Some IAHazardLayers.AwaitTick.
Proof.
  intros Ht w1. subst w1. cbn [IAHazardLayers.step]. rewrite Ht.
  unfold IAHazardLayers.tick, IAHazardLayers.fetchAlerts. simpl.
  repeat split; try done. apply lookup_insert_eq.
Qed.

Lemma gage_tick_fires (w : IARivers.World) (t : TimerId)
    (interval : N) (options : IARivers.GageOptions) :
  IARivers.timers w !! t = Some (interval, options) →
  let w1 := IARivers.step w (IARivers.Fire t) in
  requests (IARivers.page w1)
  = requests (IARivers.page w) ++ [IARivers.gageRequest options]
  ∧ console (IARivers.page w1) = console (IARivers.page w)
  ∧ IARivers.gageLayers w1 = IARivers.gageLayers w
  ∧ IARivers._gageLayer w1 = IARivers._gageLayer w
  ∧ IARivers.host w1 = IARivers.host w
  ∧ IARivers.pending w1 !! length (requests (IARivers.page w))
    = Some IARivers.AwaitTick.
Proof.
  intros Ht w1. subst w1. cbn [IARivers.step]. rewrite Ht.
  unfold IARivers.tick, IARivers.fetchGageData. simpl.
  repeat split; try done. apply lookup_insert_eq.
Qed.

(** C5.  For both refresh loops, a tick whose fetch fails (the promise
    rejects, the status is not 2xx, or the body does not parse) leaves
    the layer as it was before the tick began.  When the timer fires,
    the tick sends its request and touches neither the layer nor what
    it holds; when the failure arrives, be it at once or after other
    events, the error of the fetch and then the warning of the tick are
    logged, and the layer, what it holds and the host are as they
    were. *)
Theorem failed_refresh_keeps_layer :
  (∀ (w : IAHazardLayers.World) (t : TimerId) (interval : N)
     (options : IAHazardLayers.Options)
     (o : Settled (list IAHazardLayers.Alert)) (now : Z),
     IAHazardLayers.timers w !! t = Some (interval, options) →
     accepted o = None →
     let w1 := IAHazardLayers.step w (IAHazardLayers.Fire t) in
     let w' :=
       IAHazardLayers.step w1
         (IAHazardLayers.Settle
            (length (requests (IAHazardLayers.page w))) o now) in
     (requests (IAHazardLayers.page w1)
      = requests (IAHazardLayers.page w)
          ++ [IAHazardLayers.alertRequest options]
      ∧ IAHazardLayers.layers w1 = IAHazardLayers.layers w
      ∧ IAHazardLayers._layer w1 = IAHazardLayers._layer w
      ∧ IAHazardLayers.displayed w1 = IAHazardLayers.displayed w)
     ∧ IAHazardLayers.layers w' = IAHazardLayers.layers w
     ∧ IAHazardLayers._layer w' = IAHazardLayers._layer w
     ∧ IAHazardLayers.displayed w' = IAHazardLayers.displayed w
     ∧ IAHazardLayers.host w' = IAHazardLayers.host w
     ∧ console (IAHazardLayers.page w')
       = console (IAHazardLayers.page w)
           ++ [(LogError, "NWS API error:");
               (LogWarn, "Alert refresh failed:")])
  ∧ (∀ (w : IAHazardLayers.World) (i : nat)
       (o : Settled (list IAHazardLayers.Alert)) (now : Z),
       IAHazardLayers.pending w !! i = Some IAHazardLayers.AwaitTick →
       accepted o = None →
       let w' := IAHazardLayers.step w (IAHazardLayers.Settle i o now) in
       IAHazardLayers.layers w' = IAHazardLayers.layers w
       ∧ IAHazardLayers._layer w' = IAHazardLayers._layer w
       ∧ IAHazardLayers.displayed w' = IAHazardLayers.displayed w
       ∧ IAHazardLayers.host w' = IAHazardLayers.host w
       ∧ console (IAHazardLayers.page w')
         = console (IAHazardLayers.page w)
             ++ [(LogError, "NWS API error:");
                 (LogWarn, "Alert refresh failed:")])
  ∧ (∀ (w : IARivers.World) (t : TimerId) (interval : N)
       (options : IARivers.GageOptions) (o : Settled IARivers.UsgsData),
       IARivers.timers w !! t = Some (interval, options) →
       accepted o = None →
       let w1 := IARivers.step w (IARivers.Fire t) in
       let w' :=
         IARivers.step w1
           (IARivers.SettleGages (length (requests (IARivers.page w))) o) in
       (requests (IARivers.page w1)
        = requests (IARivers.page w) ++ [IARivers.gageRequest options]
        ∧ IARivers.gageLayers w1 = IARivers.gageLayers w
        ∧ IARivers._gageLayer w1 = IARivers._gageLayer w
        ∧ IARivers.displayed w1 = IARivers.displayed w)
       ∧ IARivers.gageLayers w' = IARivers.gageLayers w
       ∧ IARivers._gageLayer w' = IARivers._gageLayer w
       ∧ IARivers.displayed w' = IARivers.displayed w
       ∧ IARivers.host w' = IARivers.host w
       ∧ console (IARivers.page w')
         = console (IARivers.page w)
             ++ [(LogError, "USGS API error:");
                 (LogWarn, "Gage refresh failed:")])
  ∧ (∀ (w : IARivers.World) (i : nat) (o : Settled IARivers.UsgsData),
       IARivers.pending w !! i = Some IARivers.AwaitTick →
       accepted o = None →
       let w' := IARivers.step w (IARivers.SettleGages i o) in
       IARivers.gageLayers w' = IARivers.gageLayers w
       ∧ IARivers._gageLayer w' = IARivers._gageLayer w
       ∧ IARivers.displayed w' = IARivers.displayed w
       ∧ IARivers.host w' = IARivers.host w
       ∧ console (IARivers.page w')
         = console (IARivers.page w)
             ++ [(LogError, "USGS API error:");
                 (LogWarn, "Gage refresh failed:")]).
Proof.
  split; [|split; [|split]].
  - intros w t interval options o now Ht Ho w1 w'.
    destruct (hazard_tick_fires w t interval options Ht)
      as (Hq & Hc1 & Hl1 & Hr1 & Hh1 & Hp1).
    fold w1 in Hq, Hc1, Hl1, Hr1, Hh1, Hp1.
    destruct (hazard_failed_tick w1 _ o now Hp1 Ho)
      as (Hl & Hr & Hh & _ & _ & Hc).
    fold w' in Hl, Hr, Hh, Hc.
    assert (Hd1 : IAHazardLayers.displayed w1 = IAHazardLayers.displayed w).
    { unfold IAHazardLayers.displayed. by rewrite Hl1, Hr1. }
    split; [done|].
    split; [congruence|]. split; [congruence|].
    split; [unfold IAHazardLayers.displayed in *; by rewrite Hl, Hr|].
    split; [congruence|]. by rewrite Hc, Hc1.
  - intros w i o now Hp Ho w'.
    destruct (hazard_failed_tick w i o now Hp Ho)
      as (Hl & Hr & Hh & _ & _ & Hc).
    fold w' in Hl, Hr, Hh, Hc.
    repeat split; try done.
    unfold IAHazardLayers.displayed. by rewrite Hl, Hr.
  - intros w t interval options o Ht Ho w1 w'.
    destruct (gage_tick_fires w t interval options Ht)
      as (Hq & Hc1 & Hl1 & Hr1 & Hh1 & Hp1).
    fold w1 in Hq, Hc1, Hl1, Hr1, Hh1, Hp1.
    destruct (gage_failed_tick w1 _ o Hp1 Ho) as (Hl & Hr & Hh & _ & _ & Hc).
    fold w' in Hl, Hr, Hh, Hc.
    assert (Hd1 : IARivers.displayed w1 = IARivers.displayed w).
    { unfold IARivers.displayed. by rewrite Hl1, Hr1. }
    split; [done|].
    split; [congruence|]. split; [congruence|].
    split; [unfold IARivers.displayed in *; by rewrite Hl, Hr|].
    split; [congruence|]. by rewrite Hc, Hc1.
  - intros w i o Hp Ho w'.
    destruct (gage_failed_tick w i o Hp Ho) as (Hl & Hr & Hh & _ & _ & Hc).
    fold w' in Hl, Hr, Hh, Hc.
    repeat split; try done.
    unfold IARivers.displayed. by rewrite Hl, Hr.
Qed.

End RefreshProofs.

(** * The properties at work *)

Section Witnesses.

Import Fixture.


Lemma convertToGeoJSON_one_feature_per_site_witness :
  ∃ fc f,
    IARivers.convertToGeoJSON (Spec.response skagit) = Some fc
    ∧ IARivers.features fc = [f]
    ∧ IARivers.streamflow (IARivers.properties f) = Some 1520%float
    ∧ IARivers.gageHeight (IARivers.properties f) = Some 4.2%float.
Proof.
  destruct (@convertToGeoJSON_one_feature_per_site engine skagit "12200500")
    as (fc & f & Hfc & _ & Hflow & Hheight & _ & Hone).
  - reflexivity.
  - exists (series "12200500" "00060"
              [IARivers.mkReading "1480" "2024-05-02T11:45:00Z";
               IARivers.mkReading "1520" "2024-05-02T12:00:00Z"]).
    split; [left|reflexivity].
  - exists fc, f. split; [done|]. split.
    + apply Hone. intros s Hs.
      apply elem_of_cons in Hs as [->|Hs]; [reflexivity|].
      apply list_elem_of_singleton in Hs as ->. reflexivity.
    + split; [exact Hflow|exact Hheight].
Defined.

Lemma expired_alerts_are_left_out_witness :
  ∃ rendered,
    IAHazardLayers.layers
      (IAHazardLayers.createLayer noon
         [flood_warning; heat_advisory; expired_watch; zone_alert]
         IAHazardLayers.initial).2
    !! (IAHazardLayers.createLayer noon
          [flood_warning; heat_advisory; expired_watch; zone_alert]
          IAHazardLayers.initial).1
    = Some rendered
    ∧ (expired_watch ∉ rendered)
    ∧ (heat_advisory ∈ rendered)
    ∧ (zone_alert ∉ rendered).
Proof.
  destruct (@expired_alerts_are_left_out engine noon
              [flood_warning; heat_advisory; expired_watch; zone_alert]
              IAHazardLayers.initial expired_watch)
    as (rendered & Hr & Hout & _); [right; right; left|].
  destruct (@expired_alerts_are_left_out engine noon
              [flood_warning; heat_advisory; expired_watch; zone_alert]
              IAHazardLayers.initial heat_advisory)
    as (rendered1 & Hr1 & _ & Hin & _); [right; left|].
  destruct (@expired_alerts_are_left_out engine noon
              [flood_warning; heat_advisory; expired_watch; zone_alert]
              IAHazardLayers.initial zone_alert)
    as (rendered2 & Hr2 & _ & _ & Hzone); [right; right; right; left|].
  exists rendered. split; [exact Hr|].
  assert (rendered1 = rendered) as -> by congruence.
  assert (rendered2 = rendered) as -> by congruence.
  split; [|split].
  - apply (Hout "2024-05-01T12:00:00Z" 1714564800000%Z);
      [reflexivity|reflexivity|reflexivity].
  - apply Hin; [reflexivity|]. by eexists.
  - apply Hzone. reflexivity.
Defined.

Lemma loadForCurrentView_debounce_witness :
  requests (IAFloodZones.page
              (IAFloodZones.loadForCurrentView flood_options
                 IAFloodZones.AwaitLoad (flood_moved view_nudged)))
  = requests (IAFloodZones.page (flood_moved view_nudged))
  ∧ requests (IAFloodZones.page
                (IAFloodZones.loadForCurrentView flood_options
                   IAFloodZones.AwaitLoad (flood_moved view_panned)))
    = requests (IAFloodZones.page (flood_moved view_panned))
        ++ [IAFloodZones.floodRequest view_panned flood_options].
Proof.
  split.
  - refine (proj1 (@loadForCurrentView_debounce engine flood_options
                     IAFloodZones.AwaitLoad (flood_moved view_nudged)
                     (IndigenousAccessMaps.mkLMap [] view_nudged) _)
              view _ _ _ _ _); reflexivity.
  - refine (proj1 (proj1 (proj2 (@loadForCurrentView_debounce engine
                     flood_options IAFloodZones.AwaitLoad
                     (flood_moved view_panned)
                     (IndigenousAccessMaps.mkLMap [] view_panned) _))
              view _ _)).
    + reflexivity.
    + reflexivity.
    + left. reflexivity.
Defined.

Lemma failed_refresh_keeps_layer_witness :
  IAHazardLayers.displayed
    (IAHazardLayers.run on_map
       [IAHazardLayers.Fire 1%positive;
        IAHazardLayers.Settle 1 (Response false 503 None) noon])
  = Some [flood_warning]
  ∧ IAHazardLayers.displayed
      (IAHazardLayers.step two_ticks
         (IAHazardLayers.Settle 1 (Response false 503 None) noon))
    = Some [flood_warning]
  ∧ IARivers.displayed
      (IARivers.run gages_on_map
         [IARivers.Fire 1%positive; IARivers.SettleGages 1 Rejected])
    = IARivers.displayed gages_on_map
  ∧ IARivers.displayed
      (IARivers.step gages_two_ticks (IARivers.SettleGages 1 Rejected))
    = IARivers.displayed gages_on_map.
Proof.
  split; [|split; [|split]].
  - destruct (proj1 (@failed_refresh_keeps_layer engine) on_map 1%positive
                300000%N (IAHazardLayers.withDefaultArea no_options)
                (Response false 503 None) noon)
      as (_ & _ & _ & Hd & _); [reflexivity|reflexivity|].
    etransitivity; [exact Hd|]. reflexivity.
  - destruct (proj1 (proj2 (@failed_refresh_keeps_layer engine)) two_ticks 1
                (Response false 503 None) noon)
      as (_ & _ & Hd & _); [reflexivity|reflexivity|].
    rewrite Hd. reflexivity.
  - destruct (proj1 (proj2 (proj2 (@failed_refresh_keeps_layer engine)))
                gages_on_map 1%positive 900000%N
                (IARivers.withDefaultStates no_gage_options) Rejected)
      as (_ & _ & _ & Hd & _); [reflexivity|reflexivity|].
    exact Hd.
  - destruct (proj2 (proj2 (proj2 (@failed_refresh_keeps_layer engine)))
                gages_two_ticks 1 Rejected)
      as (_ & _ & Hd & _); [reflexivity|reflexivity|].
    rewrite Hd. reflexivity.
Defined.


Lemma addToMap_again_registers_again_witness :
  IndigenousAccessMaps._overlayLayers (IAHazardLayers.host on_map)
  !! "Weather Alerts" = Some 0
  ∧ IndigenousAccessMaps._overlayLayers
      (IAHazardLayers.host
         (IAHazardLayers.settle 1 (Claims.ok [flood_warning]) noon
            (IAHazardLayers.addToMap no_options on_map)))
    !! "Weather Alerts" = Some 1
  ∧ (∃ st',
       IndigenousAccessMaps.addOverlayLayer "Weather Alerts" 1 true
         (IAHazardLayers.host on_map) = Returns st'
       ∧ IndigenousAccessMaps._layerControl st'
         = Some [(0, "Weather Alerts"); (1, "Weather Alerts")])
  ∧ (λ c : list (LayerId * string), c.*2)
      <$> IndigenousAccessMaps._layerControl
            (IARivers.host
               (IARivers.settleGages 1
                  (Claims.ok_gages (Spec.response skagit_later))
                  (IARivers.addGagesToMap no_gage_options gages_on_map)))
    = Some ["River Gages"; "River Gages"]
  ∧ (λ c : list (LayerId * string), c.*2)
      <$> IndigenousAccessMaps._layerControl
            (IARivers.host
               (IARivers.settleStreams 2 (Response true 200 (Some []))
                  (IARivers.addStreamNetworkToMap no_stream_options
                     streams_on_map)))
    = Some ["River Gages"; "Streams"; "Streams"]
  ∧ IndigenousAccessMaps._layerControl
      (IAFloodZones.host
         (IAFloodZones.settle 1 Rejected
            (IAFloodZones.addToMap flood_options flood_on_map)))
    = Some [(0, "FEMA Flood Zones"); (0, "FEMA Flood Zones")]
  ∧ (∃ w',
       IATribalBoundaries.addToMap (IATribalBoundaries.mkOptions None)
         boundaries_on_map = Returns w'
       ∧ IndigenousAccessMaps._layerControl (IATribalBoundaries.host w')
         = Some [(2, "Tribal Boundaries"); (2, "Tribal Boundaries")]).
Proof.
  pose proof (@addToMap_again_registers_again engine)
    as (Hhost & Hweather & Hgages & Hstreams & Hflood & Htribal).
  split; [reflexivity|]. split; [|split; [|split; [|split; [|split]]]].
  - refine (proj1 (proj2 (proj2 (Hweather on_map no_options [flood_warning]
              noon (IndigenousAccessMaps.mkLMap [0] view) _)))).
    reflexivity.
  - destruct (Hhost (IAHazardLayers.host on_map) "Weather Alerts" 1 true
                (IndigenousAccessMaps.mkLMap [0] view))
      as (st' & Hadd & _ & _ & Hctl); [reflexivity|discriminate|].
    exists st'. split; [exact Hadd|]. rewrite Hctl. reflexivity.
  - destruct (Hgages gages_on_map no_gage_options
                (Spec.response skagit_later)
                (default (IARivers.mkFeatureCollection [])
                   (IARivers.convertToGeoJSON (Spec.response skagit_later)))
                (IndigenousAccessMaps.mkLMap [0] view))
      as (_ & _ & Hctl); [reflexivity|reflexivity|].
    exact (f_equal (fmap (λ c : list (LayerId * string), c.*2)) Hctl).
  - destruct (Hstreams streams_on_map no_stream_options []
                (IndigenousAccessMaps.mkLMap [0; 1] view))
      as (_ & _ & Hctl); [reflexivity|].
    exact (f_equal (fmap (λ c : list (LayerId * string), c.*2)) Hctl).
  - destruct (Hflood flood_on_map flood_options Rejected 0
                (IndigenousAccessMaps.mkLMap [0] view))
      as (_ & _ & Hctl); [reflexivity|reflexivity|reflexivity|].
    exact Hctl.
  - destruct (Htribal boundaries_on_map (IATribalBoundaries.mkOptions None)
                (IATribalBoundaries.parsed 0 [yakama; lummi]) 2
                (IndigenousAccessMaps.mkLMap [2] view))
      as (w' & Hadd & _ & _ & Hctl); [reflexivity|reflexivity|reflexivity|].
    exists w'. split; [exact Hadd|]. rewrite Hctl. reflexivity.
Defined.

Lemma zoneFilter_where_witness :
  URLSearchParams.get
    (query (IAFloodZones.floodRequest view flood_options)) "where"
  = Some "FLD_ZONE IN ('AE','X')".
Proof.
  refine (proj1 (@zoneFilter_where engine view flood_options _)).
  reflexivity.
Defined.

Lemma convertToGeoJSON_absent_fields_witness :
  IARivers.convertToGeoJSON (IARivers.mkUsgsData None)
  = Some (IARivers.mkFeatureCollection [])
  ∧ IARivers.convertToGeoJSON
      (IARivers.mkUsgsData (Some (IARivers.mkUsgsValue None)))
    = Some (IARivers.mkFeatureCollection []).
Proof.
  split.
  - apply (@convertToGeoJSON_absent_fields engine). left. reflexivity.
  - apply (@convertToGeoJSON_absent_fields engine). right.
    eexists. split; reflexivity.
Defined.

End Witnesses.

(** * Queries over the cached alerts *)

Section AlertQueryProofs.

Import IAHazardLayers.

(** How many alerts of [fs] count under severity key [k]. *)
Lemma countAlert_lookup (counts : gmap string N) (f : Alert) (k : string) :
  default 0%N (countAlert counts f !! k)
  = (default 0 (counts !! k)
     + (if decide (severityOf f = k) then 1 else 0)
     + (if decide (k = "total") then 1 else 0))%N.
Proof.
  unfold countAlert.
  destruct (decide (k = "total")) as [->|Hk].
  - rewrite lookup_insert_eq. simpl.
    destruct (decide (severityOf f = "total")) as [->|Hs].
    + rewrite lookup_insert_eq. simpl. lia.
    + rewrite lookup_insert_ne by done. lia.
  - rewrite lookup_insert_ne by done.
    destruct (decide (severityOf f = k)) as [->|Hs].
    + rewrite lookup_insert_eq. simpl. lia.
    + rewrite lookup_insert_ne by done. lia.
Qed.

Lemma foldl_countAlert (fs : list Alert) (counts : gmap string N) (k : string) :
  default 0%N (foldl countAlert counts fs !! k)
  = (default 0 (counts !! k)
     + N.of_nat (length (List.filter (λ f, bool_decide (severityOf f = k)) fs))
     + (if decide (k = "total") then N.of_nat (length fs) else 0))%N.
Proof.
  revert counts. induction fs as [|f fs IH]; intros counts; simpl.
  - destruct (decide (k = "total")); lia.
  - rewrite IH, countAlert_lookup.
    destruct (decide (severityOf f = k)) as [Hs|Hs].
    + rewrite bool_decide_eq_true_2 by done. simpl.
      destruct (decide (k = "total")); lia.
    + rewrite bool_decide_eq_false_2 by done.
      destruct (decide (k = "total")); lia.
Qed.

Lemma noCounts_lookup (k : string) : default 0%N (noCounts !! k) = 0%N.
Proof.
  unfold noCounts.
  repeat (rewrite lookup_insert; case_decide; [done|]).
  by rewrite lookup_empty.
Qed.

(** X1.  [getAlertCounts] over the cached alerts: under a severity name
    the count is the number of alerts that carry this severity, an
    alert without one counting as [Unknown]; [total] is the number of
    all alerts, to which the alerts whose severity reads [total] are
    added once more.  The name is none of those that the counts object
    inherits. *)
Theorem getAlertCounts_tally (w : World) (fs : list Alert) (k : string) :
  _data w = Some fs → own_name k = true →
  default 0%N (getAlertCounts w !! k)
  = (N.of_nat (length (List.filter (λ f, bool_decide (severityOf f = k)) fs))
     + (if decide (k = "total") then N.of_nat (length fs) else 0))%N.
Proof.
  intros Hd _. unfold getAlertCounts. rewrite Hd.
  rewrite foldl_countAlert, noCounts_lookup. lia.
Qed.

Lemma filter_nonempty {A} (p : A → bool) (l : list A) :
  (0 < length (List.filter p l)) ↔ ∃ x, x ∈ l ∧ p x = true.
Proof.
  split.
  - destruct (List.filter p l) as [|x r] eqn:E; simpl; [lia|]. intros _.
    assert (Hx : In x (List.filter p l)) by (rewrite E; left; done).
    apply filter_In in Hx as [Hx Hp]. exists x.
    split; [by apply list_elem_of_In|done].
  - intros (x & Hx & Hp).
    assert (Hin : In x (List.filter p l)).
    { apply filter_In. split; [by apply list_elem_of_In|done]. }
    destruct (List.filter p l); [done|simpl; lia].
Qed.

Lemma severityOf_named (f : Alert) (sev : string) :
  truthy sev = true → sev ≠ "Unknown" →
  severityOf f = sev ↔ severity f = Some sev.
Proof.
  intros Ht Hu. unfold severityOf.
  destruct (severity f) as [s|]; [|split; [congruence|done]].
  destruct (truthy s) eqn:Hs.
  - split; congruence.
  - split; [congruence|]. intros [= ->]. congruence.
Qed.

Lemma tally_named (fs : list Alert) (sev : string) :
  truthy sev = true → sev ≠ "Unknown" →
  List.filter (λ f, bool_decide (severityOf f = sev)) fs
  = List.filter (λ f, bool_decide (severity f = Some sev)) fs.
Proof.
  intros Ht Hu. induction fs as [|f fs IH]; simpl; [done|].
  rewrite IH.
  destruct (decide (severity f = Some sev)) as [Hs|Hs].
  - rewrite !bool_decide_eq_true_2; [done|done|by apply severityOf_named].
  - rewrite !bool_decide_eq_false_2; [done|done|].
    by rewrite severityOf_named.
Qed.

(** X2.  [hasHighSeverityAlerts] answers [true] exactly when some cached
    alert has the severity [Extreme] or [Severe]. *)
Theorem hasHighSeverityAlerts_iff (w : World) (fs : list Alert) :
  _data w = Some fs →
  hasHighSeverityAlerts w = true
  ↔ ∃ f, f ∈ fs
         ∧ (severity f = Some "Extreme" ∨ severity f = Some "Severe").
Proof.
  intros Hd. unfold hasHighSeverityAlerts, getAlertCounts. rewrite Hd.
  rewrite !foldl_countAlert, !noCounts_lookup.
  rewrite !decide_False by done.
  rewrite !tally_named by done.
  rewrite orb_true_iff, !N.ltb_lt.
  split.
  - intros [H|H].
    + assert (H' : 0 < length (List.filter
        (λ f, bool_decide (severity f = Some "Extreme")) fs)) by lia.
      apply filter_nonempty in H' as (f & Hf & Hp).
      exists f. split; [done|]. left. by apply bool_decide_eq_true in Hp.
    + assert (H' : 0 < length (List.filter
        (λ f, bool_decide (severity f = Some "Severe")) fs)) by lia.
      apply filter_nonempty in H' as (f & Hf & Hp).
      exists f. split; [done|]. right. by apply bool_decide_eq_true in Hp.
  - intros (f & Hf & [Hs|Hs]).
    + left.
      assert (H' : 0 < length (List.filter
        (λ f, bool_decide (severity f = Some "Extreme")) fs)).
      { apply filter_nonempty. exists f. split; [done|].
        by apply bool_decide_eq_true. }
      lia.
    + right.
      assert (H' : 0 < length (List.filter
        (λ f, bool_decide (severity f = Some "Severe")) fs)).
      { apply filter_nonempty. exists f. split; [done|].
        by apply bool_decide_eq_true. }
      lia.
Qed.

Lemma filter_length_le {A} (p q : A → bool) (l : list A) :
  (∀ x, p x = true → q x = true) →
  (length (List.filter p l) <= length (List.filter q l))%nat.
Proof.
  intros Hpq. induction l as [|x l IH]; simpl; [done|].
  destruct (p x) eqn:Hp.
  - rewrite (Hpq x Hp). simpl. lia.
  - destruct (q x); simpl; lia.
Qed.

(** X3.  [getAlertCounts] and [getAlertsBySeverity] agree on every named
    severity other than [Unknown] and [total]: the count is the length
    of the list.  Under [Unknown] the count may be larger, since the
    alerts without a severity are counted there and are not listed. *)
Theorem getAlertsBySeverity_counts (w : World) (fs : list Alert) :
  _data w = Some fs →
  (∀ sev, truthy sev = true → sev ≠ "Unknown" → sev ≠ "total" →
     own_name sev = true →
     default 0%N (getAlertCounts w !! sev)
     = N.of_nat (length (getAlertsBySeverity sev w)))
  ∧ (N.of_nat (length (getAlertsBySeverity "Unknown" w))
     ≤ default 0 (getAlertCounts w !! "Unknown"))%N.
Proof.
  intros Hd. unfold getAlertCounts, getAlertsBySeverity. rewrite Hd. split.
  - intros sev Ht Hu Htot _.
    rewrite foldl_countAlert, noCounts_lookup.
    rewrite decide_False by done. rewrite tally_named by done. lia.
  - rewrite foldl_countAlert, noCounts_lookup.
    rewrite decide_False by done.
    assert (Hle := filter_length_le
      (λ f, bool_decide (severity f = Some "Unknown"))
      (λ f, bool_decide (severityOf f = "Unknown")) fs).
    cut (length (List.filter (λ f, bool_decide (severity f = Some "Unknown")) fs)
         <= length (List.filter (λ f, bool_decide (severityOf f = "Unknown")) fs))%nat;
      [lia|].
    apply Hle. intros f Hf. apply bool_decide_eq_true in Hf.
    apply bool_decide_eq_true. unfold severityOf. by rewrite Hf.
Qed.

Lemma filterM_None {A} (p : A → option bool) (l : list A) :
  filterM p l = None ↔ ∃ x, x ∈ l ∧ p x = None.
Proof.
  induction l as [|x l IH]; simpl.
  - split; [done|]. intros (x & Hx & _). by apply elem_of_nil in Hx.
  - destruct (p x) as [b|] eqn:Hp.
    + destruct (filterM p l) as [r|] eqn:Hr.
      * split; [done|]. intros (y & Hy & Hpy).
        apply elem_of_cons in Hy as [->|Hy]; [congruence|].
        assert (Hnone : (None : option (list A)) = None) by done.
        destruct IH as [_ IH]. discriminate IH. eauto.
      * split; [|done]. intros _.
        destruct IH as [IH _]. destruct (IH eq_refl) as (y & Hy & Hpy).
        exists y. split; [by right|done].
    + split; [|done]. intros _. exists x. split; [left|done].
Qed.

Lemma filterM_Some {A} (p : A → option bool) (l r : list A) :
  filterM p l = Some r →
  r = List.filter (λ x, default false (p x)) l.
Proof.
  revert r. induction l as [|x l IH]; intros r; simpl.
  - by intros [= <-].
  - destruct (p x) as [b|]; [|done].
    destruct (filterM p l) as [r'|]; [|done].
    intros [= <-]. simpl. rewrite (IH r' eq_refl). by destruct b.
Qed.

(** X4.  [getAlertsByEvent] throws exactly when some cached alert has no
    [event] property.  When it returns, the result is the cached alerts
    whose event contains the query, both in lower case and in the order
    of the cache; the empty query returns them all. *)
Theorem getAlertsByEvent_throws_iff (eventType : string) (w : World)
    (fs : list Alert) :
  _data w = Some fs →
  (getAlertsByEvent eventType w = None ↔ ∃ f, f ∈ fs ∧ event f = None)
  ∧ (∀ r, getAlertsByEvent eventType w = Some r →
       r = List.filter
             (λ f, default false (eventMatches eventType f)) fs)
  ∧ ((∀ f, f ∈ fs → is_Some (event f)) →
       getAlertsByEvent EmptyString w = Some fs).
Proof.
  intros Hd. unfold getAlertsByEvent. rewrite Hd. split; [|split].
  - rewrite filterM_None. split.
    + intros (f & Hf & Hm). exists f. split; [done|].
      unfold eventMatches in Hm. by destruct (event f).
    + intros (f & Hf & He). exists f. split; [done|].
      unfold eventMatches. by rewrite He.
  - intros r. apply filterM_Some.
  - intros Hall. induction fs as [|f fs IH] in Hall |- *; simpl; [done|].
    destruct (Hall f ltac:(left)) as [e He].
    unfold eventMatches at 1. rewrite He. simpl.
    rewrite IH; [|intros g Hg; apply Hall; by right].
    by destruct (toLowerCase e).
Qed.

End AlertQueryProofs.

(** * The refresh timers *)

Section TimerProofs.

Context `{Engine}.

(** The armed timers are the one handle the module holds, if any. *)
Lemma hazard_stop_timers (w : IAHazardLayers.World) :
  dom (IAHazardLayers.timers w)
  = from_option singleton ∅ (IAHazardLayers._refreshInterval w) →
  IAHazardLayers.timers (IAHazardLayers.stopAutoRefresh w) = ∅
  ∧ IAHazardLayers._refreshInterval (IAHazardLayers.stopAutoRefresh w) = None.
Proof.
  intros Hinv. unfold IAHazardLayers.stopAutoRefresh.
  destruct (IAHazardLayers._refreshInterval w) as [t|] eqn:Hr; simpl in *.
  - split; [|done]. apply dom_empty_inv_L.
    rewrite dom_delete_L, Hinv. apply difference_diag_L.
  - rewrite Hr. split; [|done]. by apply dom_empty_inv_L.
Qed.

Lemma hazard_start_timers (interval : N) (options : IAHazardLayers.Options)
    (w : IAHazardLayers.World) :
  dom (IAHazardLayers.timers w)
  = from_option singleton ∅ (IAHazardLayers._refreshInterval w) →
  let w' := IAHazardLayers.startAutoRefresh interval options w in
  dom (IAHazardLayers.timers w')
  = from_option singleton ∅ (IAHazardLayers._refreshInterval w').
Proof.
  intros Hinv. unfold IAHazardLayers.startAutoRefresh.
  destruct (hazard_stop_timers w Hinv) as [Ht Hr].
  revert Ht Hr. generalize (IAHazardLayers.stopAutoRefresh w). intros w0 Ht Hr.
  simpl. rewrite Ht, dom_insert_L, dom_empty_L. apply (right_id_L ∅ (∪)).
Qed.

Lemma hazard_removeFromMap_timers (w : IAHazardLayers.World) :
  IAHazardLayers.timers (state_of (IAHazardLayers.removeFromMap w))
  = IAHazardLayers.timers (IAHazardLayers.stopAutoRefresh w)
  ∧ IAHazardLayers._refreshInterval (state_of (IAHazardLayers.removeFromMap w))
    = IAHazardLayers._refreshInterval (IAHazardLayers.stopAutoRefresh w).
Proof.
  unfold IAHazardLayers.removeFromMap.
  generalize (IAHazardLayers.stopAutoRefresh w). intros w0.
  repeat case_match; done.
Qed.

Lemma hazard_step_timers (w : IAHazardLayers.World) (e : IAHazardLayers.Event) :
  dom (IAHazardLayers.timers w)
  = from_option singleton ∅ (IAHazardLayers._refreshInterval w) →
  dom (IAHazardLayers.timers (IAHazardLayers.step w e))
  = from_option singleton ∅
      (IAHazardLayers._refreshInterval (IAHazardLayers.step w e)).
Proof.
  intros Hinv.
  destruct e as [view controls|options| |options|interval options| |t|i o now];
    cbn [IAHazardLayers.step].
  - done.
  - unfold IAHazardLayers.addToMap.
    by destruct (IndigenousAccessMaps.getMap (IAHazardLayers.host w)).
  - destruct (hazard_stop_timers w Hinv) as [Ht Hr].
    destruct (hazard_removeFromMap_timers w) as [-> ->].
    rewrite Ht, Hr. by rewrite dom_empty_L.
  - unfold IAHazardLayers.refresh. by destruct (IAHazardLayers._layer w).
  - by apply hazard_start_timers.
  - destruct (hazard_stop_timers w Hinv) as [-> ->]. by rewrite dom_empty_L.
  - by destruct (IAHazardLayers.timers w !! t) as [[? ?]|].
  - unfold IAHazardLayers.settle.
    destruct (IAHazardLayers.pending w !! i) as [[options alertOptions| |]|];
      [| | |done].
    + unfold IAHazardLayers.addToMap_settled, IAHazardLayers.fetchAlerts_settled.
      destruct (accepted o); simpl; [|done].
      destruct (IndigenousAccessMaps.addOverlayLayer _ _ _ _); [|done].
      destruct (not_false (IAHazardLayers.autoRefresh options)); [|done].
      by apply hazard_start_timers.
    + unfold IAHazardLayers.tick_settled, IAHazardLayers.fetchAlerts_settled.
      destruct (accepted o); simpl; [|done].
      by destruct (IAHazardLayers._layer w) eqn:E.
    + unfold IAHazardLayers.refresh_settled, IAHazardLayers.fetchAlerts_settled.
      destruct (accepted o); simpl; [|done].
      by destruct (IAHazardLayers._layer w) eqn:E.
Qed.

Lemma hazard_run_timers (es : list IAHazardLayers.Event) :
  dom (IAHazardLayers.timers (IAHazardLayers.run IAHazardLayers.initial es))
  = from_option singleton ∅
      (IAHazardLayers._refreshInterval
         (IAHazardLayers.run IAHazardLayers.initial es)).
Proof.
  induction es as [|e es IH] using rev_ind.
  - simpl. by rewrite dom_empty_L.
  - unfold IAHazardLayers.run. rewrite foldl_snoc.
    by apply hazard_step_timers.
Qed.

Lemma gage_stop_timers (w : IARivers.World) :
  dom (IARivers.timers w)
  = from_option singleton ∅ (IARivers._refreshInterval w) →
  IARivers.timers (IARivers.stopAutoRefresh w) = ∅
  ∧ IARivers._refreshInterval (IARivers.stopAutoRefresh w) = None.
Proof.
  intros Hinv. unfold IARivers.stopAutoRefresh.
  destruct (IARivers._refreshInterval w) as [t|] eqn:Hr; simpl in *.
  - split; [|done]. apply dom_empty_inv_L.
    rewrite dom_delete_L, Hinv. apply difference_diag_L.
  - rewrite Hr. split; [|done]. by apply dom_empty_inv_L.
Qed.

Lemma gage_start_timers (interval : N) (options : IARivers.GageOptions)
    (w : IARivers.World) :
  dom (IARivers.timers w)
  = from_option singleton ∅ (IARivers._refreshInterval w) →
  let w' := IARivers.startAutoRefresh interval options w in
  dom (IARivers.timers w')
  = from_option singleton ∅ (IARivers._refreshInterval w').
Proof.
  intros Hinv. unfold IARivers.startAutoRefresh.
  destruct (gage_stop_timers w Hinv) as [Ht Hr].
  revert Ht Hr. generalize (IARivers.stopAutoRefresh w). intros w0 Ht Hr.
  simpl. rewrite Ht, dom_insert_L, dom_empty_L. apply (right_id_L ∅ (∪)).
Qed.

Lemma gage_removeFromMap_timers (w : IARivers.World) :
  IARivers.timers (state_of (IARivers.removeFromMap w))
  = IARivers.timers (IARivers.stopAutoRefresh w)
  ∧ IARivers._refreshInterval (state_of (IARivers.removeFromMap w))
    = IARivers._refreshInterval (IARivers.stopAutoRefresh w).
Proof.
  unfold IARivers.removeFromMap.
  generalize (IARivers.stopAutoRefresh w). intros w0.
  destruct (IARivers._gageLayer w0) eqn:Eg;
    [destruct (IndigenousAccessMaps.removeOverlayLayer "River Gages" _)|];
    simpl; [| done |];
    (destruct (IARivers._streamLayer w0) eqn:Es;
     [destruct (IndigenousAccessMaps.removeOverlayLayer "Streams" _)|]);
    done.
Qed.

Lemma gage_step_timers (w : IARivers.World) (e : IARivers.Event) :
  dom (IARivers.timers w)
  = from_option singleton ∅ (IARivers._refreshInterval w) →
  dom (IARivers.timers (IARivers.step w e))
  = from_option singleton ∅ (IARivers._refreshInterval (IARivers.step w e)).
Proof.
  intros Hinv.
  destruct e as [view controls|name vis|name|options|options| |interval options| |t|i o|i o];
    cbn [IARivers.step].
  - done.
  - done.
  - done.
  - unfold IARivers.addGagesToMap.
    by destruct (IndigenousAccessMaps.getMap (IARivers.host w)).
  - unfold IARivers.addStreamNetworkToMap.
    by destruct (IndigenousAccessMaps.getMap (IARivers.host w)).
  - destruct (gage_stop_timers w Hinv) as [Ht Hr].
    destruct (gage_removeFromMap_timers w) as [-> ->].
    rewrite Ht, Hr. by rewrite dom_empty_L.
  - by apply gage_start_timers.
  - destruct (gage_stop_timers w Hinv) as [-> ->]. by rewrite dom_empty_L.
  - by destruct (IARivers.timers w !! t) as [[? ?]|].
  - unfold IARivers.settleGages.
    destruct (IARivers.pending w !! i) as [[options gageOptions| |]|];
      [| | done|done].
    + unfold IARivers.addGagesToMap_settled, IARivers.fetchGageData_settled.
      destruct (accepted o); simpl; [|done].
      destruct (IARivers.convertToGeoJSON u); simpl; [|done].
      destruct (IndigenousAccessMaps.addOverlayLayer _ _ _ _); [|done].
      destruct (not_false (IARivers.autoRefresh options)); [|done].
      by apply gage_start_timers.
    + unfold IARivers.tick_settled, IARivers.fetchGageData_settled.
      destruct (accepted o); simpl; [|done].
      destruct (IARivers.convertToGeoJSON u); simpl; [|done].
      by destruct (IARivers._gageLayer w) eqn:E.
  - unfold IARivers.settleStreams.
    destruct (IARivers.pending w !! i) as [[| |options]|]; try done.
    unfold IARivers.addStreamNetworkToMap_settled,
      IARivers.queryStreamNetwork_settled.
    destruct o as [|[] status [data|]]; try done.
    simpl. by destruct (IndigenousAccessMaps.addOverlayLayer _ _ _ _).
Qed.

Lemma gage_run_timers (es : list IARivers.Event) :
  dom (IARivers.timers (IARivers.run IARivers.initial es))
  = from_option singleton ∅
      (IARivers._refreshInterval (IARivers.run IARivers.initial es)).
Proof.
  induction es as [|e es IH] using rev_ind.
  - simpl. by rewrite dom_empty_L.
  - unfold IARivers.run. rewrite foldl_snoc. by apply gage_step_timers.
Qed.

(** X5.  At most one refresh timer is armed, in the weather adapter and in
    the gage adapter: after any sequence of events from the start, a
    timer is armed exactly when it is the handle that [_refreshInterval]
    holds, so that [startAutoRefresh] never leaves an older timer
    running. *)
Theorem one_refresh_timer :
  (∀ (es : list IAHazardLayers.Event) (t : TimerId),
     is_Some (IAHazardLayers.timers
                (IAHazardLayers.run IAHazardLayers.initial es) !! t)
     ↔ IAHazardLayers._refreshInterval
         (IAHazardLayers.run IAHazardLayers.initial es) = Some t)
  ∧ (∀ (es : list IARivers.Event) (t : TimerId),
       is_Some (IARivers.timers (IARivers.run IARivers.initial es) !! t)
       ↔ IARivers._refreshInterval (IARivers.run IARivers.initial es)
         = Some t).
Proof.
  split; intros es t; rewrite <- elem_of_dom.
  - rewrite hazard_run_timers.
    destruct (IAHazardLayers._refreshInterval _) as [t'|]; simpl.
    + rewrite elem_of_singleton. split; congruence.
    + split; [intros Hin; by apply not_elem_of_empty in Hin|done].
  - rewrite gage_run_timers.
    destruct (IARivers._refreshInterval _) as [t'|]; simpl.
    + rewrite elem_of_singleton. split; congruence.
    + split; [intros Hin; by apply not_elem_of_empty in Hin|done].
Qed.


End TimerProofs.

(** * Loading, refreshing and leaving *)

Section LoadProofs.

Context `{Engine}.

(** X7.  A first load that fails leaves nothing behind.  When the request
    of [addToMap] (weather) or [addGagesToMap] (gages) is rejected or
    answered with an error status, or when the gage payload cannot be
    converted, no layer is made, nothing is registered with the host,
    no refresh timer is armed, and the error is logged. *)
Theorem failed_initial_load_makes_no_layer :
  (∀ (w : IAHazardLayers.World) (options : IAHazardLayers.Options)
     (o : Settled (list IAHazardLayers.Alert)) (now : Z)
     (m : IndigenousAccessMaps.LMap),
     IndigenousAccessMaps._map (IAHazardLayers.host w) = Some m →
     accepted o = None →
     let w' :=
       IAHazardLayers.settle (length (requests (IAHazardLayers.page w))) o now
         (IAHazardLayers.addToMap options w) in
     IAHazardLayers._layer w' = IAHazardLayers._layer w
     ∧ IAHazardLayers.layers w' = IAHazardLayers.layers w
     ∧ IAHazardLayers.host w' = IAHazardLayers.host w
     ∧ IAHazardLayers.timers w' = IAHazardLayers.timers w
     ∧ IAHazardLayers._data w' = IAHazardLayers._data w
     ∧ console (IAHazardLayers.page w')
       = console (IAHazardLayers.page w)
           ++ [(LogError, "NWS API error:");
               (LogError,
                "IndigenousAccessMaps: Failed to load weather alerts")])
  ∧ (∀ (w : IARivers.World) (options : IARivers.GageOptions)
       (o : Settled IARivers.UsgsData) (m : IndigenousAccessMaps.LMap),
       IndigenousAccessMaps._map (IARivers.host w) = Some m →
       let w' :=
         IARivers.settleGages (length (requests (IARivers.page w))) o
           (IARivers.addGagesToMap options w) in
       (accepted o = None →
        IARivers._gageLayer w' = IARivers._gageLayer w
        ∧ IARivers.gageLayers w' = IARivers.gageLayers w
        ∧ IARivers.host w' = IARivers.host w
        ∧ IARivers.timers w' = IARivers.timers w
        ∧ console (IARivers.page w')
          = console (IARivers.page w)
              ++ [(LogError, "USGS API error:");
                  (LogError,
                   "IndigenousAccessMaps: Failed to load river gages")])
       ∧ (∀ d, accepted o = Some d → IARivers.convertToGeoJSON d = None →
          IARivers._gageLayer w' = IARivers._gageLayer w
          ∧ IARivers.gageLayers w' = IARivers.gageLayers w
          ∧ IARivers.host w' = IARivers.host w
          ∧ IARivers.timers w' = IARivers.timers w
          ∧ console (IARivers.page w')
            = console (IARivers.page w)
                ++ [(LogError,
                     "IndigenousAccessMaps: Failed to load river gages")])).
Proof.
  split.
  - intros w options o now m Hm Ho w'. subst w'.
    unfold IAHazardLayers.addToMap, IndigenousAccessMaps.getMap. rewrite Hm.
    unfold IAHazardLayers.fetchAlerts, IAHazardLayers.settle. simpl.
    rewrite lookup_insert_eq.
    unfold IAHazardLayers.addToMap_settled, IAHazardLayers.fetchAlerts_settled.
    rewrite Ho. simpl. by rewrite <- app_assoc.
  - intros w options o m Hm w'. subst w'.
    unfold IARivers.addGagesToMap, IndigenousAccessMaps.getMap. rewrite Hm.
    unfold IARivers.fetchGageData, IARivers.settleGages. simpl.
    rewrite lookup_insert_eq.
    unfold IARivers.addGagesToMap_settled, IARivers.fetchGageData_settled.
    split.
    + intros Ho. rewrite Ho. simpl. by rewrite <- app_assoc.
    + intros d Ho Hd. rewrite Ho. simpl. rewrite Hd. simpl. done.
Qed.

Lemma hazard_tick_step (w : IAHazardLayers.World) (e : IAHazardLayers.Event) :
  (∀ i k, IAHazardLayers.pending w !! i = Some k → k = IAHazardLayers.AwaitTick) →
  match e with
  | IAHazardLayers.Fire _ | IAHazardLayers.Settle _ _ _ => True
  | _ => False
  end →
  let w' := IAHazardLayers.step w e in
  (∀ i k, IAHazardLayers.pending w' !! i = Some k → k = IAHazardLayers.AwaitTick)
  ∧ IAHazardLayers.host w' = IAHazardLayers.host w
  ∧ IAHazardLayers._layer w' = IAHazardLayers._layer w
  ∧ IAHazardLayers._refreshInterval w' = IAHazardLayers._refreshInterval w
  ∧ IAHazardLayers.timers w' = IAHazardLayers.timers w.
Proof.
  intros Hp He.
  destruct e as [view controls|options| |options|interval options| |t|i o now];
    try done; cbn [IAHazardLayers.step].
  - destruct (IAHazardLayers.timers w !! t) as [[? options]|]; [|done].
    repeat split; try done.
    intros i k. unfold IAHazardLayers.tick, IAHazardLayers.fetchAlerts. simpl.
    rewrite lookup_insert. case_decide; [by intros [= <-]|apply Hp].
  - unfold IAHazardLayers.settle.
    destruct (IAHazardLayers.pending w !! i) as [k|] eqn:Hk; [|done].
    rewrite (Hp i k Hk).
    unfold IAHazardLayers.tick_settled, IAHazardLayers.fetchAlerts_settled.
    assert (Hdel : ∀ i' k', delete i (IAHazardLayers.pending w) !! i' = Some k'
                            → k' = IAHazardLayers.AwaitTick).
    { intros i' k'. rewrite lookup_delete. case_decide; [done|apply Hp]. }
    destruct (accepted o); simpl; [|done].
    by destruct (IAHazardLayers._layer w) eqn:E.
Qed.

Lemma gage_tick_step (w : IARivers.World) (e : IARivers.Event) :
  (∀ i k, IARivers.pending w !! i = Some k → k = IARivers.AwaitTick) →
  match e with
  | IARivers.Fire _ | IARivers.SettleGages _ _ => True
  | _ => False
  end →
  let w' := IARivers.step w e in
  (∀ i k, IARivers.pending w' !! i = Some k → k = IARivers.AwaitTick)
  ∧ IARivers.host w' = IARivers.host w
  ∧ IARivers._gageLayer w' = IARivers._gageLayer w
  ∧ IARivers._refreshInterval w' = IARivers._refreshInterval w
  ∧ IARivers.timers w' = IARivers.timers w.
Proof.
  intros Hp He.
  destruct e as [view controls|name vis|name|options|options| |interval options| |t|i o|i o];
    try done; cbn [IARivers.step].
  - destruct (IARivers.timers w !! t) as [[? options]|]; [|done].
    repeat split; try done.
    intros i k. unfold IARivers.tick, IARivers.fetchGageData. simpl.
    rewrite lookup_insert. case_decide; [by intros [= <-]|apply Hp].
  - unfold IARivers.settleGages.
    destruct (IARivers.pending w !! i) as [k|] eqn:Hk; [|done].
    rewrite (Hp i k Hk).
    unfold IARivers.tick_settled, IARivers.fetchGageData_settled.
    assert (Hdel : ∀ i' k', delete i (IARivers.pending w) !! i' = Some k'
                            → k' = IARivers.AwaitTick).
    { intros i' k'. rewrite lookup_delete. case_decide; [done|apply Hp]. }
    destruct (accepted o); simpl; [|done].
    destruct (IARivers.convertToGeoJSON u); simpl; [|done].
    by destruct (IARivers._gageLayer w) eqn:E.
Qed.

(** X8.  The refresh loop alone never touches the host: over any sequence
    of timer ticks and of settled tick requests, whatever they answer,
    the overlays registered with the host, the identity of the adapter's
    layer and the armed timers stay as they were.  For both adapters. *)
Theorem refreshing_never_registers :
  (∀ (es : list IAHazardLayers.Event) (w : IAHazardLayers.World),
     (∀ i k, IAHazardLayers.pending w !! i = Some k
             → k = IAHazardLayers.AwaitTick) →
     Forall (λ e, match e with
                  | IAHazardLayers.Fire _ | IAHazardLayers.Settle _ _ _ => True
                  | _ => False
                  end) es →
     IAHazardLayers.host (IAHazardLayers.run w es) = IAHazardLayers.host w
     ∧ IAHazardLayers._layer (IAHazardLayers.run w es)
       = IAHazardLayers._layer w
     ∧ IAHazardLayers.timers (IAHazardLayers.run w es)
       = IAHazardLayers.timers w)
  ∧ (∀ (es : list IARivers.Event) (w : IARivers.World),
       (∀ i k, IARivers.pending w !! i = Some k → k = IARivers.AwaitTick) →
       Forall (λ e, match e with
                    | IARivers.Fire _ | IARivers.SettleGages _ _ => True
                    | _ => False
                    end) es →
       IARivers.host (IARivers.run w es) = IARivers.host w
       ∧ IARivers._gageLayer (IARivers.run w es) = IARivers._gageLayer w
       ∧ IARivers.timers (IARivers.run w es) = IARivers.timers w).
Proof.
  split.
  - induction es as [|e es IH]; intros w Hp Hes; [done|].
    apply Forall_cons in Hes as [He Hes].
    destruct (hazard_tick_step w e Hp He) as (Hp' & Hh & Hl & _ & Ht).
    destruct (IH (IAHazardLayers.step w e) Hp' Hes) as (Hh' & Hl' & Ht').
    unfold IAHazardLayers.run in *. simpl.
    by rewrite Hh', Hl', Ht', Hh, Hl, Ht.
  - induction es as [|e es IH]; intros w Hp Hes; [done|].
    apply Forall_cons in Hes as [He Hes].
    destruct (gage_tick_step w e Hp He) as (Hp' & Hh & Hl & _ & Ht).
    destruct (IH (IARivers.step w e) Hp' Hes) as (Hh' & Hl' & Ht').
    unfold IARivers.run in *. simpl.
    by rewrite Hh', Hl', Ht', Hh, Hl, Ht.
Qed.

(** X9.  A tick request that is still out when [removeFromMap] runs is
    not cancelled.  When its answer arrives, no layer comes back and
    the host is not touched, but the cache that [removeFromMap] had
    cleared ([_data], [_gageData]) holds the late answer. *)
Theorem late_answer_after_removal :
  (∀ (w w1 : IAHazardLayers.World) (i : nat)
     (d : list IAHazardLayers.Alert) (now : Z),
     IAHazardLayers.removeFromMap w = Returns w1 →
     IAHazardLayers.pending w !! i = Some IAHazardLayers.AwaitTick →
     let w' := IAHazardLayers.settle i (Claims.ok d) now w1 in
     IAHazardLayers._data w1 = None
     ∧ IAHazardLayers._layer w' = None
     ∧ IAHazardLayers.layers w' = IAHazardLayers.layers w1
     ∧ IAHazardLayers.host w' = IAHazardLayers.host w1
     ∧ IAHazardLayers._data w' = Some d)
  ∧ (∀ (w w1 : IARivers.World) (i : nat) (d : IARivers.UsgsData),
       IARivers.removeFromMap w = Returns w1 →
       IARivers.pending w !! i = Some IARivers.AwaitTick →
       let w' := IARivers.settleGages i (Claims.ok_gages d) w1 in
       IARivers._gageData w1 = None
       ∧ IARivers._gageLayer w' = None
       ∧ IARivers.gageLayers w' = IARivers.gageLayers w1
       ∧ IARivers.host w' = IARivers.host w1
       ∧ IARivers._gageData w' = Some d).
Proof.
  split.
  - intros w w1 i d now Hrem Hp w'. subst w'.
    assert (Hw1 : IAHazardLayers._data w1 = None
                  ∧ IAHazardLayers._layer w1 = None
                  ∧ IAHazardLayers.pending w1 = IAHazardLayers.pending w).
    { revert Hrem. unfold IAHazardLayers.removeFromMap,
        IAHazardLayers.stopAutoRefresh.
      destruct (IAHazardLayers._refreshInterval w); simpl;
        destruct (IAHazardLayers._layer w) eqn:El; simpl;
        try destruct (IndigenousAccessMaps.removeOverlayLayer _ _);
        try done; intros [= <-]; done. }
    destruct Hw1 as (Hd & Hl & Hpe).
    unfold IAHazardLayers.settle. rewrite Hpe, Hp.
    unfold IAHazardLayers.tick_settled, IAHazardLayers.fetchAlerts_settled.
    simpl. rewrite Hl. done.
  - intros w w1 i d Hrem Hp w'. subst w'.
    destruct (removeFromMap_clears w w1 Hrem) as (Hg & Hs & Hd & Hr & Hpe).
    unfold IARivers.settleGages. rewrite Hpe, Hp.
    unfold IARivers.tick_settled, IARivers.fetchGageData_settled. simpl.
    destruct (IARivers.convertToGeoJSON d); simpl; rewrite ?Hg; done.
Qed.

End LoadProofs.

(** * The host: registration and regions *)

Section HostExtraProofs.

Import IndigenousAccessMaps.

Lemma filter_absent (l : LayerId) (ls : list LayerId) :
  l ∉ ls → base.filter (λ x, x ≠ l) ls = ls.
Proof.
  induction ls as [|x ls IH]; [done|]. intros Hn.
  apply not_elem_of_cons in Hn as [Hne Hn].
  rewrite filter_cons_True by done. by rewrite IH.
Qed.

Lemma control_remove_added (l : LayerId) (name : string) (c : Control) :
  l ∉ c.*1 → control_removeLayer l (control_addOverlay l name c) = c.
Proof.
  unfold control_addOverlay. induction c as [|e c IH]; simpl.
  - intros _. by rewrite decide_True.
  - intros Hn. apply not_elem_of_cons in Hn as [Hne Hn].
    rewrite decide_False by done. by rewrite IH.
Qed.

(** X10.  [removeOverlayLayer] undoes [addOverlayLayer]: for a name that is
    not registered and a layer that is neither on the map nor in the
    layers control, adding the overlay and removing it by its name
    gives back the state of the host, whether or not the overlay was
    shown. *)
Theorem add_then_remove_overlay (st : State) (name : string) (l : LayerId)
    (visible : bool) (m : LMap) :
  _map st = Some m →
  own_name name = true →
  _overlayLayers st !! name = None →
  l ∉ map_layers m →
  (∀ c, _layerControl st = Some c → l ∉ c.*1) →
  ∃ st1,
    addOverlayLayer name l visible st = Returns st1
    ∧ _overlayLayers st1 !! name = Some l
    ∧ removeOverlayLayer name st1 = Returns st.
Proof.
  intros Hm _ Hname Hl Hc.
  assert (Hctl : control_removeLayer l
                   <$> (control_addOverlay l name <$> _layerControl st)
                 = _layerControl st).
  { destruct (_layerControl st) as [c|] eqn:Ec; [|done]. simpl.
    by rewrite control_remove_added by by apply Hc. }
  unfold addOverlayLayer. simpl. rewrite Hm.
  destruct visible.
  - eexists. split; [reflexivity|]. simpl.
    split; [apply lookup_insert_eq|].
    unfold removeOverlayLayer. simpl. rewrite lookup_insert_eq.
    rewrite delete_insert_eq, Hctl, delete_id by done.
    f_equal. destruct st as [mp ov ctl]. simpl in *. subst mp. f_equal.
    f_equal. unfold map_removeLayer, map_addLayer.
    rewrite decide_False by done. simpl.
    rewrite filter_app, filter_absent by done.
    rewrite filter_cons_False by (intros Hne; by apply Hne).
    rewrite filter_nil, app_nil_r. by destruct m.
  - eexists. split; [reflexivity|]. simpl.
    split; [apply lookup_insert_eq|].
    unfold removeOverlayLayer. simpl. rewrite lookup_insert_eq.
    rewrite delete_insert_eq, Hctl, delete_id by done.
    f_equal. destruct st as [mp ov ctl]. simpl in *. subst mp. f_equal.
    f_equal. unfold map_removeLayer.
    rewrite filter_absent by done. by destruct m.
Qed.

Lemma toLowerCase_idemp (s : string) : toLowerCase (toLowerCase s) = toLowerCase s.
Proof.
  induction s as [|c s IH]; simpl; [done|]. f_equal; [|done].
  unfold lower. destruct c as [[] [] [] [] [] [] [] []]; reflexivity.
Qed.

Lemma navStep_known (nav : Nav) (e : NavEvent) :
  is_Some (REGIONS !! _currentRegion nav) →
  is_Some (REGIONS !! _currentRegion (navStep nav e)).
Proof.
  intros Hk. destruct e as [options search|regionCode]; simpl.
  - unfold initCamera.
    destruct (parseUrlParams search !! "region") as [r|]; [|done].
    destruct (truthy r); [|done].
    destruct (REGIONS !! r) eqn:Hr; simpl; [|done]. rewrite Hr. eauto.
  - unfold focusRegion.
    destruct (REGIONS !! toLowerCase regionCode) eqn:Hr; simpl; [|done].
    destruct (camera nav); simpl; rewrite Hr; eauto.
Qed.

(** X11.  [getCurrentRegion] always names a region of [REGIONS]: after any
    sequence of [initMap] and [focusRegion] calls, with region codes
    that are none of the names every object inherits, the current
    region is a key of the table.  An unknown code leaves it as it
    was. *)
Theorem current_region_is_known (es : list NavEvent) :
  forallb own_code es = true →
  is_Some (REGIONS !! getCurrentRegion (navRun initialNav es)).
Proof.
  intros _. unfold getCurrentRegion, navRun.
  induction es as [|e es IH] using rev_ind.
  - vm_compute. eauto.
  - rewrite foldl_snoc. by apply navStep_known.
Qed.

Lemma parseUrlParams_region (search : URLSearchParams.t) :
  parseUrlParams search !! "region" = URLSearchParams.get search "region".
Proof.
  unfold parseUrlParams. simpl.
  repeat match goal with
  | |- context [URLSearchParams.get search ?k] =>
      lazymatch k with
      | "region" => fail
      | _ => destruct (URLSearchParams.get search k)
      end
  end;
  destruct (URLSearchParams.get search "region");
  repeat (rewrite lookup_insert_ne by done);
  rewrite ?lookup_insert_eq, ?lookup_empty; done.
Qed.

(** X12.  [initMap] reads the [region] parameter of the URL as it is
    written, while [focusRegion] lowers its argument first.  For a
    value such as [WA], which is no key of [REGIONS] but whose lower
    case is one, [initMap] keeps the configured camera and the current
    region, and [focusRegion] of the same value then moves to the
    region and makes it current. *)
Theorem region_parameter_is_read_as_written (options : InitOptions)
    (search : URLSearchParams.t) (nav : Nav) (r : string) (region : Region) :
  URLSearchParams.get search "region" = Some r →
  REGIONS !! r = None →
  REGIONS !! toLowerCase r = Some region →
  initCamera options search nav
  = mkNav (_currentRegion nav)
      (Some (mkCamera (default (cam_center DEFAULT_CONFIG) (o_center options))
               (default (cam_zoom DEFAULT_CONFIG) (o_zoom options))))
      (warnings nav)
  ∧ focusRegion r (initCamera options search nav)
    = Returns (mkNav (toLowerCase r)
                 (Some (mkCamera (center region) (zoom region)))
                 (warnings nav)).
Proof.
  intros Hs Hr Hl.
  assert (Hinit : initCamera options search nav
    = mkNav (_currentRegion nav)
        (Some (mkCamera (default (cam_center DEFAULT_CONFIG) (o_center options))
                 (default (cam_zoom DEFAULT_CONFIG) (o_zoom options))))
        (warnings nav)).
  { unfold initCamera. rewrite parseUrlParams_region, Hs, Hr.
    by destruct (truthy r). }
  split; [done|]. rewrite Hinit. unfold focusRegion. by rewrite Hl.
Qed.

End HostExtraProofs.

(** * Adding twice, removing once *)

Section OrphanProofs.

Context `{Engine}.
Import IAHazardLayers.

Lemma startAutoRefresh_keeps (interval : N) (options : Options) (w : World) :
  let w' := startAutoRefresh interval options w in
  host w' = host w ∧ _layer w' = _layer w ∧ layers w' = layers w.
Proof.
  unfold startAutoRefresh, stopAutoRefresh.
  by destruct (_refreshInterval w).
Qed.

Lemma stopAutoRefresh_keeps (w : World) :
  host (stopAutoRefresh w) = host w ∧ _layer (stopAutoRefresh w) = _layer w.
Proof. unfold stopAutoRefresh. by destruct (_refreshInterval w). Qed.

(** X13.  A second [addToMap] of the weather adapter orphans the first
    layer.  When a layer of the adapter is on the map and [addToMap]
    loads again, the new layer takes the place of the old one in
    [_layer] and in the registry; [removeFromMap] then clears the
    adapter and the registry, and the first layer is still on the
    map. *)
Theorem first_layer_stays_after_second_add (w : World) (options : Options)
    (d : list Alert) (now : Z) (m : IndigenousAccessMaps.LMap) (l0 : LayerId) :
  IndigenousAccessMaps._map (host w) = Some m →
  _layer w = Some l0 →
  l0 ∈ IndigenousAccessMaps.map_layers m →
  l0 ≠ next_stamp (page w) →
  let w2 :=
    settle (length (requests (page w))) (Claims.ok d) now (addToMap options w) in
  ∃ w3 m3,
    removeFromMap w2 = Returns w3
    ∧ _layer w3 = None
    ∧ IndigenousAccessMaps._overlayLayers (host w3) !! "Weather Alerts" = None
    ∧ IndigenousAccessMaps._map (host w3) = Some m3
    ∧ l0 ∈ IndigenousAccessMaps.map_layers m3.
Proof.
  intros Hm Hl Hin Hne w2. subst w2.
  unfold addToMap, IndigenousAccessMaps.getMap. rewrite Hm.
  unfold fetchAlerts, settle. simpl. rewrite lookup_insert_eq.
  unfold addToMap_settled, fetchAlerts_settled. simpl.
  set (l' := next_stamp (page w)) in *.
  set (vis := not_false (visible options)).
  assert (Hadd : ∃ m1,
    IndigenousAccessMaps.addOverlayLayer "Weather Alerts" l' vis (host w)
    = Returns (IndigenousAccessMaps.mkState (Some m1)
                 (<["Weather Alerts" := l']>
                    (IndigenousAccessMaps._overlayLayers (host w)))
                 (IndigenousAccessMaps.control_addOverlay l' "Weather Alerts"
                    <$> IndigenousAccessMaps._layerControl (host w)))
    ∧ l0 ∈ IndigenousAccessMaps.map_layers m1).
  { unfold IndigenousAccessMaps.addOverlayLayer. simpl. rewrite Hm.
    destruct vis.
    - eexists. split; [reflexivity|].
      unfold IndigenousAccessMaps.map_addLayer.
      destruct (decide (l' ∈ IndigenousAccessMaps.map_layers m)); simpl;
        [done|]. apply elem_of_app. by left.
    - eexists. split; [reflexivity|done]. }
  destruct Hadd as (m1 & -> & Hin1).
  match goal with |- context [removeFromMap ?x] => set (w2 := x) end.
  assert (Hw2 : host w2
      = IndigenousAccessMaps.mkState (Some m1)
          (<["Weather Alerts" := l']>
             (IndigenousAccessMaps._overlayLayers (host w)))
          (IndigenousAccessMaps.control_addOverlay l' "Weather Alerts"
             <$> IndigenousAccessMaps._layerControl (host w))
      ∧ _layer w2 = Some l').
  { subst w2. destruct (not_false (autoRefresh options)); [|done].
    match goal with |- context [startAutoRefresh ?i ?o ?x] =>
      destruct (startAutoRefresh_keeps i o x) as (-> & -> & _) end.
    done. }
  destruct Hw2 as [Hh2 Hl2]. clearbody w2.
  unfold removeFromMap.
  destruct (stopAutoRefresh_keeps w2) as [Hh Hl'].
  revert Hh Hl'. generalize (stopAutoRefresh w2). intros w0 Hh Hl'.
  rewrite Hl', Hl2, Hh, Hh2.
  unfold IndigenousAccessMaps.removeOverlayLayer. simpl.
  rewrite lookup_insert_eq.
  do 2 eexists. split; [reflexivity|]. simpl.
  split; [done|]. split; [apply lookup_delete_eq|]. split; [done|].
  simpl. apply list_elem_of_filter. done.
Qed.

End OrphanProofs.

(** * The flood zone adapter: what a view is remembered for *)

Section FloodExtraProofs.

Context `{Engine}.
Import IAFloodZones.

(** X14.  The flood zone adapter records the bounds before it queries.  A
    first query that fails leaves the layer as it was, and a further
    [loadForCurrentView] over the same view issues no request: the view
    counts as loaded although nothing was. *)
Theorem failed_query_is_not_retried (options : Options) (k' : Continuation)
    (w : World) (map : IndigenousAccessMaps.LMap)
    (o : Settled (list FloodFeature)) :
  IndigenousAccessMaps.getMap (host w) = Some map →
  _currentBounds w = None →
  boundsEqual (IndigenousAccessMaps.getBounds map)
    (IndigenousAccessMaps.getBounds map) = true →
  accepted o = None →
  let w1 := loadForCurrentView options AwaitLoad w in
  let w2 := settle (length (requests (page w))) o w1 in
  requests (page w1)
  = requests (page w)
      ++ [floodRequest (IndigenousAccessMaps.getBounds map) options]
  ∧ _layer w2 = _layer w
  ∧ layers w2 = layers w
  ∧ loadForCurrentView options k' w2 = w2.
Proof.
  intros Hm Hb Heq Ho w1 w2. subst w2 w1.
  assert (Hw1 : loadForCurrentView options AwaitLoad w
    = mkWorld
        (mkPage (console (page w))
           (requests (page w)
              ++ [floodRequest (IndigenousAccessMaps.getBounds map) options])
           (next_timer (page w)) (next_stamp (page w)))
        (host w) (_layer w)
        (Some (IndigenousAccessMaps.getBounds map)) (layers w) (moveend w)
        (<[length (requests (page w)) := AwaitLoad]> (pending w))).
  { unfold loadForCurrentView, unchanged. by rewrite Hm, Hb. }
  rewrite Hw1. cbn [page requests]. split; [done|].
  unfold settle. cbn [pending]. rewrite lookup_insert_eq.
  assert (Hset : ∀ w0, ∃ msgs,
    loadForCurrentView_settled o w0
    = mkWorld
        (mkPage (console (page w0) ++ msgs) (requests (page w0))
           (next_timer (page w0)) (next_stamp (page w0)))
        (host w0) (_layer w0) (_currentBounds w0) (layers w0) (moveend w0)
        (pending w0)).
  { intros w0. unfold loadForCurrentView_settled, queryFloodZones_settled.
    destruct o as [|[] status [data|]]; try done; simpl;
      eexists; unfold showError, with_page, log; simpl;
      rewrite <- ?app_assoc; reflexivity. }
  match goal with |- context [loadForCurrentView_settled o ?x] =>
    destruct (Hset x) as [msgs ->] end.
  cbn [_layer layers with_pending]. split; [done|]. split; [done|].
  apply loadForCurrentView_skips with map; [exact Hm|].
  unfold unchanged. cbn [_currentBounds with_pending]. exact Heq.
Qed.

End FloodExtraProofs.

(** * More of the river gage conversion *)

Section ConvertExtraProofs.

Context `{Engine}.
Import IARivers Spec.

Lemma convertSeries_None (m : SiteMap) (s : Series) :
  convertSeries m s = None ↔ walkable s = false.
Proof.
  unfold convertSeries, walkable, siteOf, paramOf.
  destruct (head (siteCode s)); [|done].
  destruct (head (variableCode s)); [|done].
  by destruct (head (values s)).
Qed.

Lemma forEach_convert_None (ts : list Series) (m : SiteMap) :
  forEach convertSeries ts m = None ↔ ∃ s, s ∈ ts ∧ walkable s = false.
Proof.
  revert m. induction ts as [|s ts IH]; intros m; simpl.
  - split; [done|]. intros (s & Hs & _). by apply elem_of_nil in Hs.
  - destruct (convertSeries m s) as [m'|] eqn:Hc.
    + rewrite IH. split.
      * intros (s' & Hs' & Hw). exists s'. split; [by right|done].
      * intros (s' & Hs' & Hw).
        apply elem_of_cons in Hs' as [->|Hs']; [|eauto].
        apply convertSeries_None with (m := m) in Hw. congruence.
    + split; [|done]. intros _. exists s. split; [left|].
      by apply convertSeries_None in Hc.
Qed.

(** X15.  A response with a series whose [siteCode], [variableCode] or
    [values] array is empty makes [convertToGeoJSON] throw, wherever
    the series stands in the response.  In a refresh tick the throw is
    caught: the gage layer, what it holds and the host stay as they
    were and the warning of the tick is logged, while [_gageData]
    holds the response already. *)
Theorem unconvertible_response_keeps_layer (ts : list Series) (w : World)
    (i : nat) :
  (∃ s, s ∈ ts ∧ (siteCode s = [] ∨ variableCode s = [] ∨ values s = [])) →
  convertToGeoJSON (response ts) = None
  ∧ (pending w !! i = Some AwaitTick →
     let w' := step w (SettleGages i (Claims.ok_gages (response ts))) in
     gageLayers w' = gageLayers w
     ∧ _gageLayer w' = _gageLayer w
     ∧ displayed w' = displayed w
     ∧ host w' = host w
     ∧ _gageData w' = Some (response ts)
     ∧ console (page w')
       = console (page w) ++ [(LogWarn, "Gage refresh failed:")]).
Proof.
  intros (s & Hs & Hbad).
  assert (Hnone : convertToGeoJSON (response ts) = None).
  { unfold convertToGeoJSON, response. simpl.
    assert (Hn : forEach convertSeries ts [] = None); [|by rewrite Hn].
    apply forEach_convert_None. exists s. split; [done|].
    unfold walkable, siteOf, paramOf.
    destruct Hbad as [-> | [-> | ->]]; simpl; try done;
      repeat case_match; done. }
  split; [done|]. intros Hp w'. subst w'. cbn [step].
  unfold settleGages. rewrite Hp.
  unfold tick_settled, fetchGageData_settled. simpl. rewrite Hnone. done.
Qed.

End ConvertExtraProofs.

(** * The order and the description of the gage features *)

Section ConvertOrderProofs.

Context `{Engine}.
Import IARivers Spec.

Lemma firsts_snoc (l : list string) (c : string) :
  firsts (l ++ [c]) = if decide (c ∈ l) then firsts l else firsts l ++ [c].
Proof.
  induction l as [|x l IH]; simpl.
  - destruct (decide (c ∈ [])) as [Hin|Hin]; [|done].
    by apply elem_of_nil in Hin.
  - rewrite IH. destruct (decide (c ∈ l)) as [Hin|Hin].
    + rewrite decide_True; [done|]. by right.
    + rewrite List.filter_app. simpl.
      destruct (decide (c = x)) as [->|Hne].
      * rewrite bool_decide_eq_false_2 by (intros Hx; by apply Hx).
        rewrite decide_True by left. by rewrite app_nil_r.
      * rewrite bool_decide_eq_true_2 by done.
        rewrite decide_False; [done|].
        intros Hx. apply elem_of_cons in Hx as [?|?]; done.
Qed.

Lemma find_snoc {A} (p : A → bool) (l : list A) (x : A) :
  List.find p (l ++ [x]) =
  match List.find p l with
  | Some y => Some y
  | None => if p x then Some x else None
  end.
Proof.
  induction l as [|y l IH]; simpl; [done|].
  by destruct (p y).
Qed.

Lemma firstOf_absent (k : string) (pre : list Series) :
  (∀ s, s ∈ pre → siteOf s ≠ Some k) → firstOf k pre = None.
Proof.
  unfold firstOf. induction pre as [|s pre IH]; intros Hall; simpl; [done|].
  rewrite bool_decide_eq_false_2 by (apply Hall; left).
  apply IH. intros s' Hs'. apply Hall. by right.
Qed.

Lemma ordered_mutate (m : SiteMap) (pre : list Series) (k : string)
    (g : GageFeature → GageFeature) :
  (∀ f s, describes s f → describes s (g f)) →
  ordered m pre → ordered (mutate m k g) pre.
Proof.
  intros Hg [Hkeys Hget]. split.
  - by rewrite keys_mutate.
  - intros k' f. rewrite get_mutate.
    destruct (decide (k = k')) as [->|Hne]; [|by apply Hget].
    destruct (get m k') as [f0|] eqn:Hf0; [|done].
    intros [= <-]. destruct (Hget _ _ Hf0) as (s & Hs & Hd).
    exists s. split; [done|]. by apply Hg.
Qed.

Lemma ordered_nil : ordered [] [].
Proof. split; [done|]. intros k f. done. Qed.

Lemma convertSeries_ordered (m m' : SiteMap) (pre : list Series) (s : Series) :
  merged m pre → ordered m pre → convertSeries m s = Some m' →
  ordered m' (pre ++ [s]).
Proof.
  intros (Hnd & Hk & Hdom & Hrd) [Hkeys Hget]. unfold convertSeries.
  fold (siteOf s) (paramOf s).
  destruct (siteOf s) as [c0|] eqn:Hc; [|done].
  destruct (paramOf s) as [p0|] eqn:Hp; [|done].
  destruct (head (values s)) as [vals|] eqn:Hv; [|done].
  set (v := mkGageFeature _ _).
  set (m1 := if has m c0 then m else set m c0 v).
  assert (Hm1 : ordered m1 (pre ++ [s])).
  { assert (Hsites : omap siteOf (pre ++ [s]) = omap siteOf pre ++ [c0]).
    { rewrite omap_app. simpl. by rewrite Hc. }
    assert (Hin : get m c0 = None ↔ c0 ∉ omap siteOf pre).
    { rewrite Hdom. split.
      - intros Hall Hx. apply list_elem_of_omap in Hx as (s' & Hs' & Hx).
        by apply (Hall s').
      - intros Hn s' Hs' Hx. apply Hn. apply list_elem_of_omap. eauto. }
    subst m1. rewrite has_get. unfold ordered. rewrite Hsites, firsts_snoc.
    destruct (get m c0) as [f0|] eqn:Hg0.
    - rewrite bool_decide_eq_true_2 by eauto.
      rewrite decide_True.
      2:{ destruct (decide (c0 ∈ omap siteOf pre)) as [|Hn]; [done|].
          apply Hin in Hn. done. }
      split; [done|]. intros k f Hf.
      destruct (Hget _ _ Hf) as (s' & Hs' & Hd). exists s'. split; [|done].
      unfold firstOf in *. by rewrite find_snoc, Hs'.
    - rewrite bool_decide_eq_false_2 by (intros [? ?]; done).
      rewrite decide_False by by apply Hin.
      split.
      + unfold set. rewrite fmap_app. simpl. by rewrite Hkeys.
      + intros k f. rewrite get_set.
        destruct (get m k) as [f1|] eqn:Hf1.
        * intros [= <-]. destruct (Hget _ _ Hf1) as (s' & Hs' & Hd).
          exists s'. split; [|done].
          unfold firstOf in *. by rewrite find_snoc, Hs'.
        * destruct (decide (c0 = k)) as [<-|]; [|done]. intros [= <-].
          exists s. split.
          -- unfold firstOf. rewrite find_snoc.
             fold (firstOf c0 pre). rewrite firstOf_absent by by apply Hdom.
             by rewrite bool_decide_eq_true_2.
          -- unfold describes. subst v. simpl. by rewrite Hv. }
  clearbody m1. intros [= <-].
  destruct (latestValue vals); [|done].
  destruct (decide _); [by apply ordered_mutate|].
  destruct (decide _); [by apply ordered_mutate|]. done.
Qed.

Lemma forEach_ordered (ts : list Series) : ∀ m pre m',
  merged m pre → ordered m pre → forEach convertSeries ts m = Some m' →
  merged m' (pre ++ ts) ∧ ordered m' (pre ++ ts).
Proof.
  induction ts as [|s ts IH]; intros m pre m' Hm Ho; simpl.
  - intros [= <-]. by rewrite app_nil_r.
  - destruct (convertSeries m s) as [m1|] eqn:Hs; [|done]. intros Hrest.
    assert (Hw : walkable s = true).
    { destruct (walkable s) eqn:Hw; [done|].
      apply convertSeries_None with (m := m) in Hw. congruence. }
    destruct (convertSeries_merged m pre s Hm Hw) as (m1' & Hs' & Hm1).
    assert (m1' = m1) as -> by congruence.
    pose proof (convertSeries_ordered _ _ _ _ Hm Ho Hs) as Ho1.
    replace (pre ++ s :: ts) with ((pre ++ [s]) ++ ts)
      by by rewrite <- app_assoc.
    by apply (IH m1).
Qed.

Lemma convertToGeoJSON_inv (ts : list Series) (fc : FeatureCollection) :
  convertToGeoJSON (response ts) = Some fc →
  ∃ m, fc = mkFeatureCollection (m.*2) ∧ merged m ts ∧ ordered m ts.
Proof.
  unfold convertToGeoJSON, response. simpl.
  destruct (forEach convertSeries ts []) as [m|] eqn:Hf; [|done].
  simpl. intros [= <-]. exists m. split; [done|].
  by apply (forEach_ordered ts [] [] m merged_nil ordered_nil).
Qed.

Lemma keyed_codes (m : SiteMap) :
  keyed m → (λ f, p_siteCode (properties f)) <$> m.*2 = m.*1.
Proof.
  induction 1 as [|[k f] m Hkf _ IH]; [done|].
  rewrite !fmap_cons. simpl in *. by rewrite Hkf, IH.
Qed.

Lemma get_elem (m : SiteMap) (k : string) (f : GageFeature) :
  NoDup (m.*1) → (k, f) ∈ m → get m k = Some f.
Proof.
  induction m as [|[k' f'] m IH]; simpl; intros Hnd Hin.
  - by apply elem_of_nil in Hin.
  - apply NoDup_cons in Hnd as [Hk' Hnd].
    apply elem_of_cons in Hin as [[= -> ->]|Hin].
    + by rewrite decide_True.
    + rewrite decide_False; [by apply IH|].
      intros ->. apply Hk'. apply list_elem_of_fmap. by exists (k, f).
Qed.

Lemma get_feature (m : SiteMap) (f : GageFeature) :
  NoDup (m.*1) → keyed m → f ∈ m.*2 →
  get m (p_siteCode (properties f)) = Some f.
Proof.
  intros Hnd Hk Hin. apply list_elem_of_fmap in Hin as ([k f'] & -> & Hin).
  simpl. assert (Hkf : p_siteCode (properties f') = k).
  { unfold keyed in Hk. rewrite Forall_forall in Hk. by apply (Hk (k, f')). }
  rewrite Hkf. by apply get_elem.
Qed.

(** X16.  The features of [convertToGeoJSON] come in the order in which
    their sites first appear in the response, and each feature takes
    its name, its coordinates and its [dateTime] from the first series
    of its site, whatever the later series of the site say. *)
Theorem convertToGeoJSON_first_appearance (ts : list Series)
    (fc : FeatureCollection) :
  convertToGeoJSON (response ts) = Some fc →
  (λ f, p_siteCode (properties f)) <$> features fc
  = firsts (omap siteOf ts)
  ∧ ∀ f, f ∈ features fc →
      ∃ s, firstOf (p_siteCode (properties f)) ts = Some s
           ∧ describes s f.
Proof.
  intros Hfc.
  apply convertToGeoJSON_inv in Hfc
    as (m & -> & (Hnd & Hk & _ & _) & [Hkeys Hget]).
  split.
  - rewrite <- Hkeys. by apply keyed_codes.
  - intros f Hf. apply Hget. by apply get_feature.
Qed.

(** X17.  The status and the colour of a converted gage.  For a feature of
    [convertToGeoJSON], [determineFloodStatus] is [unknown], and the
    marker gray, exactly when the response makes neither a streamflow
    nor a gage height available for the site; otherwise the status is
    [normal] and the marker green. *)
Theorem gage_status_unknown_iff (ts : list Series) (fc : FeatureCollection)
    (f : GageFeature) :
  convertToGeoJSON (response ts) = Some fc → f ∈ features fc →
  let c := p_siteCode (properties f) in
  let dry :=
    reading c PARAMETER_CODES_discharge ts = None
    ∧ reading c PARAMETER_CODES_gageHeight ts = None in
  (determineFloodStatus (properties f) = "unknown" ↔ dry)
  ∧ (determineFloodStatus (properties f) = "normal" ↔ ¬ dry)
  ∧ (gageColor (properties f) = Some "#808080" ↔ dry)
  ∧ (gageColor (properties f) = Some "#00CC00" ↔ ¬ dry).
Proof.
  intros Hfc Hf.
  apply convertToGeoJSON_inv in Hfc as (m & -> & (Hnd & Hk & _ & Hrd) & _).
  simpl in Hf. pose proof (get_feature m f Hnd Hk Hf) as Hg.
  destruct (Hrd _ _ Hg) as [Hs Hh]. simpl.
  rewrite <- Hs, <- Hh. unfold gageColor, determineFloodStatus.
  destruct (gageHeight (properties f)), (streamflow (properties f));
    vm_compute; intuition congruence.
Qed.

End ConvertOrderProofs.

(** * The lookup of a gage by its site code *)

Section GageLookupProofs.

Context `{Engine}.
Import IARivers Spec.

Lemma foldl_last_match {A} (p : A → bool) (P : A → Prop)
    `{∀ x, Decision (P x)} (l : list A) (acc : option A) :
  (∀ x, p x = bool_decide (P x)) →
  foldl (λ found f, if decide (P f) then Some f else found) acc l
  = match last (List.filter p l) with
    | Some f => Some f
    | None => acc
    end.
Proof.
  intros Hp. revert acc. induction l as [|x l IH]; intros acc; simpl; [done|].
  rewrite IH, Hp. destruct (decide (P x)) as [HP|HP].
  - rewrite bool_decide_eq_true_2 by done. rewrite last_cons.
    by destruct (last (List.filter p l)).
  - by rewrite bool_decide_eq_false_2 by done.
Qed.

(** X18.  [getGageBySiteCode] after a refresh.  Once a tick has been
    answered with a response that can be converted, the lookup of a
    site code finds a feature exactly when some series of the response
    has this code, and the feature found carries the code and the
    readings that the response makes available for it. *)
Theorem getGageBySiteCode_after_refresh (w : World) (i : nat) (l : LayerId)
    (ts : list Series) (c : string) :
  _gageLayer w = Some l → pending w !! i = Some AwaitTick →
  forallb walkable ts = true →
  let w' := step w (SettleGages i (Claims.ok_gages (response ts))) in
  match getGageBySiteCode c w' with
  | Some f =>
      p_siteCode (properties f) = c
      ∧ (∃ s, s ∈ ts ∧ siteOf s = Some c)
      ∧ streamflow (properties f) = reading c PARAMETER_CODES_discharge ts
      ∧ gageHeight (properties f) = reading c PARAMETER_CODES_gageHeight ts
  | None => ∀ s, s ∈ ts → siteOf s ≠ Some c
  end.
Proof.
  intros Hl Hp Hw. cbn [step]. unfold settleGages. rewrite Hp.
  destruct (forEach_merged ts [] [] merged_nil Hw) as (m & Hf & Hm).
  simpl in Hm.
  assert (Hfc : convertToGeoJSON (response ts)
                = Some (mkFeatureCollection (m.*2))).
  { unfold convertToGeoJSON, response. simpl. by rewrite Hf. }
  set (w0 := with_pending (delete i) w).
  assert (Hl0 : _gageLayer w0 = Some l) by done.
  pose proof (gage_tick_settled_ok _ _ w0 l Hl0 Hfc) as Hd.
  destruct (gage_tick_settled_frame
              (Claims.ok_gages (response ts)) w0) as (Hgl & _).
  unfold getGageBySiteCode. unfold displayed in Hd.
  rewrite Hgl, Hl0 in *. simpl in Hd. rewrite Hd. simpl.
  rewrite (foldl_last_match
             (λ g, bool_decide (p_siteCode (properties g) = c))
             (λ g, p_siteCode (properties g) = c)) by done.
  destruct Hm as (Hnd & Hk & Hdom & Hrd).
  change (List.filter _ (m.*2))
    with (carrying c (mkFeatureCollection (m.*2))).
  destruct (get m c) as [f|] eqn:Hg.
  - rewrite (carrying_keyed m c f) by done. simpl.
    split; [by apply (get_keyed m)|]. split; [|by apply Hrd].
    destruct (decide (Exists (λ s, siteOf s = Some c) ts)) as [Hex|Hex].
    + apply Exists_exists in Hex. done.
    + exfalso. assert (Hn : get m c = None); [|congruence].
      apply Hdom. intros s Hs Hc. apply Hex. apply Exists_exists. eauto.
  - rewrite (carrying_absent m c) by done. simpl. by apply Hdom.
Qed.

End GageLookupProofs.

(** * The flood zone adapter: moving the map *)

Section FloodHandlerProofs.

Context `{Engine}.
Import IAFloodZones.

(** X19.  [removeFromMap] of the flood zone adapter leaves the [moveend]
    handler of [addToMap] on the map, since [map.off] is given another
    function.  After the removal the next move of the map queries
    again, and its answer makes a new layer that [_layer] holds and
    that is not registered with the host. *)
Theorem moveend_handler_outlives_removeFromMap (w : World) (options : Options)
    (view : Bounds) (map : IndigenousAccessMaps.LMap) (l0 : LayerId)
    (data : list FloodFeature) :
  IndigenousAccessMaps.getMap (host w) = Some map →
  _layer w = Some l0 →
  moveend w = [options] →
  let w1 := step w RemoveFromMap in
  let w2 := step w1 (MoveEnd view) in
  let w3 :=
    step w2 (Settle (length (requests (page w))) (Response true 200 (Some data))) in
  _layer w1 = None
  ∧ moveend w1 = [options]
  ∧ requests (page w2) = requests (page w) ++ [floodRequest view options]
  ∧ _layer w3 = Some (next_stamp (page w))
  ∧ layers w3 !! next_stamp (page w) = Some data
  ∧ IndigenousAccessMaps._overlayLayers (host w3) !! "FEMA Flood Zones"
    = None.
Proof.
  intros Hm Hl Hh w1 w2 w3. subst w3 w2 w1.
  destruct w as [p h lay cb ls hs pd]. simpl in *. subst lay hs.
  unfold removeFromMap. cbn [_layer host].
  unfold IndigenousAccessMaps.getMap in Hm.
  assert (Hrem : ∃ m' reg ctl,
    IndigenousAccessMaps.removeOverlayLayer "FEMA Flood Zones" h
    = Returns (IndigenousAccessMaps.mkState (Some m') reg ctl)
    ∧ reg !! "FEMA Flood Zones" = None).
  { unfold IndigenousAccessMaps.removeOverlayLayer.
    destruct (IndigenousAccessMaps._overlayLayers h !! "FEMA Flood Zones")
      eqn:Hreg.
    - rewrite Hm. do 3 eexists. split; [reflexivity|].
      apply lookup_delete_eq.
    - destruct h as [m0 reg ctl]. simpl in *. subst m0.
      by do 3 eexists. }
  destruct Hrem as (m' & reg & ctl & -> & Hreg).
  cbn [state_of]. unfold moveTo. simpl.
  unfold loadForCurrentView, unchanged, IndigenousAccessMaps.getMap. simpl.
  unfold settle. simpl. rewrite lookup_insert_eq.
  unfold loadForCurrentView_settled. simpl.
  repeat split; try done.
  apply lookup_insert_eq.
Qed.

(** X20.  A reload keeps the layer.  When the flood zone adapter has a
    layer and the view has left the recorded bounds, the answer to the
    new query replaces what this layer holds: [_layer] is the same
    object, no Leaflet object is made, no other layer changes and the
    host is not touched. *)
Theorem reload_refills_the_same_layer (w : World) (options : Options)
    (map : IndigenousAccessMaps.LMap) (l : LayerId)
    (data : list FloodFeature) :
  IndigenousAccessMaps.getMap (host w) = Some map →
  _layer w = Some l →
  unchanged w (IndigenousAccessMaps.getBounds map) = false →
  let w1 := step w (LoadForCurrentView options) in
  let w2 :=
    step w1 (Settle (length (requests (page w))) (Response true 200 (Some data))) in
  _layer w2 = Some l
  ∧ layers w2 !! l = Some data
  ∧ (∀ l', l' ≠ l → layers w2 !! l' = layers w !! l')
  ∧ host w2 = host w
  ∧ next_stamp (page w2) = next_stamp (page w).
Proof.
  intros Hm Hl Hu w1 w2. subst w2 w1. cbn [step].
  unfold loadForCurrentView. rewrite Hm, Hu. simpl.
  unfold settle. simpl. rewrite lookup_insert_eq.
  unfold loadForCurrentView_settled. simpl. rewrite Hl. simpl.
  repeat split; try done.
  - apply lookup_insert_eq.
  - intros l' Hne. by apply lookup_insert_ne.
Qed.

End FloodHandlerProofs.

(** * The selection of a territory *)

Section SelectionProofs.

Import IATribalBoundaries Selection.

#[local] Notation "'is_selected'" :=
  (λ t : Territory, bool_decide (style t = Selected)) (only parsing).
#[local] Notation "'refs'" :=
  (fmap (λ t : Territory, ref (feature t))) (only parsing).

Lemma selected_shown (w : World) :
  selected w = List.filter is_selected (shown w).
Proof. unfold selected, shown. by destruct (_layer w). Qed.

Lemma unmarked_filter (ts : list Territory) :
  unmarked ts → List.filter is_selected ts = [].
Proof.
  induction 1 as [|t ts Ht _ IH]; simpl; [done|].
  by rewrite bool_decide_eq_false_2.
Qed.

Lemma unmarked_alter (ts : list Territory) (j : nat) (s : Style) :
  s ≠ Selected → unmarked ts → unmarked (alter (setStyle s) j ts).
Proof.
  intros Hs Hts. revert j.
  induction Hts as [|t ts Ht Hts IH]; intros j; [apply Forall_nil_2|].
  destruct j as [|j]; simpl; constructor; try done. apply IH.
Qed.

Lemma unmarked_reset (ts : list Territory) :
  unmarked (setStyle (getFeatureStyle "default") <$> ts).
Proof. apply Forall_fmap. by apply Forall_true. Qed.

Lemma unmarked_fresh (data : list Feature) :
  unmarked ((λ f, mkTerritory f (getFeatureStyle "default")) <$> data).
Proof. apply Forall_fmap. by apply Forall_true. Qed.

Lemma shown_setStyleAt (l : LayerId) (j : nat) (s : Style) (w : World) :
  shown (setStyleAt l j s w)
  = if decide (_layer w = Some l) then alter (setStyle s) j (shown w)
    else shown w.
Proof.
  unfold shown, setStyleAt. simpl. destruct (_layer w) as [cur|]; simpl.
  - destruct (decide (Some cur = Some l)) as [[= ->]|Hne].
    + rewrite lookup_alter_eq. by destruct (layers w !! l).
    + rewrite lookup_alter_ne; [done|congruence].
  - by destruct (decide (None = Some l)).
Qed.

Lemma shown_resetStyle (l : LayerId) (w : World) :
  shown (resetStyle l w)
  = if decide (_layer w = Some l)
    then setStyle (getFeatureStyle "default") <$> shown w
    else shown w.
Proof.
  unfold shown, resetStyle. simpl. destruct (_layer w) as [cur|]; simpl.
  - destruct (decide (Some cur = Some l)) as [[= ->]|Hne].
    + rewrite lookup_alter_eq. by destruct (layers w !! l).
    + rewrite lookup_alter_ne; [done|congruence].
  - by destruct (decide (None = Some l)).
Qed.

Lemma shown_createLayer (w : World) (data : list Feature) :
  _data w = Some data →
  shown (createLayer w)
  = (λ f, mkTerritory f (getFeatureStyle "default")) <$> data
  ∧ _selectedFeature (createLayer w) = _selectedFeature w
  ∧ _data (createLayer w) = _data w.
Proof.
  intros Hd. unfold createLayer, shown. rewrite Hd. simpl.
  by rewrite lookup_insert_eq.
Qed.

Lemma shown_territory (l : LayerId) (j : nat) (w : World) (t : Territory) :
  territory l j w = Some t → _layer w = Some l → shown w !! j = Some t.
Proof.
  unfold territory, shown. intros Ht ->.
  by destruct (layers w !! l).
Qed.

(** ** With nothing selected, nothing is marked *)

Lemma quiet_same (w w' : World) :
  shown w' = shown w → _selectedFeature w' = _selectedFeature w →
  quiet w → quiet w'.
Proof. unfold quiet. intros -> ->. done. Qed.

Lemma quiet_createLayer (w : World) : quiet w → quiet (createLayer w).
Proof.
  intros Hq. destruct (_data w) as [data|] eqn:Hd.
  - destruct (shown_createLayer w data Hd) as (Hs & _ & _).
    intros _. rewrite Hs. apply unmarked_fresh.
  - unfold createLayer. rewrite Hd. by apply (quiet_same w).
Qed.

Lemma quiet_addToMap_loaded (options : Options) (w : World) :
  quiet w → quiet (state_of (addToMap_loaded options w)).
Proof.
  intros Hq. unfold addToMap_loaded.
  set (w1 := match _layer w with Some _ => w | None => createLayer w end).
  assert (Hq1 : quiet w1).
  { subst w1. destruct (_layer w); [done|]. by apply quiet_createLayer. }
  clearbody w1. destruct (_layer w1); [|done].
  destruct (IndigenousAccessMaps.addOverlayLayer _ _ _ _); simpl;
    by apply (quiet_same w1).
Qed.

Lemma focus_keeps (c : string) (ts : list Territory) :
  ∀ acc, is_Some acc.1 → is_Some (foldl (focusOn c) acc ts).1.
Proof.
  induction ts as [|t ts IH]; intros acc Hacc; simpl; [done|].
  apply IH. unfold focusOn. destruct (matches c t); simpl; eauto.
Qed.

Lemma focus_found (c : string) (ts : list Territory) :
  existsb (matches c) ts = true →
  ∀ acc, is_Some (foldl (focusOn c) acc ts).1.
Proof.
  induction ts as [|t ts IH]; intros Hex acc; simpl in *; [done|].
  destruct (matches c t) eqn:Hm; simpl in Hex.
  - apply focus_keeps. unfold focusOn. rewrite Hm. simpl. eauto.
  - apply IH. done.
Qed.

Lemma quiet_focusTribe (c : string) (w : World) :
  quiet w → quiet (state_of (focusTribe c w)).2.
Proof.
  intros Hq. unfold focusTribe.
  destruct (_layer w) as [l|] eqn:Hl; [|by apply (quiet_same w)].
  destruct (_data w); [|by apply (quiet_same w)].
  destruct (existsb _ _) eqn:Hex; [|done].
  destruct (IndigenousAccessMaps.getMap (host w)); [|done].
  pose proof (focus_found _ _ Hex (None, [])) as [r Hr].
  destruct (foldl _ _ _) as [sel ts']. simpl in Hr. subst sel.
  simpl. intros Hsel. done.
Qed.

Lemma quiet_step (w : World) (e : Event) : quiet w → quiet (step w e).
Proof.
  intros Hq. destruct e as [view controls| | |options| |l j|l j|l j|c| |i o];
    cbn [step].
  - by apply (quiet_same w).
  - by apply (quiet_same w).
  - by apply quiet_createLayer.
  - unfold addToMap. destruct (IndigenousAccessMaps.getMap (host w)).
    + destruct (_data w); [by apply quiet_addToMap_loaded|].
      by apply (quiet_same w).
    + by apply (quiet_same w).
  - unfold removeFromMap. destruct (_layer w) eqn:Hl; [|done].
    destruct (IndigenousAccessMaps.removeOverlayLayer _ _); simpl.
    + intros _. apply Forall_nil_2.
    + by apply (quiet_same w).
  - unfold mouseover. destruct (territory l j w); [|done].
    destruct (decide _); [|done]. intros Hs.
    rewrite shown_setStyleAt. destruct (decide _); [|by apply Hq].
    apply unmarked_alter; [done|by apply Hq].
  - unfold mouseout. destruct (territory l j w); [|done].
    destruct (decide _); [|done]. intros Hs.
    rewrite shown_setStyleAt. destruct (decide _); [|by apply Hq].
    apply unmarked_alter; [done|by apply Hq].
  - unfold click. destruct (territory l j w); [|done].
    destruct (_selectedFeature w) eqn:Hsel.
    + destruct (decide _); [|by intros ?].
      destruct (_layer w); [by intros ?|done].
    + by intros ?.
  - by apply quiet_focusTribe.
  - unfold clearSelection. destruct (_selectedFeature w); [|done].
    destruct (_layer w) as [l|] eqn:Hl; [|done].
    intros _. change (shown (set_selectedFeature None (resetStyle l w)))
      with (shown (resetStyle l w)).
    rewrite shown_resetStyle, decide_True by done. apply unmarked_reset.
  - unfold settle. destruct (pending w !! i) as [k|]; [|done].
    unfold loadData_settled. destruct (accepted o); simpl.
    + destruct k.
      * by apply (quiet_same w).
      * apply quiet_addToMap_loaded. by apply (quiet_same w).
    + destruct k; by apply (quiet_same w).
Qed.

Lemma quiet_run (es : list Event) (w : World) : quiet w → quiet (run w es).
Proof.
  revert w. induction es as [|e es IH]; intros w Hq; [done|].
  apply IH. by apply quiet_step.
Qed.

(** X21.  After [clearSelection], whatever happened before, no territory
    of the current boundaries layer is in the selected style. *)
Theorem clearSelection_leaves_nothing_selected (es : list Event) :
  selected (clearSelection (run initial es)) = [].
Proof.
  assert (Hq : quiet (run initial es)).
  { apply quiet_run. intros _. apply Forall_nil_2. }
  revert Hq. generalize (run initial es). intros w Hq.
  unfold clearSelection. destruct (_selectedFeature w) eqn:Hsel.
  - destruct (_layer w) as [l|] eqn:Hl.
    + rewrite selected_shown.
      change (shown (set_selectedFeature None (resetStyle l w)))
        with (shown (resetStyle l w)).
      rewrite shown_resetStyle, decide_True by done.
      apply unmarked_filter, unmarked_reset.
    + unfold selected. by rewrite Hl.
  - rewrite selected_shown. apply unmarked_filter. by apply Hq.
Qed.

(** ** Clicks keep one territory selected *)

Lemma refs_alter (ts : list Territory) (j : nat) (s : Style) :
  refs (alter (setStyle s) j ts) = refs ts.
Proof.
  revert j. induction ts as [|t ts IH]; intros j; [done|].
  destruct j as [|j]; simpl; [done|]. f_equal. apply IH.
Qed.

Lemma refs_reset (ts : list Territory) (s : Style) :
  refs (setStyle s <$> ts) = refs ts.
Proof. induction ts as [|t ts IH]; simpl; [done|]. by f_equal. Qed.

Lemma refs_fresh (data : list Feature) (s : Style) :
  refs ((λ f, mkTerritory f s) <$> data) = ref <$> data.
Proof. induction data as [|f data IH]; simpl; [done|]. by f_equal. Qed.

Lemma refs_parsed (body : list Properties) : ∀ base,
  ref <$> parsed base body = seq base (length body).
Proof.
  unfold parsed. induction body as [|ps body IH]; intros base; [done|].
  simpl. f_equal; [lia|]. rewrite <- IH. f_equal.
  apply imap_ext. intros i x _. simpl. f_equal. lia.
Qed.

Lemma marks_unmarked (r : option nat) (ts : list Territory) :
  unmarked ts → marks r ts.
Proof.
  intros Hu t Ht Hs. unfold unmarked in Hu. rewrite Forall_forall in Hu.
  by destruct (Hu t Ht).
Qed.

Lemma marks_None (r : option nat) (ts : list Territory) :
  marks None ts → marks r ts.
Proof. intros Hm t Ht Hs. by specialize (Hm t Ht Hs). Qed.

Lemma marks_alter (r : option nat) (ts : list Territory) (j : nat)
    (s : Style) :
  s ≠ Selected → marks r ts → marks r (alter (setStyle s) j ts).
Proof.
  intros Hs Hm t Ht Hst. apply list_elem_of_lookup in Ht as [i Hi].
  destruct (decide (i = j)) as [->|Hne].
  - rewrite list_lookup_alter_eq in Hi.
    destruct (ts !! j); [|done]. injection Hi as <-. done.
  - rewrite list_lookup_alter_ne in Hi by done.
    apply Hm; [|done]. by apply list_elem_of_lookup_2 in Hi.
Qed.

Lemma marks_select (ts : list Territory) (j : nat) (t : Territory) :
  ts !! j = Some t →
  marks (Some (ref (feature t))) ts →
  marks (Some (ref (feature t))) (alter (setStyle Selected) j ts).
Proof.
  intros Hj Hm t' Ht' Hst. apply list_elem_of_lookup in Ht' as [i Hi].
  destruct (decide (i = j)) as [->|Hne].
  - rewrite list_lookup_alter_eq, Hj in Hi. by injection Hi as <-.
  - rewrite list_lookup_alter_ne in Hi by done.
    apply Hm; [|done]. by apply list_elem_of_lookup_2 in Hi.
Qed.

Lemma marked_at_most_once (r : option nat) (ts : list Territory) :
  marks r ts → distinct ts →
  (length (List.filter is_selected ts) <= 1)%nat.
Proof.
  unfold distinct. induction ts as [|t ts IH]; intros Hm Hnd; simpl; [lia|].
  rewrite fmap_cons in Hnd. apply NoDup_cons in Hnd as [Hfresh Hnd].
  assert (Hm' : marks r ts).
  { intros t' Ht'. apply Hm. by right. }
  destruct (decide (style t = Selected)) as [Hs|Hs].
  - rewrite bool_decide_eq_true_2 by done.
    rewrite unmarked_filter; [simpl; lia|].
    apply Forall_forall. intros t' Ht' Hs'. apply Hfresh.
    assert (Hr : Some (ref (feature t)) = Some (ref (feature t'))).
    { rewrite <- (Hm t) by (done || left). apply Hm'; done. }
    injection Hr as ->. apply list_elem_of_fmap. by exists t'.
  - rewrite bool_decide_eq_false_2 by done. by apply IH.
Qed.

Lemma single_same (w w' : World) :
  shown w' = shown w → _selectedFeature w' = _selectedFeature w →
  _data w' = _data w → single w → single w'.
Proof. unfold single. intros -> -> ->. done. Qed.

Lemma single_createLayer (w : World) : single w → single (createLayer w).
Proof.
  intros (Hm & Hd & Hnd). destruct (_data w) as [data|] eqn:Hdata.
  - destruct (shown_createLayer w data Hdata) as (Hs & Hsel & Hdt).
    unfold single. rewrite Hs, Hsel, Hdt, Hdata.
    split; [apply marks_unmarked, unmarked_fresh|].
    split; [|done]. unfold distinct. by rewrite refs_fresh.
  - unfold createLayer. rewrite Hdata. apply (single_same w); try done.
    unfold single. by rewrite Hdata.
Qed.

Lemma single_addToMap_loaded (options : Options) (w : World) :
  single w → single (state_of (addToMap_loaded options w)).
Proof.
  intros Hq. unfold addToMap_loaded.
  set (w1 := match _layer w with Some _ => w | None => createLayer w end).
  assert (Hq1 : single w1).
  { subst w1. destruct (_layer w); [done|]. by apply single_createLayer. }
  clearbody w1. destruct (_layer w1); [|done].
  destruct (IndigenousAccessMaps.addOverlayLayer _ _ _ _); simpl;
    by apply (single_same w1).
Qed.

Lemma single_hover (l : LayerId) (j : nat) (s : Style) (w : World) :
  s ≠ Selected → single w → single (setStyleAt l j s w).
Proof.
  intros Hs (Hm & Hd & Hnd). unfold single.
  rewrite shown_setStyleAt.
  change (_selectedFeature (setStyleAt l j s w)) with (_selectedFeature w).
  change (_data (setStyleAt l j s w)) with (_data w).
  destruct (decide _); [|done].
  split; [by apply marks_alter|]. split; [|done].
  unfold distinct. by rewrite refs_alter.
Qed.

Lemma territory_resetStyle (cur l : LayerId) (j : nat) (w : World)
    (t : Territory) :
  territory l j w = Some t →
  ∃ t', territory l j (resetStyle cur w) = Some t'
        ∧ feature t' = feature t.
Proof.
  unfold territory, resetStyle. simpl. intros Ht.
  destruct (decide (cur = l)) as [->|Hl].
  - rewrite lookup_alter_eq.
    destruct (layers w !! l) as [ts|]; [|done]. simpl in *.
    rewrite list_lookup_fmap, Ht. simpl. eauto.
  - rewrite lookup_alter_ne by done. eauto.
Qed.

Lemma single_select (l : LayerId) (j : nat) (w : World) (t : Territory)
    (r : nat) :
  territory l j w = Some t → ref (feature t) = r →
  marks (Some r) (shown w) →
  distinct (shown w) → NoDup (ref <$> default [] (_data w)) →
  single (setStyleAt l j Selected (set_selectedFeature (Some r) w)).
Proof.
  intros Ht <- Hm Hd Hnd. unfold single. rewrite shown_setStyleAt.
  change (shown (set_selectedFeature _ w)) with (shown w).
  change (_layer (set_selectedFeature _ w)) with (_layer w).
  split; [|split; [|done]].
  - destruct (decide _) as [Hl|]; [|done].
    apply marks_select; [|done]. by apply shown_territory with l.
  - destruct (decide _); [|done]. unfold distinct. by rewrite refs_alter.
Qed.

Lemma single_click (l : LayerId) (j : nat) (w : World) :
  single w → single (state_of (click l j w)).
Proof.
  intros (Hm & Hd & Hnd). unfold click.
  destruct (territory l j w) as [t|] eqn:Ht; [|done].
  destruct (_selectedFeature w) as [r|] eqn:Hsel.
  - destruct (decide (r ≠ ref (feature t))) as [Hne|Heq].
    + destruct (_layer w) as [cur|] eqn:Hcur;
        [|simpl; unfold single; by rewrite Hsel].
      simpl.
      destruct (territory_resetStyle cur l j w t Ht) as (t' & Ht' & Hf).
      apply single_select with t'.
      * done.
      * by rewrite Hf.
      * rewrite shown_resetStyle, decide_True by done.
        apply marks_unmarked, unmarked_reset.
      * rewrite shown_resetStyle, decide_True by done.
        unfold distinct. by rewrite refs_reset.
      * done.
    + simpl. assert (Hr : r = ref (feature t)).
      { destruct (decide (r = ref (feature t))); [done|]. by destruct Heq. }
      rewrite Hr in Hm. by apply single_select with t.
  - simpl. apply single_select with t; try done. by apply marks_None.
Qed.

Lemma single_step (w : World) (e : Event) :
  no_focus e = true → single w → single (step w e).
Proof.
  intros He Hq.
  destruct e as [view controls| | |options| |l j|l j|l j|c| |i o];
    cbn [step]; try done.
  - by apply single_createLayer.
  - unfold addToMap. destruct (IndigenousAccessMaps.getMap (host w)).
    + destruct (_data w); [by apply single_addToMap_loaded|].
      by apply (single_same w).
    + by apply (single_same w).
  - unfold removeFromMap. destruct (_layer w) eqn:Hl; [|done].
    destruct (IndigenousAccessMaps.removeOverlayLayer _ _); simpl.
    + destruct Hq as (_ & _ & Hnd).
      split; [intros t Ht; by apply elem_of_nil in Ht|]. split; [|done].
      apply NoDup_nil_2.
    + by apply (single_same w).
  - unfold mouseover. destruct (territory l j w); [|done].
    destruct (decide _); [|done]. by apply single_hover.
  - unfold mouseout. destruct (territory l j w); [|done].
    destruct (decide _); [|done]. by apply single_hover.
  - by apply single_click.
  - unfold clearSelection. destruct (_selectedFeature w) eqn:Hsel; [|done].
    destruct (_layer w) as [l|] eqn:Hl; [|done].
    destruct Hq as (Hm & Hd & Hnd). unfold single.
    change (shown (set_selectedFeature None (resetStyle l w)))
      with (shown (resetStyle l w)).
    rewrite shown_resetStyle, decide_True by done.
    split; [apply marks_unmarked, unmarked_reset|]. split; [|done].
    unfold distinct. by rewrite refs_reset.
  - unfold settle. destruct (pending w !! i) as [k|]; [|done].
    unfold loadData_settled. destruct (accepted o) as [body|]; simpl.
    + assert (Hs : single
        (set_data (Some (parsed (next_stamp (page w)) body))
           (with_page
              (λ _, mkPage (console (page w)) (requests (page w))
                      (next_timer (page w))
                      (next_stamp (page w) + length body))
              (with_pending (delete i) w)))).
      { destruct Hq as (Hm & Hd & _). split; [done|]. split; [done|].
        simpl. rewrite refs_parsed. apply NoDup_seq. }
      destruct k; [done|]. by apply single_addToMap_loaded.
    + destruct k; by apply (single_same w).
Qed.

Lemma single_run (es : list Event) : ∀ w,
  forallb no_focus es = true → single w → single (run w es).
Proof.
  induction es as [|e es IH]; intros w Hes Hq; [done|].
  simpl in Hes. apply andb_true_iff in Hes as [He Hes].
  apply IH; [done|]. by apply single_step.
Qed.

(** X22.  As long as [focusTribe] is not called, at most one territory of
    the current boundaries layer is in the selected style, whatever is
    loaded, added, removed, hovered, clicked or cleared. *)
Theorem clicks_keep_one_selection (es : list Event) :
  forallb no_focus es = true →
  (length (selected (run initial es)) <= 1)%nat.
Proof.
  intros Hes.
  assert (Hq : single (run initial es)).
  { apply single_run; [done|]. split; [|split].
    - intros t Ht. by apply elem_of_nil in Ht.
    - apply NoDup_nil_2.
    - apply NoDup_nil_2. }
  destruct Hq as (Hm & Hd & _). rewrite selected_shown.
  by apply marked_at_most_once with (_selectedFeature (run initial es)).
Qed.

End SelectionProofs.

(** * The search by name *)

Section SearchProofs.

Import IATribalBoundaries.

Lemma includes_empty (s : string) : includes s EmptyString = true.
Proof. by destruct s. Qed.

Lemma filter_all {A} (p : A → bool) (l : list A) :
  (∀ x, p x = true) → List.filter p l = l.
Proof.
  intros Hp. induction l as [|x l IH]; simpl; [done|]. by rewrite Hp, IH.
Qed.

(** X23.  [searchTribes]: the empty query returns every loaded tribe, the
    case of the query does not matter, and every result is a loaded
    tribe whose name, in lower case, contains the query in lower
    case. *)
Theorem searchTribes_query (w : World) (query : string) :
  searchTribes EmptyString w = getAllTribes w
  ∧ searchTribes (toLowerCase query) w = searchTribes query w
  ∧ (∀ f, f ∈ searchTribes query w →
       f ∈ getAllTribes w
       ∧ includes (toLowerCase (nameOf (properties f))) (toLowerCase query)
         = true).
Proof.
  unfold searchTribes, getAllTribes. split; [|split].
  - destruct (_data w) as [fs|]; [|done]. simpl.
    apply filter_all. intros f. apply includes_empty.
  - by rewrite toLowerCase_idemp.
  - intros f Hf. destruct (_data w) as [fs|]; simpl in *.
    + apply list_elem_of_In, filter_In in Hf as [Hin Hp].
      split; [by apply list_elem_of_In|done].
    + by apply elem_of_nil in Hf.
Qed.

End SearchProofs.

(** * The further properties on small inputs *)

Section MoreWitnesses.

Import Fixture.

Lemma getAlertCounts_tally_witness :
  default 0%N (IAHazardLayers.getAlertCounts three_alerts !! "Severe") = 1%N
  ∧ default 0%N (IAHazardLayers.getAlertCounts three_alerts !! "total") = 3%N.
Proof.
  split.
  - exact (getAlertCounts_tally three_alerts
             [flood_warning; heat_advisory; expired_watch] "Severe"
             eq_refl eq_refl).
  - exact (getAlertCounts_tally three_alerts
             [flood_warning; heat_advisory; expired_watch] "total"
             eq_refl eq_refl).
Defined.

Lemma hasHighSeverityAlerts_iff_witness :
  IAHazardLayers.hasHighSeverityAlerts three_alerts = true.
Proof.
  apply (hasHighSeverityAlerts_iff three_alerts
           [flood_warning; heat_advisory; expired_watch] eq_refl).
  exists flood_warning. split; [left|right; reflexivity].
Defined.

Lemma getAlertsBySeverity_counts_witness :
  default 0%N (IAHazardLayers.getAlertCounts three_alerts !! "Minor")
  = N.of_nat (length (IAHazardLayers.getAlertsBySeverity "Minor" three_alerts)).
Proof.
  apply (proj1 (getAlertsBySeverity_counts three_alerts
                  [flood_warning; heat_advisory; expired_watch] eq_refl));
    [reflexivity|discriminate|discriminate|reflexivity].
Defined.

Lemma getAlertsByEvent_throws_iff_witness :
  IAHazardLayers.getAlertsByEvent EmptyString three_alerts
  = Some [flood_warning; heat_advisory; expired_watch].
Proof.
  apply (proj2 (proj2 (getAlertsByEvent_throws_iff EmptyString three_alerts
                         [flood_warning; heat_advisory; expired_watch]
                         eq_refl))).
  intros f Hf.
  apply elem_of_cons in Hf as [->|Hf]; [by eexists|].
  apply elem_of_cons in Hf as [->|Hf]; [by eexists|].
  apply list_elem_of_singleton in Hf as ->. by eexists.
Defined.

Lemma failed_initial_load_makes_no_layer_witness :
  IAHazardLayers._layer
    (IAHazardLayers.settle 0 (Response false 503 None) noon
       (IAHazardLayers.addToMap no_options bare_map)) = None
  ∧ IARivers._gageLayer
      (IARivers.settleGages 0 (Claims.ok_gages (Spec.response [no_values]))
         (IARivers.addGagesToMap no_gage_options
            (IARivers.run IARivers.initial [IARivers.InitMap view None])))
    = None.
Proof.
  split.
  - refine (proj1 (proj1 (@failed_initial_load_makes_no_layer engine)
                     bare_map no_options (Response false 503 None) noon
                     (IndigenousAccessMaps.mkLMap [] view) _ _));
      reflexivity.
  - refine (proj1 (proj2 (proj2 (@failed_initial_load_makes_no_layer engine)
                     (IARivers.run IARivers.initial
                        [IARivers.InitMap view None])
                     no_gage_options
                     (Claims.ok_gages (Spec.response [no_values]))
                     (IndigenousAccessMaps.mkLMap [] view) _)
                  (Spec.response [no_values]) _ _));
      reflexivity.
Defined.

Lemma refreshing_never_registers_witness :
  IAHazardLayers.host
    (IAHazardLayers.run on_map
       [IAHazardLayers.Fire 1%positive;
        IAHazardLayers.Settle 1 (Claims.ok [heat_advisory]) noon;
        IAHazardLayers.Fire 1%positive;
        IAHazardLayers.Settle 2 Rejected noon])
  = IAHazardLayers.host on_map
  ∧ IARivers.host
      (IARivers.run gages_on_map
         [IARivers.Fire 1%positive;
          IARivers.SettleGages 1
            (Claims.ok_gages (Spec.response skagit_later))])
    = IARivers.host gages_on_map.
Proof.
  split.
  - refine (proj1 (proj1 (@refreshing_never_registers engine) _ on_map _ _)).
    + intros i k.
      replace (IAHazardLayers.pending on_map)
        with (∅ : gmap nat IAHazardLayers.Continuation) by reflexivity.
      by rewrite lookup_empty.
    + repeat constructor.
  - refine (proj1 (proj2 (@refreshing_never_registers engine) _
                     gages_on_map _ _)).
    + intros i k.
      replace (IARivers.pending gages_on_map)
        with (∅ : gmap nat IARivers.Continuation) by reflexivity.
      by rewrite lookup_empty.
    + repeat constructor.
Defined.

Lemma late_answer_after_removal_witness :
  IAHazardLayers._layer
    (IAHazardLayers.settle 1 (Claims.ok [heat_advisory]) noon
       (state_of (IAHazardLayers.removeFromMap two_ticks))) = None
  ∧ IAHazardLayers._data
      (IAHazardLayers.settle 1 (Claims.ok [heat_advisory]) noon
         (state_of (IAHazardLayers.removeFromMap two_ticks)))
    = Some [heat_advisory].
Proof.
  destruct (proj1 (@late_answer_after_removal engine) two_ticks
              (state_of (IAHazardLayers.removeFromMap two_ticks)) 1
              [heat_advisory] noon)
    as (_ & Hl & _ & _ & Hd); [reflexivity|reflexivity|].
  split; [exact Hl|exact Hd].
Defined.

Lemma add_then_remove_overlay_witness :
  ∃ st1,
    IndigenousAccessMaps.addOverlayLayer "River Gages" 5 true
      (IAHazardLayers.host on_map) = Returns st1
    ∧ IndigenousAccessMaps.removeOverlayLayer "River Gages" st1
      = Returns (IAHazardLayers.host on_map).
Proof.
  destruct (add_then_remove_overlay (IAHazardLayers.host on_map)
              "River Gages" 5 true (IndigenousAccessMaps.mkLMap [0] view))
    as (st1 & Hadd & _ & Hrem).
  - reflexivity.
  - reflexivity.
  - reflexivity.
  - apply (bool_decide_unpack _). vm_compute. exact I.
  - intros c [= <-]. apply (bool_decide_unpack _). vm_compute. exact I.
  - exists st1. split; [exact Hadd|exact Hrem].
Defined.

Lemma current_region_is_known_witness :
  is_Some (IndigenousAccessMaps.REGIONS
           !! IndigenousAccessMaps.getCurrentRegion
                (IndigenousAccessMaps.navRun
                   IndigenousAccessMaps.initialNav tour)).
Proof. apply current_region_is_known. reflexivity. Defined.

Lemma region_parameter_is_read_as_written_witness :
  IndigenousAccessMaps._currentRegion
    (IndigenousAccessMaps.initCamera
       (IndigenousAccessMaps.mkInitOptions None None) [("region", "WA")]
       IndigenousAccessMaps.initialNav)
  = "pnw"
  ∧ IndigenousAccessMaps._currentRegion
      (state_of
         (IndigenousAccessMaps.focusRegion "WA"
            (IndigenousAccessMaps.initCamera
               (IndigenousAccessMaps.mkInitOptions None None)
               [("region", "WA")] IndigenousAccessMaps.initialNav)))
    = "wa".
Proof.
  destruct (region_parameter_is_read_as_written
              (IndigenousAccessMaps.mkInitOptions None None)
              [("region", "WA")] IndigenousAccessMaps.initialNav "WA"
              (IndigenousAccessMaps.mkRegion (47.4, -120.5)%float 7
                 "Washington"))
    as [Hinit Hfocus]; [reflexivity|reflexivity|reflexivity|].
  rewrite Hfocus, Hinit. split; reflexivity.
Defined.

Lemma first_layer_stays_after_second_add_witness :
  ∃ w3 m3,
    IAHazardLayers.removeFromMap
      (IAHazardLayers.settle 1 (Claims.ok [heat_advisory]) noon
         (IAHazardLayers.addToMap no_options on_map))
    = Returns w3
    ∧ IndigenousAccessMaps._map (IAHazardLayers.host w3) = Some m3
    ∧ 0 ∈ IndigenousAccessMaps.map_layers m3.
Proof.
  destruct (@first_layer_stays_after_second_add engine on_map no_options
              [heat_advisory] noon (IndigenousAccessMaps.mkLMap [0] view) 0)
    as (w3 & m3 & Hrem & _ & _ & Hm & Hin).
  - reflexivity.
  - reflexivity.
  - left.
  - discriminate.
  - exists w3, m3. split; [exact Hrem|]. split; [exact Hm|exact Hin].
Defined.

Lemma failed_query_is_not_retried_witness :
  IAFloodZones.loadForCurrentView flood_options IAFloodZones.AwaitLoad
    (IAFloodZones.settle 0 Rejected
       (IAFloodZones.loadForCurrentView flood_options IAFloodZones.AwaitLoad
          bare_flood_map))
  = IAFloodZones.settle 0 Rejected
      (IAFloodZones.loadForCurrentView flood_options IAFloodZones.AwaitLoad
         bare_flood_map).
Proof.
  refine (proj2 (proj2 (proj2 (@failed_query_is_not_retried engine
            flood_options IAFloodZones.AwaitLoad bare_flood_map
            (IndigenousAccessMaps.mkLMap [] view) Rejected _ _ _ _))));
    reflexivity.
Defined.

Lemma unconvertible_response_keeps_layer_witness :
  IARivers.convertToGeoJSON (Spec.response (skagit ++ [no_values])) = None
  ∧ IARivers.displayed
      (IARivers.step gages_two_ticks
         (IARivers.SettleGages 1
            (Claims.ok_gages (Spec.response (skagit ++ [no_values])))))
    = IARivers.displayed gages_two_ticks.
Proof.
  destruct (@unconvertible_response_keeps_layer engine
              (skagit ++ [no_values]) gages_two_ticks 1) as [Hnone Htick].
  - exists no_values. split.
    + apply elem_of_app. right. left.
    + right. right. reflexivity.
  - split; [exact Hnone|].
    destruct (Htick eq_refl) as (_ & _ & Hd & _). exact Hd.
Defined.

Lemma convertToGeoJSON_first_appearance_witness :
  (λ f, IARivers.p_siteCode (IARivers.properties f))
    <$> IARivers.features
          (default (IARivers.mkFeatureCollection [])
             (IARivers.convertToGeoJSON (Spec.response two_sites)))
  = ["12200500"; "12189500"].
Proof.
  exact (proj1 (@convertToGeoJSON_first_appearance engine two_sites
                  (default (IARivers.mkFeatureCollection [])
                     (IARivers.convertToGeoJSON (Spec.response two_sites)))
                  eq_refl)).
Defined.

Lemma gage_status_unknown_iff_witness :
  ∃ f,
    IARivers.features
      (default (IARivers.mkFeatureCollection [])
         (IARivers.convertToGeoJSON (Spec.response two_sites))) !! 1%nat
    = Some f
    ∧ IARivers.p_siteCode (IARivers.properties f) = "12189500"
    ∧ IARivers.determineFloodStatus (IARivers.properties f) = "unknown".
Proof.
  eexists. split; [reflexivity|]. split; [reflexivity|].
  refine (proj2 (proj1 (@gage_status_unknown_iff engine two_sites
            (default (IARivers.mkFeatureCollection [])
               (IARivers.convertToGeoJSON (Spec.response two_sites)))
            _ eq_refl _)) _).
  - apply list_elem_of_lookup. exists 1%nat. reflexivity.
  - split; reflexivity.
Defined.

Lemma getGageBySiteCode_after_refresh_witness :
  ∃ f,
    IARivers.getGageBySiteCode "12200500"
      (IARivers.step gages_two_ticks
         (IARivers.SettleGages 1
            (Claims.ok_gages (Spec.response skagit_later))))
    = Some f
    ∧ IARivers.streamflow (IARivers.properties f)
      = Spec.reading "12200500" IARivers.PARAMETER_CODES_discharge
          skagit_later.
Proof.
  pose proof (@getGageBySiteCode_after_refresh engine gages_two_ticks 1 0
                skagit_later "12200500" eq_refl eq_refl eq_refl) as Hg.
  simpl in Hg.
  destruct (IARivers.getGageBySiteCode _ _) as [f|].
  - exists f. split; [reflexivity|]. by destruct Hg as (_ & _ & Hflow & _).
  - exfalso. eapply Hg; [left|reflexivity].
Defined.

Lemma moveend_handler_outlives_removeFromMap_witness :
  IAFloodZones._layer
    (IAFloodZones.run flood_on_map
       [IAFloodZones.RemoveFromMap; IAFloodZones.MoveEnd view_panned;
        IAFloodZones.Settle 1 (Response true 200 (Some []))])
  = Some 1
  ∧ IndigenousAccessMaps._overlayLayers
      (IAFloodZones.host
         (IAFloodZones.run flood_on_map
            [IAFloodZones.RemoveFromMap; IAFloodZones.MoveEnd view_panned;
             IAFloodZones.Settle 1 (Response true 200 (Some []))]))
    !! "FEMA Flood Zones" = None.
Proof.
  destruct (@moveend_handler_outlives_removeFromMap engine flood_on_map
              flood_options view_panned
              (IndigenousAccessMaps.mkLMap [0] view) 0 [])
    as (_ & _ & _ & Hl & _ & Hreg); [reflexivity|reflexivity|reflexivity|].
  split; [exact Hl|exact Hreg].
Defined.

Lemma reload_refills_the_same_layer_witness :
  IAFloodZones._layer
    (IAFloodZones.run flood_panned
       [IAFloodZones.LoadForCurrentView flood_options;
        IAFloodZones.Settle 1 (Response true 200 (Some []))])
  = Some 0.
Proof.
  refine (proj1 (@reload_refills_the_same_layer engine flood_panned
                   flood_options (IndigenousAccessMaps.mkLMap [0] view_panned)
                   0 [] _ _ _));
    reflexivity.
Defined.

Lemma clicks_keep_one_selection_witness :
  (length (IATribalBoundaries.selected
             (IATribalBoundaries.run IATribalBoundaries.initial clicks))
   <= 1)%nat.
Proof. apply clicks_keep_one_selection. reflexivity. Defined.

Lemma searchTribes_query_witness :
  IATribalBoundaries.searchTribes "LUMMI" territories
  = IATribalBoundaries.searchTribes "lummi" territories
  ∧ (∀ f, f ∈ IATribalBoundaries.searchTribes "lummi" territories →
       f ∈ IATribalBoundaries.getAllTribes territories).
Proof.
  split.
  - symmetry.
    exact (proj1 (proj2 (searchTribes_query territories "LUMMI"))).
  - intros f Hf.
    exact (proj1 (proj2 (proj2 (searchTribes_query territories "lummi"))
                    f Hf)).
Defined.

End MoreWitnesses.
